(** * nengo.spa.module: registration, name resolution and scope validation

    A shallow embedding of [nengo/spa/module.py] (class [Module]).

    Python objects live in a store: a module is a location, and the store
    maps every location to the record of its fields.  Methods are
    computations in a state-and-exception monad; as in Python, the effects
    performed before an exception is raised are kept.  The recursion of the
    resolution methods is bounded by the interpreter's remaining call depth:
    a call made with no depth left raises [RecursionError]. *)

From Stdlib Require Import String Ascii List ZArith Lia Bool.
From stdpp Require Import base option gmap strings.
Import ListNotations.

Local Open Scope string_scope.
Local Open Scope list_scope.

(** ** Strings: the two splitting primitives the resolver uses *)

(** [name.split(sep, 1)] when it yields two components: the text before and
    after the first occurrence of [sep]; [None] stands for the one-element
    list [[name]]. *)
Fixpoint split1 (sep : ascii) (s : string) : option (string * string) :=
  match s with
  | EmptyString => None
  | String c s' =>
      if Ascii.eqb c sep then Some (EmptyString, s')
      else match split1 sep s' with
           | Some (h, t) => Some (String c h, t)
           | None => None
           end
  end.

(** [name.rsplit(sep, 1)]: as [split1], at the last occurrence of [sep]. *)
Fixpoint rsplit1 (sep : ascii) (s : string) : option (string * string) :=
  match s with
  | EmptyString => None
  | String c s' =>
      match rsplit1 sep s' with
      | Some (h, t) => Some (String c h, t)
      | None => if Ascii.eqb c sep then Some (EmptyString, s') else None
      end
  end.

(** [sep in s]. *)
Fixpoint contains (sep : ascii) (s : string) : bool :=
  match s with
  | EmptyString => false
  | String c s' => Ascii.eqb c sep || contains sep s'
  end.

(** [t] is a suffix of [s]. *)
Definition is_suffix (t s : string) : Prop := exists p, s = String.append p t.

Definition dot : ascii := "."%char.
Definition underscore : ascii := "_"%char.

(** ** Dictionaries

    [_modules], [inputs] and [outputs] are Python dicts that the code
    iterates over, so their order matters: they are association lists in
    insertion order.  Assigning to a key that is present replaces its
    value in place; a new key goes to the end. *)

Definition dict (V : Type) : Type := list (string * V).

Fixpoint dict_get {V} (d : dict V) (k : string) : option V :=
  match d with
  | [] => None
  | (k', v) :: d' => if String.eqb k' k then Some v else dict_get d' k
  end.

Definition dict_mem {V} (d : dict V) (k : string) : bool :=
  match dict_get d k with Some _ => true | None => false end.

Fixpoint dict_set {V} (d : dict V) (k : string) (v : V) : dict V :=
  match d with
  | [] => [(k, v)]
  | (k', v') :: d' =>
      if String.eqb k' k then (k', v) :: d' else (k', v') :: dict_set d' k v
  end.

Definition dict_keys {V} (d : dict V) : list string := map fst d.
Definition dict_values {V} (d : dict V) : list V := map snd d.

(** The keys of a dict are pairwise distinct. *)
Definition dict_wf {V} (d : dict V) : Prop := List.NoDup (dict_keys d).

(** ** Data model *)

Definition loc := nat.        (* identity of a Module object *)
Definition vloc := nat.       (* identity of a VocabularyMap object *)
Definition handle := nat.     (* identity of a Vocabulary object *)
Definition objref := nat.     (* a Node or an Ensemble *)

(** The second component of a port: a dimensionality (a Python [int]), a
    [Vocabulary], or anything else (such as [None]). *)
Inductive Binding : Type :=
  | BInt (d : Z)
  | BVocab (h : handle)
  | BNone.

Definition Port : Type := objref * Binding.

(** A member of [self.networks]: a [Module] or another kind of network. *)
Inductive NetRef : Type :=
  | NetModule (m : loc)
  | NetPlain (n : nat).

(** A value assigned to an attribute: a [Module], the [Default] sentinel,
    [None], a string, a dict of children, a dict of ports, a
    [VocabularyMap], a list of networks, or something else. *)
Inductive Value : Type :=
  | VModule (m : loc)
  | VDefault
  | VOther (v : nat)
  | VNone
  | VStr (s : string)
  | VRegistry (children : dict loc)
  | VPorts (ports : dict Port)
  | VVocabMap (vm : vloc)
  | VNetworks (nets : list NetRef).

(** The fields of a [Module] object.  [label], [_modules], [inputs],
    [outputs], [vocabs] and [networks] are the attributes the class works
    with, each at its type; [attrs] holds the attributes under all other
    names, which is what [hasattr] and [getattr] find there.  The store is
    typed: each of the six holds a value of its own kind, always. *)
Record ModuleRec : Type := mkModule {
  label : option string;
  attrs : gmap string Value;
  _modules : dict loc;
  inputs : dict Port;
  outputs : dict Port;
  vocabs : vloc;
  networks : list NetRef
}.

(** The text of a [SpaModuleError], by the message it is built from. *)
Inductive SpaMsg : Type :=
  | CannotReassign (key : string) (value : Value)
  | NotSetAsAttribute (net : loc)
  | NoModule (name : string)
  | NoModuleInput (name : string)
  | NoModuleOutput (name : string).

(** The exceptions that occur.  [SpaModuleError] is a class of
    [nengo.exceptions] and no [KeyError]; [RecursionError] is what a call
    raises when the call depth is used up; [TypeError] is raised for a
    value of the wrong kind; [OtherError] stands for any exception from
    elsewhere. *)
Inductive Exn : Type :=
  | SpaModuleError (msg : SpaMsg)
  | KeyError
  | ValidationError (traceback : bool)
  | InvalidDimensionError
  | RecursionError
  | OtherError (tag : nat)
  | TypeError.

Inductive Warning : Type :=
  | DeprecationWarning.

(** The store: the module at every location, the contents of every
    vocabulary map, the identity the next new vocabulary gets, and the
    warnings emitted so far. *)
Record State : Type := mkState {
  heap : loc -> ModuleRec;
  vmaps : vloc -> gmap Z handle;
  next_vocab : handle;
  warnings : list Warning
}.

(** ** The monad

    A computation takes the store and gives back what it returned or
    raised, and the store it left. *)

Inductive Outcome (A : Type) : Type :=
  | Ok (a : A)
  | Raise (e : Exn).
Arguments Ok {A} a.
Arguments Raise {A} e.

Definition M (A : Type) : Type := State -> Outcome A * State.

Definition ret {A} (a : A) : M A := fun st => (Ok a, st).

Definition bind {A B} (m : M A) (k : A -> M B) : M B :=
  fun st =>
    match m st with
    | (Ok a, st') => k a st'
    | (Raise e, st') => (Raise e, st')
    end.

Definition raise {A} (e : Exn) : M A := fun st => (Raise e, st).

Declare Scope py_scope.
Delimit Scope py_scope with py.
Notation "x <- m ;; k" := (bind m (fun x => k))
  (at level 100, m at next level, right associativity) : py_scope.
Notation "m ;; k" := (bind m (fun _ => k))
  (at level 100, right associativity) : py_scope.
Local Open Scope py_scope.

(** [try: body  except KeyError: handler].  Only [KeyError] is caught;
    [SpaModuleError] is a different exception class and passes through. *)
Definition except_KeyError {A} (body handler : M A) : M A :=
  fun st =>
    match body st with
    | (Raise KeyError, st') => handler st'
    | r => r
    end.

(** [try: body  except ValidationError: handler]. *)
Definition except_ValidationError {A} (body : M A) (handler : bool -> M A) : M A :=
  fun st =>
    match body st with
    | (Raise (ValidationError tb), st') => handler tb st'
    | r => r
    end.

Definition deref (l : loc) : M ModuleRec := fun st => (Ok (heap st l), st).

Definition update (l : loc) (f : ModuleRec -> ModuleRec) : M unit :=
  fun st =>
    (Ok tt,
     mkState (fun l' => if Nat.eqb l' l then f (heap st l') else heap st l')
             (vmaps st) (next_vocab st) (warnings st)).

(** [d[k]]: raises [KeyError] when the key is missing. *)
Definition getitem {V} (d : dict V) (k : string) : M V :=
  match dict_get d k with
  | Some v => ret v
  | None => raise KeyError
  end.

(** [warnings.warn(w)]. *)
Definition warn (w : Warning) : M unit :=
  fun st => (Ok tt, mkState (heap st) (vmaps st) (next_vocab st) (warnings st ++ [w])).

(** ** Hierarchical name resolution

    [depth] is the number of nested calls the interpreter still allows. *)

Fixpoint get_module (depth : nat) (self : loc) (name : string)
    (strip_output : bool) : M loc :=
  match depth with
  | O => raise RecursionError
  | S depth' =>
      except_KeyError
        (me <- deref self ;;
         match split1 dot name with
         | Some (head, tail) =>
             child <- getitem (_modules me) head ;;
             get_module depth' child tail strip_output
         | None =>
             match dict_get (_modules me) name with
             | Some child => ret child
             | None =>
                 if strip_output
                    && (dict_mem (inputs me) name || dict_mem (outputs me) name)
                 then ret self
                 else raise KeyError
             end
         end)
        (raise (SpaModuleError (NoModule name)))
  end.

Fixpoint get_module_input (depth : nat) (self : loc) (name : string) : M Port :=
  match depth with
  | O => raise RecursionError
  | S depth' =>
      except_KeyError
        (me <- deref self ;;
         match split1 dot name with
         | Some (head, tail) =>
             child <- getitem (_modules me) head ;;
             get_module_input depth' child tail
         | None =>
             match dict_get (inputs me) name with
             | Some port => ret port
             | None =>
                 match dict_get (_modules me) name with
                 | Some child => get_module_input depth' child "default"
                 | None =>
                     match rsplit1 underscore name with
                     | Some (head, tail) =>
                         child <- getitem (_modules me) head ;;
                         inp <- get_module_input depth' child tail ;;
                         warn DeprecationWarning ;;
                         ret inp
                     | None => raise KeyError
                     end
                 end
             end
         end)
        (raise (SpaModuleError (NoModuleInput name)))
  end.

Fixpoint get_module_output (depth : nat) (self : loc) (name : string) : M Port :=
  match depth with
  | O => raise RecursionError
  | S depth' =>
      except_KeyError
        (me <- deref self ;;
         match split1 dot name with
         | Some (head, tail) =>
             child <- getitem (_modules me) head ;;
             get_module_output depth' child tail
         | None =>
             match dict_get (outputs me) name with
             | Some port => ret port
             | None =>
                 match dict_get (_modules me) name with
                 | Some child => get_module_output depth' child "default"
                 | None =>
                     match rsplit1 underscore name with
                     | Some (head, tail) =>
                         child <- getitem (_modules me) head ;;
                         out <- get_module_output depth' child tail ;;
                         warn DeprecationWarning ;;
                         ret out
                     | None => raise KeyError
                     end
                 end
             end
         end)
        (raise (SpaModuleError (NoModuleOutput name)))
  end.

(** [get_input_vocab] and [get_output_vocab] are ordinary calls of their
    own, so the resolution they start has one level of depth less. *)
Definition get_input_vocab (depth : nat) (self : loc) (name : string) : M Binding :=
  match depth with
  | O => raise RecursionError
  | S depth' => port <- get_module_input depth' self name ;; ret (snd port)
  end.

Definition get_output_vocab (depth : nat) (self : loc) (name : string) : M Binding :=
  match depth with
  | O => raise RecursionError
  | S depth' => port <- get_module_output depth' self name ;; ret (snd port)
  end.

(** The name a port of a child is listed under. *)
Definition listed_name (name port : string) : string :=
  if String.eqb port "default" then name
  else String.append name (String.append "_" port).

(** [get_module_inputs] and [get_module_outputs] are generators; the list
    is what they yield when run to the end against the store [st]. *)
Definition get_module_inputs (st : State) (self : loc) : list string :=
  flat_map
    (fun '(name, module) =>
       map (listed_name name) (dict_keys (inputs (heap st module))))
    (_modules (heap st self)).

Definition get_module_outputs (st : State) (self : loc) : list string :=
  flat_map
    (fun '(name, module) =>
       map (listed_name name) (dict_keys (outputs (heap st module))))
    (_modules (heap st self)).

(** ** VocabularyMap *)

(** Modelled from the spec: [VocabularyMap.get_or_create] lives in
    [nengo.spa.vocab], outside this file.  A dimension that is not positive
    is refused; a dimension the map already has a vocabulary for yields
    that vocabulary and changes nothing; otherwise a new vocabulary is
    created and stored under the dimension. *)
Definition get_or_create (vm : vloc) (d : Z) : M handle :=
  fun st =>
    if (d <=? 0)%Z then (Raise InvalidDimensionError, st)
    else
      match vmaps st vm !! d with
      | Some h => (Ok h, st)
      | None =>
          let h := next_vocab st in
          (Ok h,
           mkState (heap st)
                   (fun v => if Nat.eqb v vm then <[d := h]> (vmaps st v)
                             else vmaps st v)
                   (S h) (warnings st))
      end.

(** ** Registration and scope exit *)

Definition with_label (l : option string) (m : ModuleRec) : ModuleRec :=
  mkModule l (attrs m) (_modules m) (inputs m) (outputs m) (vocabs m) (networks m).
Definition with_attrs (a : gmap string Value) (m : ModuleRec) : ModuleRec :=
  mkModule (label m) a (_modules m) (inputs m) (outputs m) (vocabs m) (networks m).
Definition with_modules (d : dict loc) (m : ModuleRec) : ModuleRec :=
  mkModule (label m) (attrs m) d (inputs m) (outputs m) (vocabs m) (networks m).
Definition with_inputs (d : dict Port) (m : ModuleRec) : ModuleRec :=
  mkModule (label m) (attrs m) (_modules m) d (outputs m) (vocabs m) (networks m).
Definition with_outputs (d : dict Port) (m : ModuleRec) : ModuleRec :=
  mkModule (label m) (attrs m) (_modules m) (inputs m) d (vocabs m) (networks m).

Definition with_vocabs (v : vloc) (m : ModuleRec) : ModuleRec :=
  mkModule (label m) (attrs m) (_modules m) (inputs m) (outputs m) v (networks m).
Definition with_networks (l : list NetRef) (m : ModuleRec) : ModuleRec :=
  mkModule (label m) (attrs m) (_modules m) (inputs m) (outputs m) (vocabs m) l.

(** The names of the six typed attributes. *)
Definition is_field (key : string) : bool :=
  existsb (String.eqb key)
          ["label"; "_modules"; "inputs"; "outputs"; "vocabs"; "networks"].

(** The names under which Python keeps the instance dictionary and the
    class of an object. *)
Definition is_special (key : string) : bool :=
  existsb (String.eqb key) ["__dict__"; "__class__"].

(** What assigning [value] to the attribute [key] does to the record, when
    [key] is one of the six typed attributes and [value] is of its kind:
    the attribute is replaced. *)
Definition field_write (key : string) (value : Value)
    : option (ModuleRec -> ModuleRec) :=
  if String.eqb key "label" then
    match value with
    | VNone => Some (with_label None)
    | VStr s => Some (with_label (Some s))
    | _ => None
    end
  else if String.eqb key "_modules" then
    match value with VRegistry d => Some (with_modules d) | _ => None end
  else if String.eqb key "inputs" then
    match value with VPorts d => Some (with_inputs d) | _ => None end
  else if String.eqb key "outputs" then
    match value with VPorts d => Some (with_outputs d) | _ => None end
  else if String.eqb key "vocabs" then
    match value with VVocabMap v => Some (with_vocabs v) | _ => None end
  else if String.eqb key "networks" then
    match value with VNetworks l => Some (with_networks l) | _ => None end
  else None.

(** One of the two port dicts of a module, as a field to read and write. *)
Record PortField : Type := mkPortField {
  rd : ModuleRec -> dict Port;
  wr : dict Port -> ModuleRec -> ModuleRec
}.
Definition inputs_field : PortField := mkPortField inputs with_inputs.
Definition outputs_field : PortField := mkPortField outputs with_outputs.

(** [net not in module_list], by identity. *)
Definition registered_in (module_list : list loc) (net : loc) : bool :=
  existsb (Nat.eqb net) module_list.

Section Registration.

(** [module.on_add(spa)]: the hook subclasses overload, chosen by the
    module it is called on. *)
Variable on_add : loc -> loc -> M unit.
(** [Config.default(type(self), key)]. *)
Variable config_default : string -> Outcome Value.
(** Whether the descriptor of attribute [key] accepts [value]. *)
Variable validate : string -> Value -> bool.
(** [rc.getboolean('exceptions', 'simplified')]. *)
Variable simplified : bool.
(** [nengo.Network.__exit__]. *)
Variable network_exit : loc -> option Exn -> M unit.

(** [super(Module, self).__setattr__(key, value)].  A value the descriptor
    of the attribute refuses raises [ValidationError].  Otherwise the
    attribute is stored: [label], [_modules], [inputs], [outputs],
    [vocabs] and [networks] are attributes like any other, so that
    [self._modules = {}] replaces the registry and [self.label = 'x'] the
    label; every other name goes to [attrs].  The store being typed, it
    has no place for a value of another kind under one of the six names,
    nor for a new instance dictionary or class: the model refuses these
    with [TypeError], where Python stores the value and raises [TypeError]
    when the attribute is next used for what it is. *)
Definition object_setattr (self : loc) (key : string) (value : Value) : M unit :=
  if validate key value
  then
    match field_write key value with
    | Some write => update self write
    | None =>
        if is_field key || is_special key then raise TypeError
        else update self (fun me => with_attrs (<[key := value]> (attrs me)) me)
    end
  else raise (ValidationError true).

(** The loop [for k, (obj, v) in iteritems(module.<field>)] of
    [__set_module], over the items still to visit. *)
Fixpoint resolve_ports (f : PortField) (self module : loc)
    (items : list (string * Port)) : M unit :=
  match items with
  | [] => ret tt
  | (k, (obj, v)) :: rest =>
      match v with
      | BInt d =>
          me <- deref self ;;
          voc <- get_or_create (vocabs me) d ;;
          update module (fun m => wr f (dict_set (rd f m) k (obj, BVocab voc)) m)
      | _ => ret tt
      end ;;
      resolve_ports f self module rest
  end.

Definition __set_module (self : loc) (key : string) (module : loc) : M unit :=
  m <- deref module ;;
  match label m with
  | None => update module (with_label (Some key))
  | Some _ => ret tt
  end ;;
  update self (fun me => with_modules (dict_set (_modules me) key module) me) ;;
  m <- deref module ;;
  resolve_ports inputs_field self module (inputs m) ;;
  m <- deref module ;;
  resolve_ports outputs_field self module (outputs m) ;;
  on_add module self.

Definition __setattr__ (self : loc) (key : string) (value : Value) : M unit :=
  me <- deref self ;;
  match attrs me !! key with
  | Some (VModule _) => raise (SpaModuleError (CannotReassign key value))
  | _ =>
      value <- match value with
               | VDefault => (fun st => (config_default key, st))
               | _ => ret value
               end ;;
      (if simplified
       then except_ValidationError (object_setattr self key value)
              (fun _ => raise (ValidationError false))
       else object_setattr self key value) ;;
      match value with
      | VModule module => __set_module self key module
      | _ => ret tt
      end
  end.

(** The loop [for net in self.networks] of [__exit__]. *)
Fixpoint check_networks (module_list : list loc) (nets : list NetRef)
    : M (option bool) :=
  match nets with
  | [] => ret None
  | NetModule net :: rest =>
      if negb (registered_in module_list net)
      then raise (SpaModuleError (NotSetAsAttribute net))
      else check_networks module_list rest
  | NetPlain _ :: rest => check_networks module_list rest
  end.

(** [__exit__(self, ex_type, ex_value, traceback)]: [ex] is the exception
    in flight, if any; the result is [Some false] for [return False] and
    [None] when the method runs off its end. *)
Definition __exit__ (self : loc) (ex : option Exn) : M (option bool) :=
  network_exit self ex ;;
  match ex with
  | Some _ => ret (Some false)
  | None =>
      me <- deref self ;;
      check_networks (dict_values (_modules me)) (networks me)
  end.

(** Leaving [with self: ...]: Python calls [__exit__]; an exception it
    raises replaces the one in flight, and unless it returns a true value
    the exception in flight goes on. *)
Definition close_scope (self : loc) (ex : option Exn) : M unit :=
  r <- __exit__ self ex ;;
  match ex, r with
  | Some e, Some true => ret tt
  | Some e, _ => raise e
  | None, _ => ret tt
  end.

End Registration.

(** [Module.on_add] as this class has it: a docstring and no statement. *)
Definition on_add_base : loc -> loc -> M unit := fun _ _ => ret tt.

(** ** Vocabulary of the statements *)

(** The whole store of modules and vocabulary maps is what it was: every
    module's label, attributes, child registry, inputs and outputs, and
    every vocabulary map. *)
Definition same_tree (st st' : State) : Prop :=
  heap st' = heap st /\ vmaps st' = vmaps st /\ next_vocab st' = next_vocab st.

(** A computation that leaves the store as it found it, whatever it
    returns or raises. *)
Definition frame {A} (m : M A) : Prop := forall st, same_tree st (snd (m st)).

(** A computation under which the property [I] of the store survives,
    whatever it returns or raises. *)
Definition keeps {A} (I : State -> Prop) (m : M A) : Prop :=
  forall st, I st -> I (snd (m st)).

(** A computation that, started where [J] holds, ends where [Q] holds
    whenever it returns. *)
Definition ensures {A} (J : State -> Prop) (m : M A) (Q : State -> Prop) : Prop :=
  forall st, J st -> forall a st', m st = (Ok a, st') -> Q st'.

(** What the underscore form makes of the result of the child: the same
    result, with a deprecation warning emitted when the child returned. *)
Definition then_warn {A} (r : Outcome A * State) : Outcome A * State :=
  match r with
  | (Ok a, st) => (Ok a, snd (warn DeprecationWarning st))
  | (Raise e, st) => (Raise e, st)
  end.

(** Where a failing resolution of [name] on [P] misses in the call on [P]
    itself: the head of a dotted path is not a child of [P], or a path of
    one segment matches no port and no child of [P] and has no underscore
    form either. *)
Definition misses_head (st : State) (P : loc) (name : string) : Prop :=
  exists head tail,
    split1 dot name = Some (head, tail) /\
    dict_get (_modules (heap st P)) head = None.

Definition misses_leaf (ports : ModuleRec -> dict Port)
    (st : State) (P : loc) (name : string) : Prop :=
  split1 dot name = None /\
  dict_get (ports (heap st P)) name = None /\
  dict_get (_modules (heap st P)) name = None /\
  forall head tail,
    rsplit1 underscore name = Some (head, tail) ->
    dict_get (_modules (heap st P)) head = None.

(** The lookup of a port misses in the call on [Q] asked for [name]. *)
Definition misses_port (ports : ModuleRec -> dict Port)
    (st : State) (Q : loc) (name : string) : Prop :=
  misses_head st Q name \/ misses_leaf ports st Q name.

(** The lookup of a module misses in the call on [Q] asked for [name]: the
    head of a dotted path is not a child of [Q], or a path of one segment
    is no child of [Q] and, with [strip_output], no port of [Q] either. *)
Definition misses_module (st : State) (Q : loc) (name : string) (strip : bool)
  : Prop :=
  misses_head st Q name \/
  (split1 dot name = None /\
   dict_get (_modules (heap st Q)) name = None /\
   strip && (dict_mem (inputs (heap st Q)) name
             || dict_mem (outputs (heap st Q)) name) = false).

(** The calls a resolution makes.  [asks_module st k P name Q name']:
    resolving the module [name] on [P] comes, [k] nested calls down, to the
    call on [Q] with the path [name']; each nested call is on the child
    registered under the head of the path, with the rest of the path. *)
Inductive asks_module (st : State) : nat -> loc -> string -> loc -> string -> Prop :=
  | asks_module_here P name : asks_module st 0 P name P name
  | asks_module_dotted k P name head tail child Q name' :
      split1 dot name = Some (head, tail) ->
      dict_get (_modules (heap st P)) head = Some child ->
      asks_module st k child tail Q name' ->
      asks_module st (S k) P name Q name'.

(** The same for a port, of the inputs or of the outputs: a nested call is
    on the child under the head of a dotted path with the rest of the path,
    on the child of that very name with the path ["default"], or on the
    child under the head of the underscore form with its tail; the last two
    only when what comes before them in the method did not match. *)
Inductive asks_port (ports : ModuleRec -> dict Port) (st : State)
  : nat -> loc -> string -> loc -> string -> Prop :=
  | asks_port_here P name : asks_port ports st 0 P name P name
  | asks_port_dotted k P name head tail child Q name' :
      split1 dot name = Some (head, tail) ->
      dict_get (_modules (heap st P)) head = Some child ->
      asks_port ports st k child tail Q name' ->
      asks_port ports st (S k) P name Q name'
  | asks_port_default k P name child Q name' :
      split1 dot name = None ->
      dict_get (ports (heap st P)) name = None ->
      dict_get (_modules (heap st P)) name = Some child ->
      asks_port ports st k child "default" Q name' ->
      asks_port ports st (S k) P name Q name'
  | asks_port_underscore k P name head tail child Q name' :
      split1 dot name = None ->
      dict_get (ports (heap st P)) name = None ->
      dict_get (_modules (heap st P)) name = None ->
      rsplit1 underscore name = Some (head, tail) ->
      dict_get (_modules (heap st P)) head = Some child ->
      asks_port ports st k child tail Q name' ->
      asks_port ports st (S k) P name Q name'.

(** A port as registration leaves it, given the vocabulary map [vm] of the
    parent: an integer dimension becomes the vocabulary [vm] has for it,
    anything else stays. *)
Definition upgrade (vm : gmap Z handle) (item : string * Port) : string * Port :=
  match item with
  | (k, (obj, BInt d)) =>
      match vm !! d with
      | Some voc => (k, (obj, BVocab voc))
      | None => item
      end
  | _ => item
  end.

(** The integer dimensions among the ports [items] are all positive. *)
Definition positive_dims (items : dict Port) : Prop :=
  forall k obj d, In (k, (obj, BInt d)) items -> (0 < d)%Z.

(** A port field behaves as a field: what is written is read back, writing
    twice is writing the last, writing what is there changes nothing, and
    no other attribute of the module is touched. *)
Record lawful (f : PortField) : Prop := mkLawful {
  rd_wr : forall d m, rd f (wr f d m) = d;
  wr_wr : forall d d' m, wr f d (wr f d' m) = wr f d m;
  wr_rd : forall m, wr f (rd f m) m = m;
  wr_label : forall d m, label (wr f d m) = label m;
  wr_attrs : forall d m, attrs (wr f d m) = attrs m;
  wr_modules : forall d m, _modules (wr f d m) = _modules m;
  wr_vocabs : forall d m, vocabs (wr f d m) = vocabs m;
  wr_networks : forall d m, networks (wr f d m) = networks m
}.

(** [m] is set as the attribute [n] of [P] and is its child of that name. *)
Definition registered (st : State) (P : loc) (n : string) (m : loc) : Prop :=
  attrs (heap st P) !! n = Some (VModule m) /\
  dict_get (_modules (heap st P)) n = Some m.

(** An assignment that replaces no registry as a whole, nor the instance
    dictionary or the class of a module. *)
Definition leaves_registries (a : loc * string * Value) : Prop :=
  let '(_, key, _) := a in key <> "_modules" /\ is_special key = false.

(** A series of attribute assignments, each run on the store the one before
    it left, whether it returned or raised. *)
Definition run_assignments
    (on_add : loc -> loc -> M unit) (config_default : string -> Outcome Value)
    (validate : string -> Value -> bool) (simplified : bool)
    (later : list (loc * string * Value)) (st : State) : State :=
  fold_left
    (fun st '(self, key, value) =>
       snd (__setattr__ on_add config_default validate simplified self key value st))
    later st.

(** ** Hooks and sample stores *)

(** An exit of the base network that finds its context in order. *)
Definition network_exit_plain : loc -> option Exn -> M unit := fun _ _ => ret tt.

(** The hooks of a plain setting: nothing is configured, every value is
    accepted, errors are reported in their simplified form. *)
Definition config_default_none : string -> Outcome Value := fun _ => Ok (VOther 0).
Definition validate_all : string -> Value -> bool := fun _ _ => true.

Definition empty_module : ModuleRec := mkModule None ∅ [] [] [] 0 [].

Definition store_of (mods : list ModuleRec) : State :=
  mkState (fun l => nth l mods empty_module) (fun _ => ∅) 0 [].

(** [A] (at 0) has the child [B] (at 1); [B] has the ports [X] and [default]. *)
Definition sample_AB : State :=
  store_of
    [ mkModule (Some "A") {[ "B" := VModule 1 ]} [("B", 1)] [] [] 0 [NetModule 1];
      mkModule (Some "B") ∅ []
               [("default", (10, BVocab 0)); ("X", (11, BVocab 1))]
               [("default", (12, BVocab 0)); ("X", (13, BVocab 1))] 0 [] ].

(** [A] (at 0) has the child [M] (at 1), whose only output is [default]. *)
Definition sample_AM : State :=
  store_of
    [ mkModule (Some "A") {[ "M" := VModule 1 ]} [("M", 1)] [] [] 0 [NetModule 1];
      mkModule (Some "M") ∅ [] [] [("default", (12, BVocab 0))] 0 [] ].

(** The same, where [A] also has an output port of its own called
    [M_default]. *)
Definition sample_own_port : State :=
  store_of
    [ mkModule (Some "A") {[ "M" := VModule 1 ]} [("M", 1)] []
               [("M_default", (20, BVocab 5))] 0 [NetModule 1];
      mkModule (Some "M") ∅ [] [] [("default", (12, BVocab 0))] 0 [] ].

(** A module (at 0) with a port whose name is the empty string. *)
Definition sample_blank_port : State :=
  store_of [ mkModule (Some "P") ∅ [] [("", (30, BVocab 0))] [] 0 [] ].

(** [P] (at 0) with the children [m1] (at 1) and [m2] (at 2), registered in
    that order. *)
Definition sample_listing : State :=
  store_of
    [ mkModule (Some "P") {[ "m1" := VModule 1; "m2" := VModule 2 ]}
               [("m1", 1); ("m2", 2)] [] [] 0 [NetModule 1; NetModule 2];
      mkModule (Some "m1") ∅ [] [("default", (10, BVocab 0))] [] 0 [];
      mkModule (Some "m2") ∅ [] [("a", (11, BVocab 0)); ("b", (12, BVocab 0))] [] 0 [] ].

(** [P] (at 0) nests the modules at 1 and 2 and a plain network; only the
    module at 1 was set as an attribute. *)
Definition sample_unregistered : State :=
  store_of
    [ mkModule (Some "P") {[ "a" := VModule 1 ]} [("a", 1)] [] [] 0
               [NetModule 1; NetPlain 7; NetModule 2];
      mkModule (Some "a") ∅ [] [] [] 0 [];
      mkModule None ∅ [] [] [] 0 [] ].

(** [P] (at 0) with the vocabulary map 1, which has a vocabulary for the
    dimension 16; the module at 1, not yet registered, has the vocabulary
    map 2 and ports that carry the dimensions 16 and 32. *)
Definition sample_unresolved : State :=
  mkState
    (fun l => nth l
       [ mkModule (Some "P") ∅ [] [] [] 1 [NetModule 1];
         mkModule None ∅ []
                  [("default", (10, BInt 16)); ("aux", (11, BNone))]
                  [("default", (12, BInt 32)); ("raw", (13, BVocab 7))] 2 [] ]
       empty_module)
    (fun V => if Nat.eqb V 1 then {[ 16%Z := 100 ]} else ∅)
    101 [].

(** ** Paths along the registry *)

(** The names [names], then [last], joined by dots. *)
Fixpoint dotted (names : list string) (last : string) : string :=
  match names with
  | [] => last
  | n :: rest => String.append n (String.append "." (dotted rest last))
  end.

(** From [P], taking the children registered under [names] one after the
    other, one arrives at [Q]; none of the names has a dot. *)
Fixpoint follows (st : State) (P : loc) (names : list string) (Q : loc) : Prop :=
  match names with
  | [] => P = Q
  | n :: rest =>
      contains dot n = false /\
      exists c, dict_get (_modules (heap st P)) n = Some c /\ follows st c rest Q
  end.

(** [Q] is [P] or one of the modules below it in the registries. *)
Inductive descends (st : State) : loc -> loc -> Prop :=
  | descends_here P : descends st P P
  | descends_child P n c Q :
      dict_get (_modules (heap st P)) n = Some c ->
      descends st c Q -> descends st P Q.

(** The number of occurrences of [sep] in [s]. *)
Fixpoint count (sep : ascii) (s : string) : nat :=
  match s with
  | EmptyString => 0
  | String c s' => (if Ascii.eqb c sep then 1 else 0) + count sep s'
  end.

(** No module has a child registered under the name [default]. *)
Definition no_default_child (st : State) : Prop :=
  forall l, dict_get (_modules (heap st l)) "default" = None.

(** None of the ports [items] carries an integer dimension. *)
Definition all_resolved (items : dict Port) : Prop :=
  forall k obj d, ~ In (k, (obj, BInt d)) items.

(** The binding a port has after registration under the map [vm]. *)
Definition upgraded (vm : gmap Z handle) (port : Port) : Port :=
  snd (upgrade vm (EmptyString, port)).

(** ** What registration may change *)

(** Between [st] and [st'] nothing has changed but the two port dicts of
    the module [v] and the vocabulary map [V], which has kept what it
    held. *)
Record only_ports_of (v : loc) (V : vloc) (st st' : State) : Prop := mkOnlyPorts {
  op_others : forall l, l <> v -> heap st' l = heap st l;
  op_label : label (heap st' v) = label (heap st v);
  op_attrs : attrs (heap st' v) = attrs (heap st v);
  op_modules : _modules (heap st' v) = _modules (heap st v);
  op_vocabs : vocabs (heap st' v) = vocabs (heap st v);
  op_networks : networks (heap st' v) = networks (heap st v);
  op_vmaps : forall V', V' <> V -> vmaps st' V' = vmaps st V';
  op_kept : forall d voc, vmaps st V !! d = Some voc -> vmaps st' V !! d = Some voc;
  op_warnings : warnings st' = warnings st
}.

(** Between [st] and [st'] nothing has changed but what registering [v] on
    [P] under [key] is there to change: the registry entry [key] of [P],
    the label and the ports of [v], and the vocabulary map of [P], which
    has kept what it held. *)
Record registration_frame (P : loc) (key : string) (v : loc) (st st' : State)
  : Prop := mkRegistrationFrame {
  rf_entry : dict_get (_modules (heap st' P)) key = Some v;
  rf_entries : forall k, k <> key ->
               dict_get (_modules (heap st' P)) k = dict_get (_modules (heap st P)) k;
  rf_registries : forall l, l <> P -> _modules (heap st' l) = _modules (heap st l);
  rf_attrs : forall l, attrs (heap st' l) = attrs (heap st l);
  rf_vocabs : forall l, vocabs (heap st' l) = vocabs (heap st l);
  rf_networks : forall l, networks (heap st' l) = networks (heap st l);
  rf_label : forall l, l <> v -> label (heap st' l) = label (heap st l);
  rf_inputs : forall l, l <> v -> inputs (heap st' l) = inputs (heap st l);
  rf_outputs : forall l, l <> v -> outputs (heap st' l) = outputs (heap st l);
  rf_vmaps : forall V, V <> vocabs (heap st P) -> vmaps st' V = vmaps st V;
  rf_kept : forall d voc,
      vmaps st (vocabs (heap st P)) !! d = Some voc ->
      vmaps st' (vocabs (heap st P)) !! d = Some voc;
  rf_warnings : warnings st' = warnings st
}.

(** The store after the first two statements of [__set_module]: the label
    of [module] set if it had none, and [module] entered in the registry
    of [self]. *)
Definition entered (self : loc) (key : string) (module : loc) (st : State) : State :=
  let st_a :=
    match label (heap st module) with
    | None => snd (update module (with_label (Some key)) st)
    | Some _ => st
    end in
  snd (update self (fun me => with_modules (dict_set (_modules me) key module) me) st_a).

(** The ports of [v] are as a module declares them: distinct names on
    each side, and positive dimensions. *)
Definition declared_ports (st : State) (v : loc) : Prop :=
  dict_wf (inputs (heap st v)) /\ dict_wf (outputs (heap st v)) /\
  positive_dims (inputs (heap st v)) /\ positive_dims (outputs (heap st v)).

(** ** More sample stores *)

(** [P] (at 0) has the child [a] (at 1), which has the child [b] (at 2);
    [b] has the port [x] on both sides. *)
Definition sample_deep : State :=
  store_of
    [ mkModule (Some "P") {[ "a" := VModule 1 ]} [("a", 1)] [] [] 0 [NetModule 1];
      mkModule (Some "a") {[ "b" := VModule 2 ]} [("b", 2)] [] [] 0 [NetModule 2];
      mkModule (Some "b") ∅ [] [("x", (10, BVocab 0))] [("x", (11, BVocab 0))] 0 [] ].

(** A module (at 0) registered on itself under the name [default], with no
    port of that name. *)
Definition sample_cycle : State :=
  store_of
    [ mkModule (Some "P") {[ "default" := VModule 0 ]} [("default", 0)] [] [] 0 [] ].

(** [P] (at 0) with the empty vocabulary map 1, and two modules (at 1 and
    2), not yet registered, whose ports both ask for the dimension 16. *)
Definition sample_siblings : State :=
  mkState
    (fun l => nth l
       [ mkModule (Some "P") ∅ [] [] [] 1 [];
         mkModule None ∅ [] [("default", (10, BInt 16))] [] 2 [];
         mkModule None ∅ [] [("in", (11, BInt 16))] [("out", (12, BInt 8))] 3 [] ]
       empty_module)
    (fun _ => ∅) 0 [].

(** [P] (at 0) nests the modules at 1 and 2 and a plain network, and has
    set both modules as attributes. *)
Definition sample_all_registered : State :=
  store_of
    [ mkModule (Some "P") {[ "a" := VModule 1; "b" := VModule 2 ]}
               [("a", 1); ("b", 2)] [] [] 0
               [NetModule 1; NetPlain 7; NetModule 2];
      mkModule (Some "a") ∅ [] [] [] 0 [];
      mkModule (Some "b") ∅ [] [] [] 0 [] ].

(** * Properties *)

(** ** Splitting *)

Lemma split1_None sep s : split1 sep s = None <-> contains sep s = false.
Proof.
  induction s as [|c s IH]; simpl; [tauto|].
  destruct (Ascii.eqb c sep); simpl; [split; discriminate|].
  destruct (split1 sep s) as [[h t]|]; split; intros H;
    try discriminate; try reflexivity; try (apply IH; assumption).
  apply IH in H. discriminate.
Qed.

Lemma split1_Some sep s h t :
  split1 sep s = Some (h, t) ->
  s = String.append h (String sep t) /\ contains sep h = false.
Proof.
  revert h; induction s as [|c s IH]; simpl; intros h H; [discriminate|].
  destruct (Ascii.eqb c sep) eqn:E.
  - apply Ascii.eqb_eq in E. inversion H; subst. auto.
  - destruct (split1 sep s) as [[h' t']|]; [|discriminate].
    inversion H; subst. destruct (IH h' eq_refl) as [-> Hh].
    simpl. rewrite E, Hh. auto.
Qed.

Lemma split1_app sep h t :
  contains sep h = false -> split1 sep (String.append h (String sep t)) = Some (h, t).
Proof.
  induction h as [|c h IH]; simpl; intros H.
  - rewrite Ascii.eqb_refl. reflexivity.
  - apply orb_false_iff in H as [Hc Hh]. rewrite Hc, (IH Hh). reflexivity.
Qed.

Lemma rsplit1_None sep s : rsplit1 sep s = None <-> contains sep s = false.
Proof.
  induction s as [|c s IH]; simpl; [tauto|].
  destruct (rsplit1 sep s) as [[h t]|].
  - split; [discriminate|]. intros H. apply orb_false_iff in H as [_ H].
    apply IH in H. discriminate.
  - destruct IH as [IH _]. rewrite (IH eq_refl), orb_false_r.
    destruct (Ascii.eqb c sep); split; intros H; try discriminate; reflexivity.
Qed.

Lemma rsplit1_Some sep s h t :
  rsplit1 sep s = Some (h, t) ->
  s = String.append h (String sep t) /\ contains sep t = false.
Proof.
  revert h; induction s as [|c s IH]; simpl; intros h H; [discriminate|].
  destruct (rsplit1 sep s) as [[h' t']|] eqn:E.
  - inversion H; subst. destruct (IH h' eq_refl) as [-> Ht]. auto.
  - destruct (Ascii.eqb c sep) eqn:Ec; [|discriminate].
    apply Ascii.eqb_eq in Ec. inversion H; subst.
    split; [reflexivity|]. apply rsplit1_None. assumption.
Qed.

Lemma rsplit1_app sep h t :
  contains sep t = false -> rsplit1 sep (String.append h (String sep t)) = Some (h, t).
Proof.
  intros Ht. induction h as [|c h IH]; simpl.
  - apply rsplit1_None in Ht. rewrite Ht, Ascii.eqb_refl. reflexivity.
  - rewrite IH. reflexivity.
Qed.

Lemma contains_app sep a b :
  contains sep (String.append a b) = contains sep a || contains sep b.
Proof.
  induction a as [|c a IH]; simpl; [reflexivity|].
  rewrite IH, orb_assoc. reflexivity.
Qed.

Lemma append_assoc (a b c : string) :
  String.append (String.append a b) c = String.append a (String.append b c).
Proof.
  induction a as [|x a IH]; [reflexivity|].
  change (String x (String.append (String.append a b) c)
          = String x (String.append a (String.append b c))).
  rewrite IH. reflexivity.
Qed.

Lemma is_suffix_refl s : is_suffix s s.
Proof. exists EmptyString. reflexivity. Qed.

Lemma is_suffix_trans a b c : is_suffix a b -> is_suffix b c -> is_suffix a c.
Proof.
  intros [p ->] [q ->]. exists (String.append q p). symmetry. apply append_assoc.
Qed.

Lemma is_suffix_tail h c t : is_suffix t (String.append h (String c t)).
Proof.
  exists (String.append h (String c EmptyString)). rewrite append_assoc. reflexivity.
Qed.

Lemma split1_suffix sep s h t : split1 sep s = Some (h, t) -> is_suffix t s.
Proof. intros H. apply split1_Some in H as [-> _]. apply is_suffix_tail. Qed.

Lemma rsplit1_suffix sep s h t : rsplit1 sep s = Some (h, t) -> is_suffix t s.
Proof. intros H. apply rsplit1_Some in H as [-> _]. apply is_suffix_tail. Qed.

(** ** Dictionaries *)

Lemma dict_get_set_eq {V} (d : dict V) k v : dict_get (dict_set d k v) k = Some v.
Proof.
  induction d as [|[k' v'] d IH]; simpl.
  - rewrite String.eqb_refl. reflexivity.
  - destruct (String.eqb k' k) eqn:E; simpl; rewrite E; auto.
Qed.

Lemma dict_get_set_ne {V} (d : dict V) k k' v :
  k <> k' -> dict_get (dict_set d k v) k' = dict_get d k'.
Proof.
  intros Hne. induction d as [|[k0 v0] d IH]; simpl.
  - destruct (String.eqb k k') eqn:E; [apply String.eqb_eq in E; contradiction|reflexivity].
  - destruct (String.eqb k0 k) eqn:E; simpl.
    + apply String.eqb_eq in E; subst.
      destruct (String.eqb k k') eqn:E'; [apply String.eqb_eq in E'; contradiction|reflexivity].
    + rewrite IH. reflexivity.
Qed.

(** ** The monad: exceptions caught and passed on *)

Lemma get_module_no_KeyError depth self name strip st :
  fst (get_module depth self name strip st) <> Raise KeyError.
Proof.
  destruct depth; simpl; [discriminate|]. unfold except_KeyError.
  match goal with |- context [match ?b with _ => _ end] => destruct b as [[a|e] st'] end;
    simpl; [discriminate|]. destruct e; discriminate.
Qed.

Lemma get_module_input_no_KeyError depth self name st :
  fst (get_module_input depth self name st) <> Raise KeyError.
Proof.
  destruct depth; simpl; [discriminate|]. unfold except_KeyError.
  match goal with |- context [match ?b with _ => _ end] => destruct b as [[a|e] st'] end;
    simpl; [discriminate|]. destruct e; discriminate.
Qed.

Lemma get_module_output_no_KeyError depth self name st :
  fst (get_module_output depth self name st) <> Raise KeyError.
Proof.
  destruct depth; simpl; [discriminate|]. unfold except_KeyError.
  match goal with |- context [match ?b with _ => _ end] => destruct b as [[a|e] st'] end;
    simpl; [discriminate|]. destruct e; discriminate.
Qed.

(** ** Resolution reads the store and never writes it *)

Lemma same_tree_refl st : same_tree st st.
Proof. repeat split. Qed.

Lemma same_tree_trans st1 st2 st3 :
  same_tree st1 st2 -> same_tree st2 st3 -> same_tree st1 st3.
Proof.
  intros (H1 & H2 & H3) (K1 & K2 & K3). repeat split; congruence.
Qed.

Lemma frame_ret {A} (a : A) : frame (ret a).
Proof. intros st. apply same_tree_refl. Qed.

Lemma frame_raise {A} e : frame (@raise A e).
Proof. intros st. apply same_tree_refl. Qed.

Lemma frame_deref l : frame (deref l).
Proof. intros st. apply same_tree_refl. Qed.

Lemma frame_warn w : frame (warn w).
Proof. intros st. repeat split. Qed.

Lemma frame_getitem {V} (d : dict V) k : frame (getitem d k).
Proof. unfold getitem. destruct (dict_get d k); [apply frame_ret|apply frame_raise]. Qed.

Lemma frame_bind {A B} (m : M A) (k : A -> M B) :
  frame m -> (forall a, frame (k a)) -> frame (bind m k).
Proof.
  intros Hm Hk st. unfold bind. specialize (Hm st).
  destruct (m st) as [[a|e] st']; simpl in *; [|assumption].
  eapply same_tree_trans; [eassumption|]. apply Hk.
Qed.

Lemma frame_except_KeyError {A} (body handler : M A) :
  frame body -> frame handler -> frame (except_KeyError body handler).
Proof.
  intros Hb Hh st. unfold except_KeyError. specialize (Hb st).
  destruct (body st) as [[a|e] st']; simpl in *; [assumption|].
  destruct e; simpl; try assumption.
  eapply same_tree_trans; [eassumption|]. apply Hh.
Qed.

Ltac frame_step :=
  first
    [ apply frame_ret | apply frame_raise | apply frame_deref
    | apply frame_warn | apply frame_getitem
    | apply frame_except_KeyError
    | apply frame_bind; [|intros ?]
    | match goal with
      | |- frame (match ?x with _ => _ end) => destruct x
      | |- frame (if ?b then _ else _) => destruct b
      | |- frame (let '(_, _) := ?x in _) => destruct x
      end ].

Lemma get_module_frame depth :
  forall self name strip, frame (get_module depth self name strip).
Proof.
  induction depth as [|depth IH]; intros self name strip; simpl;
    repeat (first [apply IH | frame_step]).
Qed.

Lemma get_module_input_frame depth :
  forall self name, frame (get_module_input depth self name).
Proof.
  induction depth as [|depth IH]; intros self name; simpl;
    repeat (first [apply IH | frame_step]).
Qed.

Lemma get_module_output_frame depth :
  forall self name, frame (get_module_output depth self name).
Proof.
  induction depth as [|depth IH]; intros self name; simpl;
    repeat (first [apply IH | frame_step]).
Qed.

Lemma get_input_vocab_frame depth self name : frame (get_input_vocab depth self name).
Proof.
  destruct depth; simpl; repeat (first [apply get_module_input_frame | frame_step]).
Qed.

Lemma get_output_vocab_frame depth self name : frame (get_output_vocab depth self name).
Proof.
  destruct depth; simpl; repeat (first [apply get_module_output_frame | frame_step]).
Qed.

(** C9. The resolution operations [get_module], [get_module_input],
    [get_module_output], [get_input_vocab] and [get_output_vocab] never
    change any module's child registry, inputs, outputs, label or
    vocabulary map: whether they return or raise, the store of modules and
    the store of vocabulary maps after the call are those before it. *)
Theorem resolution_never_mutates depth (P : loc) (name : string) (strip : bool) st :
  same_tree st (snd (get_module depth P name strip st)) /\
  same_tree st (snd (get_module_input depth P name st)) /\
  same_tree st (snd (get_module_output depth P name st)) /\
  same_tree st (snd (get_input_vocab depth P name st)) /\
  same_tree st (snd (get_output_vocab depth P name st)).
Proof.
  repeat split.
  all: first [ apply get_module_frame | apply get_module_input_frame
             | apply get_module_output_frame | apply get_input_vocab_frame
             | apply get_output_vocab_frame ].
Qed.

(** ** One step of resolution *)

Ltac run_step :=
  cbn [get_module get_module_input get_module_output];
  unfold except_KeyError, bind, deref, getitem, ret, raise, dict_mem; cbn beta iota.

Lemma get_module_input_dotted depth self name head tail child st :
  split1 dot name = Some (head, tail) ->
  dict_get (_modules (heap st self)) head = Some child ->
  get_module_input (S depth) self name st = get_module_input depth child tail st.
Proof.
  intros Hs Hg. run_step. rewrite Hs, Hg.
  pose proof (get_module_input_no_KeyError depth child tail st) as H.
  destruct (get_module_input depth child tail st) as [[?|[]] ?]; cbn in H |- *;
    try reflexivity. contradiction H; reflexivity.
Qed.

Lemma get_module_output_dotted depth self name head tail child st :
  split1 dot name = Some (head, tail) ->
  dict_get (_modules (heap st self)) head = Some child ->
  get_module_output (S depth) self name st = get_module_output depth child tail st.
Proof.
  intros Hs Hg. run_step. rewrite Hs, Hg.
  pose proof (get_module_output_no_KeyError depth child tail st) as H.
  destruct (get_module_output depth child tail st) as [[?|[]] ?]; cbn in H |- *;
    try reflexivity. contradiction H; reflexivity.
Qed.

Lemma get_module_dotted depth self name head tail child strip st :
  split1 dot name = Some (head, tail) ->
  dict_get (_modules (heap st self)) head = Some child ->
  get_module (S depth) self name strip st = get_module depth child tail strip st.
Proof.
  intros Hs Hg. run_step. rewrite Hs, Hg.
  pose proof (get_module_no_KeyError depth child tail strip st) as H.
  destruct (get_module depth child tail strip st) as [[?|[]] ?]; cbn in H |- *;
    try reflexivity. contradiction H; reflexivity.
Qed.

(** A path whose head is not a child: the error names the path. *)
Lemma get_module_input_dotted_miss depth self name head tail st :
  split1 dot name = Some (head, tail) ->
  dict_get (_modules (heap st self)) head = None ->
  get_module_input (S depth) self name st
  = (Raise (SpaModuleError (NoModuleInput name)), st).
Proof. intros Hs Hg. run_step. rewrite Hs, Hg. reflexivity. Qed.

Lemma get_module_output_dotted_miss depth self name head tail st :
  split1 dot name = Some (head, tail) ->
  dict_get (_modules (heap st self)) head = None ->
  get_module_output (S depth) self name st
  = (Raise (SpaModuleError (NoModuleOutput name)), st).
Proof. intros Hs Hg. run_step. rewrite Hs, Hg. reflexivity. Qed.

Lemma get_module_dotted_miss depth self name head tail strip st :
  split1 dot name = Some (head, tail) ->
  dict_get (_modules (heap st self)) head = None ->
  get_module (S depth) self name strip st
  = (Raise (SpaModuleError (NoModule name)), st).
Proof. intros Hs Hg. run_step. rewrite Hs, Hg. reflexivity. Qed.

(** An own port wins over everything else. *)
Lemma get_module_input_own depth self name port st :
  split1 dot name = None ->
  dict_get (inputs (heap st self)) name = Some port ->
  get_module_input (S depth) self name st = (Ok port, st).
Proof. intros Hs Hg. run_step. rewrite Hs, Hg. reflexivity. Qed.

Lemma get_module_output_own depth self name port st :
  split1 dot name = None ->
  dict_get (outputs (heap st self)) name = Some port ->
  get_module_output (S depth) self name st = (Ok port, st).
Proof. intros Hs Hg. run_step. rewrite Hs, Hg. reflexivity. Qed.

(** Then the bare name of a child, which stands for its port [default]. *)
Lemma get_module_input_child depth self name child st :
  split1 dot name = None ->
  dict_get (inputs (heap st self)) name = None ->
  dict_get (_modules (heap st self)) name = Some child ->
  get_module_input (S depth) self name st = get_module_input depth child "default" st.
Proof.
  intros Hs Hi Hg. run_step. rewrite Hs, Hi, Hg.
  pose proof (get_module_input_no_KeyError depth child "default" st) as H.
  destruct (get_module_input depth child "default" st) as [[?|[]] ?]; cbn in H |- *;
    try reflexivity. contradiction H; reflexivity.
Qed.

Lemma get_module_output_child depth self name child st :
  split1 dot name = None ->
  dict_get (outputs (heap st self)) name = None ->
  dict_get (_modules (heap st self)) name = Some child ->
  get_module_output (S depth) self name st = get_module_output depth child "default" st.
Proof.
  intros Hs Hi Hg. run_step. rewrite Hs, Hi, Hg.
  pose proof (get_module_output_no_KeyError depth child "default" st) as H.
  destruct (get_module_output depth child "default" st) as [[?|[]] ?]; cbn in H |- *;
    try reflexivity. contradiction H; reflexivity.
Qed.

(** Then the underscore form: the result of the child, and a warning when
    the child returns. *)
Lemma get_module_input_underscore depth self name head tail child st :
  split1 dot name = None ->
  dict_get (inputs (heap st self)) name = None ->
  dict_get (_modules (heap st self)) name = None ->
  rsplit1 underscore name = Some (head, tail) ->
  dict_get (_modules (heap st self)) head = Some child ->
  get_module_input (S depth) self name st
  = then_warn (get_module_input depth child tail st).
Proof.
  intros Hs Hi Hm Hr Hg. run_step. rewrite Hs, Hi, Hm, Hr, Hg.
  pose proof (get_module_input_no_KeyError depth child tail st) as H.
  destruct (get_module_input depth child tail st) as [[?|[]] ?]; cbn in H |- *;
    try reflexivity. contradiction H; reflexivity.
Qed.

Lemma get_module_output_underscore depth self name head tail child st :
  split1 dot name = None ->
  dict_get (outputs (heap st self)) name = None ->
  dict_get (_modules (heap st self)) name = None ->
  rsplit1 underscore name = Some (head, tail) ->
  dict_get (_modules (heap st self)) head = Some child ->
  get_module_output (S depth) self name st
  = then_warn (get_module_output depth child tail st).
Proof.
  intros Hs Hi Hm Hr Hg. run_step. rewrite Hs, Hi, Hm, Hr, Hg.
  pose proof (get_module_output_no_KeyError depth child tail st) as H.
  destruct (get_module_output depth child tail st) as [[?|[]] ?]; cbn in H |- *;
    try reflexivity. contradiction H; reflexivity.
Qed.

(** Nothing matches here: the error names the path. *)
Lemma get_module_input_miss depth self name st :
  split1 dot name = None ->
  dict_get (inputs (heap st self)) name = None ->
  dict_get (_modules (heap st self)) name = None ->
  match rsplit1 underscore name with
  | Some (head, _) => dict_get (_modules (heap st self)) head = None
  | None => True
  end ->
  get_module_input (S depth) self name st
  = (Raise (SpaModuleError (NoModuleInput name)), st).
Proof.
  intros Hs Hi Hm Hr. run_step. rewrite Hs, Hi, Hm.
  destruct (rsplit1 underscore name) as [[h t]|]; [rewrite Hr|]; reflexivity.
Qed.

Lemma get_module_output_miss depth self name st :
  split1 dot name = None ->
  dict_get (outputs (heap st self)) name = None ->
  dict_get (_modules (heap st self)) name = None ->
  match rsplit1 underscore name with
  | Some (head, _) => dict_get (_modules (heap st self)) head = None
  | None => True
  end ->
  get_module_output (S depth) self name st
  = (Raise (SpaModuleError (NoModuleOutput name)), st).
Proof.
  intros Hs Hi Hm Hr. run_step. rewrite Hs, Hi, Hm.
  destruct (rsplit1 underscore name) as [[h t]|]; [rewrite Hr|]; reflexivity.
Qed.

Lemma get_module_leaf depth self name strip st :
  split1 dot name = None ->
  get_module (S depth) self name strip st
  = match dict_get (_modules (heap st self)) name with
    | Some child => (Ok child, st)
    | None =>
        if strip && (dict_mem (inputs (heap st self)) name
                     || dict_mem (outputs (heap st self)) name)
        then (Ok self, st)
        else (Raise (SpaModuleError (NoModule name)), st)
    end.
Proof.
  intros Hs. run_step. rewrite Hs.
  destruct (dict_get (_modules (heap st self)) name); [reflexivity|].
  fold (dict_mem (inputs (heap st self)) name).
  fold (dict_mem (outputs (heap st self)) name).
  destruct (strip && _); reflexivity.
Qed.

(** ** More call depth changes nothing once there is enough *)

Lemma then_warn_RecursionError {A} (r : Outcome A * State) :
  fst (then_warn r) <> Raise RecursionError -> fst r <> Raise RecursionError.
Proof. destruct r as [[a|e] st]; simpl; [discriminate|auto]. Qed.

Lemma get_module_deeper depth :
  forall self name strip st,
    fst (get_module depth self name strip st) <> Raise RecursionError ->
    get_module (S depth) self name strip st = get_module depth self name strip st.
Proof.
  induction depth as [|depth IH]; intros self name strip st H.
  - contradiction H. reflexivity.
  - destruct (split1 dot name) as [[head tail]|] eqn:Hs.
    + destruct (dict_get (_modules (heap st self)) head) as [child|] eqn:Hg.
      * rewrite (get_module_dotted depth _ _ _ _ _ _ _ Hs Hg) in H.
        rewrite (get_module_dotted (S depth) _ _ _ _ _ _ _ Hs Hg), (get_module_dotted depth _ _ _ _ _ _ _ Hs Hg). auto.
      * rewrite !(get_module_dotted_miss _ _ _ _ _ _ _ Hs Hg). reflexivity.
    + rewrite !(get_module_leaf _ _ _ _ _ Hs). reflexivity.
Qed.

Lemma get_module_input_deeper depth :
  forall self name st,
    fst (get_module_input depth self name st) <> Raise RecursionError ->
    get_module_input (S depth) self name st = get_module_input depth self name st.
Proof.
  induction depth as [|depth IH]; intros self name st H.
  - contradiction H. reflexivity.
  - destruct (split1 dot name) as [[head tail]|] eqn:Hs.
    + destruct (dict_get (_modules (heap st self)) head) as [child|] eqn:Hg.
      * rewrite (get_module_input_dotted depth _ _ _ _ _ _ Hs Hg) in H.
        rewrite (get_module_input_dotted (S depth) _ _ _ _ _ _ Hs Hg), (get_module_input_dotted depth _ _ _ _ _ _ Hs Hg). auto.
      * rewrite !(get_module_input_dotted_miss _ _ _ _ _ _ Hs Hg). reflexivity.
    + destruct (dict_get (inputs (heap st self)) name) as [port|] eqn:Hi.
      { rewrite !(get_module_input_own _ _ _ _ _ Hs Hi). reflexivity. }
      destruct (dict_get (_modules (heap st self)) name) as [child|] eqn:Hm.
      { rewrite (get_module_input_child depth _ _ _ _ Hs Hi Hm) in H.
        rewrite (get_module_input_child (S depth) _ _ _ _ Hs Hi Hm), (get_module_input_child depth _ _ _ _ Hs Hi Hm). auto. }
      destruct (rsplit1 underscore name) as [[head tail]|] eqn:Hr.
      * destruct (dict_get (_modules (heap st self)) head) as [child|] eqn:Hg.
        -- rewrite (get_module_input_underscore depth _ _ _ _ _ _ Hs Hi Hm Hr Hg) in H.
        rewrite (get_module_input_underscore (S depth) _ _ _ _ _ _ Hs Hi Hm Hr Hg), (get_module_input_underscore depth _ _ _ _ _ _ Hs Hi Hm Hr Hg).
           apply then_warn_RecursionError in H. rewrite (IH _ _ _ H). reflexivity.
        -- rewrite !get_module_input_miss; try assumption; try reflexivity;
             rewrite Hr; assumption.
      * rewrite !get_module_input_miss; try assumption; try reflexivity;
          rewrite Hr; exact I.
Qed.

Lemma get_module_output_deeper depth :
  forall self name st,
    fst (get_module_output depth self name st) <> Raise RecursionError ->
    get_module_output (S depth) self name st = get_module_output depth self name st.
Proof.
  induction depth as [|depth IH]; intros self name st H.
  - contradiction H. reflexivity.
  - destruct (split1 dot name) as [[head tail]|] eqn:Hs.
    + destruct (dict_get (_modules (heap st self)) head) as [child|] eqn:Hg.
      * rewrite (get_module_output_dotted depth _ _ _ _ _ _ Hs Hg) in H.
        rewrite (get_module_output_dotted (S depth) _ _ _ _ _ _ Hs Hg), (get_module_output_dotted depth _ _ _ _ _ _ Hs Hg). auto.
      * rewrite !(get_module_output_dotted_miss _ _ _ _ _ _ Hs Hg). reflexivity.
    + destruct (dict_get (outputs (heap st self)) name) as [port|] eqn:Hi.
      { rewrite !(get_module_output_own _ _ _ _ _ Hs Hi). reflexivity. }
      destruct (dict_get (_modules (heap st self)) name) as [child|] eqn:Hm.
      { rewrite (get_module_output_child depth _ _ _ _ Hs Hi Hm) in H.
        rewrite (get_module_output_child (S depth) _ _ _ _ Hs Hi Hm), (get_module_output_child depth _ _ _ _ Hs Hi Hm). auto. }
      destruct (rsplit1 underscore name) as [[head tail]|] eqn:Hr.
      * destruct (dict_get (_modules (heap st self)) head) as [child|] eqn:Hg.
        -- rewrite (get_module_output_underscore depth _ _ _ _ _ _ Hs Hi Hm Hr Hg) in H.
        rewrite (get_module_output_underscore (S depth) _ _ _ _ _ _ Hs Hi Hm Hr Hg), (get_module_output_underscore depth _ _ _ _ _ _ Hs Hi Hm Hr Hg).
           apply then_warn_RecursionError in H. rewrite (IH _ _ _ H). reflexivity.
        -- rewrite !get_module_output_miss; try assumption; try reflexivity;
             rewrite Hr; assumption.
      * rewrite !get_module_output_miss; try assumption; try reflexivity;
          rewrite Hr; exact I.
Qed.

(** ** Dotted paths *)

(** C4. For a module [A] with a registered child [B] under a name [b]
    without a dot (such as ["B"]) and every port name [X]:
    [A.get_module_output("b.X")] is [B.get_module_output("X")], and
    [A.get_module_input("b.X")] is [B.get_module_input("X")]: the same
    pair, the same error, the same final state.  The call on [A] makes the
    call on [B] one level deeper; a call on [B] made at the depth of the
    call on [A] gives the same again unless the call on [A] ran out of
    depth. *)
Theorem dotted_path_recurses_into_child depth st (A B : loc) (b X : string) :
  contains dot b = false ->
  dict_get (_modules (heap st A)) b = Some B ->
  let path := String.append b (String.append "." X) in
  (get_module_output (S depth) A path st = get_module_output depth B X st /\
   get_module_input (S depth) A path st = get_module_input depth B X st) /\
  (fst (get_module_output (S depth) A path st) <> Raise RecursionError ->
   get_module_output (S depth) B X st = get_module_output (S depth) A path st) /\
  (fst (get_module_input (S depth) A path st) <> Raise RecursionError ->
   get_module_input (S depth) B X st = get_module_input (S depth) A path st).
Proof.
  intros Hb Hg path.
  assert (Hs : split1 dot path = Some (b, X)) by (apply split1_app; assumption).
  pose proof (get_module_output_dotted depth _ _ _ _ _ _ Hs Hg) as Ho.
  pose proof (get_module_input_dotted depth _ _ _ _ _ _ Hs Hg) as Hi.
  repeat split; try assumption.
  - rewrite Ho. intros H. apply get_module_output_deeper. assumption.
  - rewrite Hi. intros H. apply get_module_input_deeper. assumption.
Qed.

Lemma dotted_path_recurses_into_child_witness :
  (get_module_output 3 0 "B.X" sample_AB = get_module_output 2 1 "X" sample_AB /\
   get_module_input 3 0 "B.X" sample_AB = get_module_input 2 1 "X" sample_AB) /\
  (fst (get_module_output 3 0 "B.X" sample_AB) <> Raise RecursionError ->
   get_module_output 3 1 "X" sample_AB = get_module_output 3 0 "B.X" sample_AB) /\
  (fst (get_module_input 3 0 "B.X" sample_AB) <> Raise RecursionError ->
   get_module_input 3 1 "X" sample_AB = get_module_input 3 0 "B.X" sample_AB).
Proof.
  apply (dotted_path_recurses_into_child 2 sample_AB 0 1 "B" "X"); reflexivity.
Defined.

(** ** Paths that resolve to nothing *)

(** C8. For a module [P] and a name [s] of one segment that is no input
    port of [P], no registered child of [P], and has no underscore:
    [P.get_module_input(s)] raises the [SpaModuleError] for a missing
    module input, naming [s]; the underscore form, which cannot split,
    raises nothing of its own and emits no warning. *)
Theorem unmatched_name_raises depth st (P : loc) (s : string) :
  contains dot s = false ->
  contains underscore s = false ->
  dict_get (inputs (heap st P)) s = None ->
  dict_get (_modules (heap st P)) s = None ->
  get_module_input (S depth) P s st
  = (Raise (SpaModuleError (NoModuleInput s)), st).
Proof.
  intros Hd Hu Hi Hm. apply get_module_input_miss; try assumption.
  - apply split1_None. assumption.
  - apply rsplit1_None in Hu. rewrite Hu. exact I.
Qed.

Lemma unmatched_name_raises_witness :
  get_module_input 1 0 "nonexistent" sample_AB
  = (Raise (SpaModuleError (NoModuleInput "nonexistent")), sample_AB).
Proof.
  apply (unmatched_name_raises 0 sample_AB 0 "nonexistent"); reflexivity.
Defined.

(** The empty path is a port name like any other: a module that has a port
    under it returns that port. *)
Lemma empty_path_can_resolve :
  get_module_input 1 0 "" sample_blank_port = (Ok (30, BVocab 0), sample_blank_port) /\
  ~ (exists msg, fst (get_module_input 1 0 "" sample_blank_port)
                 = Raise (SpaModuleError msg)).
Proof.
  split; [reflexivity|]. intros [msg H]. discriminate H.
Qed.

(** C10, amended. For a module [P] that has no registered child under the
    empty name: [get_module("")] raises the [SpaModuleError] for a missing
    module naming [""] (with [strip_output], when [P] has no port under the
    empty name either); [get_module_input("")] does so for a missing input
    when [P] has no input port under the empty name, and
    [get_module_output("")] for a missing output when [P] has no output
    port under the empty name.  The store is unchanged. *)
Theorem empty_path_raises depth st (P : loc) (strip : bool) :
  dict_get (_modules (heap st P)) "" = None ->
  (strip && (dict_mem (inputs (heap st P)) "" || dict_mem (outputs (heap st P)) "")
   = false ->
   get_module (S depth) P "" strip st = (Raise (SpaModuleError (NoModule "")), st)) /\
  (dict_get (inputs (heap st P)) "" = None ->
   get_module_input (S depth) P "" st
   = (Raise (SpaModuleError (NoModuleInput "")), st)) /\
  (dict_get (outputs (heap st P)) "" = None ->
   get_module_output (S depth) P "" st
   = (Raise (SpaModuleError (NoModuleOutput "")), st)).
Proof.
  intros Hm. repeat split.
  - intros Hs. rewrite get_module_leaf by reflexivity. rewrite Hm, Hs. reflexivity.
  - intros Hi. apply get_module_input_miss; try assumption; try reflexivity.
  - intros Ho. apply get_module_output_miss; try assumption; try reflexivity.
Qed.

Lemma empty_path_raises_witness :
  (false && (dict_mem (inputs (heap sample_AB 0)) ""
             || dict_mem (outputs (heap sample_AB 0)) "") = false ->
   get_module 1 0 "" false sample_AB = (Raise (SpaModuleError (NoModule "")), sample_AB)) /\
  (dict_get (inputs (heap sample_AB 0)) "" = None ->
   get_module_input 1 0 "" sample_AB
   = (Raise (SpaModuleError (NoModuleInput "")), sample_AB)) /\
  (dict_get (outputs (heap sample_AB 0)) "" = None ->
   get_module_output 1 0 "" sample_AB
   = (Raise (SpaModuleError (NoModuleOutput "")), sample_AB)).
Proof.
  apply (empty_path_raises 0 sample_AB 0 false). reflexivity.
Defined.

(** ** The underscore form *)

(** With an output port of its own called [M_default], [A] answers
    [get_module_output("M_default")] with that port and without a warning,
    not with the port [default] of its child [M]. *)
Lemma own_port_shadows_underscore_form :
  dict_get (_modules (heap sample_own_port 0)) "M" = Some 1 /\
  outputs (heap sample_own_port 1) = [("default", (12, BVocab 0))] /\
  get_module_output 2 0 "M" sample_own_port = (Ok (12, BVocab 0), sample_own_port) /\
  get_module_output 2 0 "M_default" sample_own_port
  = (Ok (20, BVocab 5), sample_own_port) /\
  fst (get_module_output 2 0 "M_default" sample_own_port)
  <> fst (get_module_output 2 0 "M" sample_own_port) /\
  warnings (snd (get_module_output 2 0 "M_default" sample_own_port)) = [].
Proof.
  repeat split; try reflexivity. discriminate.
Qed.

(** C5, amended. For a module [A] with a registered child under a name [m]
    without a dot (such as ["M"]) whose output port [default] is [p] (as
    when [default] is its only output port), where neither [m] nor
    [m_default] is an output port of [A] itself and [m_default] is not a
    registered child of [A]: [A.get_module_output(m)] returns [p] and emits
    no warning; [A.get_module_output(m_default)] returns the same [p] and
    emits one deprecation warning.  The name is split at its last
    underscore, and only after the port and the child of that name were
    looked for. *)
Theorem underscore_default_is_bare_name depth st (A c : loc) (m : string) (p : Port) :
  contains dot m = false ->
  dict_get (_modules (heap st A)) m = Some c ->
  dict_get (outputs (heap st c)) "default" = Some p ->
  dict_get (outputs (heap st A)) m = None ->
  dict_get (outputs (heap st A)) (String.append m "_default") = None ->
  dict_get (_modules (heap st A)) (String.append m "_default") = None ->
  get_module_output (S (S depth)) A m st = (Ok p, st) /\
  get_module_output (S (S depth)) A (String.append m "_default") st
  = (Ok p, mkState (heap st) (vmaps st) (next_vocab st)
                   (warnings st ++ [DeprecationWarning])).
Proof.
  intros Hd Hc Hp Hown Hown' Hchild'.
  assert (Hleaf : get_module_output (S depth) c "default" st = (Ok p, st))
    by (apply get_module_output_own; [reflexivity|assumption]).
  split.
  - rewrite (get_module_output_child (S depth) A m c st); try assumption.
    apply split1_None. assumption.
  - rewrite (get_module_output_underscore (S depth) A _ m "default" c st);
      try assumption.
    + rewrite Hleaf. reflexivity.
    + apply split1_None. rewrite contains_app, Hd. reflexivity.
    + apply (rsplit1_app underscore m "default"). reflexivity.
Qed.

Lemma underscore_default_is_bare_name_witness :
  get_module_output 2 0 "M" sample_AM = (Ok (12, BVocab 0), sample_AM) /\
  get_module_output 2 0 "M_default" sample_AM
  = (Ok (12, BVocab 0),
     mkState (heap sample_AM) (vmaps sample_AM) (next_vocab sample_AM)
             (warnings sample_AM ++ [DeprecationWarning])).
Proof.
  apply (underscore_default_is_bare_name 0 sample_AM 0 1 "M" (12, BVocab 0));
    reflexivity.
Defined.

(** ** Which path a resolution error names *)

Lemma then_warn_Raise {A} (r : Outcome A * State) e st' :
  then_warn r = (Raise e, st') -> r = (Raise e, st').
Proof. destruct r as [[a|e0] st0]; simpl; [discriminate|auto]. Qed.

Lemma get_module_error depth :
  forall self name strip st e st',
    get_module depth self name strip st = (Raise e, st') ->
    e <> RecursionError ->
    exists name', e = SpaModuleError (NoModule name') /\ is_suffix name' name.
Proof.
  induction depth as [|depth IH]; intros self name strip st e st' H Hne.
  - inversion H; subst. contradiction Hne. reflexivity.
  - destruct (split1 dot name) as [[head tail]|] eqn:Hs.
    + destruct (dict_get (_modules (heap st self)) head) as [child|] eqn:Hg.
      * rewrite (get_module_dotted depth _ _ _ _ _ _ _ Hs Hg) in H.
        destruct (IH _ _ _ _ _ _ H Hne) as (name' & -> & Hsuf).
        exists name'. split; [reflexivity|].
        eapply is_suffix_trans; [eassumption|]. eapply split1_suffix; eassumption.
      * rewrite (get_module_dotted_miss depth _ _ _ _ _ _ Hs Hg) in H.
        inversion H; subst. exists name. split; [reflexivity|apply is_suffix_refl].
    + rewrite (get_module_leaf depth _ _ _ _ Hs) in H.
      destruct (dict_get (_modules (heap st self)) name); [discriminate|].
      destruct (strip && _); [discriminate|].
      inversion H; subst. exists name. split; [reflexivity|apply is_suffix_refl].
Qed.

(** A name without dot and underscore: the error names it, or [default]. *)
Lemma get_module_input_error_atomic depth :
  forall self name st e st',
    contains dot name = false -> contains underscore name = false ->
    get_module_input depth self name st = (Raise e, st') ->
    e <> RecursionError ->
    e = SpaModuleError (NoModuleInput name)
    \/ e = SpaModuleError (NoModuleInput "default").
Proof.
  induction depth as [|depth IH]; intros self name st e st' Hd Hu H Hne.
  - inversion H; subst. contradiction Hne. reflexivity.
  - assert (Hs : split1 dot name = None) by (apply split1_None; assumption).
    assert (Hr : rsplit1 underscore name = None) by (apply rsplit1_None; assumption).
    destruct (dict_get (inputs (heap st self)) name) as [port|] eqn:Hi.
    { rewrite (get_module_input_own depth _ _ _ _ Hs Hi) in H. discriminate. }
    destruct (dict_get (_modules (heap st self)) name) as [child|] eqn:Hm.
    + rewrite (get_module_input_child depth _ _ _ _ Hs Hi Hm) in H.
      destruct (IH child "default" st e st' eq_refl eq_refl H Hne); auto.
    + rewrite get_module_input_miss in H; try assumption.
      * inversion H; subst. auto.
      * rewrite Hr. exact I.
Qed.

Lemma get_module_output_error_atomic depth :
  forall self name st e st',
    contains dot name = false -> contains underscore name = false ->
    get_module_output depth self name st = (Raise e, st') ->
    e <> RecursionError ->
    e = SpaModuleError (NoModuleOutput name)
    \/ e = SpaModuleError (NoModuleOutput "default").
Proof.
  induction depth as [|depth IH]; intros self name st e st' Hd Hu H Hne.
  - inversion H; subst. contradiction Hne. reflexivity.
  - assert (Hs : split1 dot name = None) by (apply split1_None; assumption).
    assert (Hr : rsplit1 underscore name = None) by (apply rsplit1_None; assumption).
    destruct (dict_get (outputs (heap st self)) name) as [port|] eqn:Hi.
    { rewrite (get_module_output_own depth _ _ _ _ Hs Hi) in H. discriminate. }
    destruct (dict_get (_modules (heap st self)) name) as [child|] eqn:Hm.
    + rewrite (get_module_output_child depth _ _ _ _ Hs Hi Hm) in H.
      destruct (IH child "default" st e st' eq_refl eq_refl H Hne); auto.
    + rewrite get_module_output_miss in H; try assumption.
      * inversion H; subst. auto.
      * rewrite Hr. exact I.
Qed.

Lemma underscore_tail_atomic name head tail :
  split1 dot name = None -> rsplit1 underscore name = Some (head, tail) ->
  contains dot tail = false /\ contains underscore tail = false.
Proof.
  intros Hs Hr. apply split1_None in Hs. apply rsplit1_Some in Hr as [-> Ht].
  split; [|assumption].
  rewrite contains_app in Hs. apply orb_false_iff in Hs as [_ Hs].
  cbn [contains] in Hs. apply orb_false_iff in Hs as [_ Hs]. assumption.
Qed.

Lemma get_module_input_error depth :
  forall self name st e st',
    get_module_input depth self name st = (Raise e, st') ->
    e <> RecursionError ->
    exists name', e = SpaModuleError (NoModuleInput name') /\
                  (is_suffix name' name \/ name' = "default").
Proof.
  induction depth as [|depth IH]; intros self name st e st' H Hne.
  - inversion H; subst. contradiction Hne. reflexivity.
  - destruct (split1 dot name) as [[head tail]|] eqn:Hs.
    + destruct (dict_get (_modules (heap st self)) head) as [child|] eqn:Hg.
      * rewrite (get_module_input_dotted depth _ _ _ _ _ _ Hs Hg) in H.
        destruct (IH _ _ _ _ _ H Hne) as (name' & -> & [Hsuf | ->]).
        -- exists name'. split; [reflexivity|]. left.
           eapply is_suffix_trans; [eassumption|]. eapply split1_suffix; eassumption.
        -- exists "default". auto.
      * rewrite (get_module_input_dotted_miss depth _ _ _ _ _ Hs Hg) in H.
        inversion H; subst. exists name. split; [reflexivity|left; apply is_suffix_refl].
    + destruct (dict_get (inputs (heap st self)) name) as [port|] eqn:Hi.
      { rewrite (get_module_input_own depth _ _ _ _ Hs Hi) in H. discriminate. }
      destruct (dict_get (_modules (heap st self)) name) as [child|] eqn:Hm.
      { rewrite (get_module_input_child depth _ _ _ _ Hs Hi Hm) in H.
        destruct (get_module_input_error_atomic depth child "default" st e st'
                    eq_refl eq_refl H Hne) as [-> | ->]; exists "default"; auto. }
      destruct (rsplit1 underscore name) as [[head tail]|] eqn:Hr.
      * destruct (dict_get (_modules (heap st self)) head) as [child|] eqn:Hg.
        -- rewrite (get_module_input_underscore depth _ _ _ _ _ _ Hs Hi Hm Hr Hg) in H.
           apply then_warn_Raise in H.
           destruct (underscore_tail_atomic _ _ _ Hs Hr) as [Hd Hu].
           destruct (get_module_input_error_atomic depth child tail st e st'
                       Hd Hu H Hne) as [-> | ->].
           ++ exists tail. split; [reflexivity|]. left.
              eapply rsplit1_suffix; eassumption.
           ++ exists "default". auto.
        -- rewrite get_module_input_miss in H; try assumption.
           ++ inversion H; subst. exists name.
              split; [reflexivity|left; apply is_suffix_refl].
           ++ rewrite Hr. assumption.
      * rewrite get_module_input_miss in H; try assumption.
        -- inversion H; subst. exists name.
           split; [reflexivity|left; apply is_suffix_refl].
        -- rewrite Hr. exact I.
Qed.

Lemma get_module_output_error depth :
  forall self name st e st',
    get_module_output depth self name st = (Raise e, st') ->
    e <> RecursionError ->
    exists name', e = SpaModuleError (NoModuleOutput name') /\
                  (is_suffix name' name \/ name' = "default").
Proof.
  induction depth as [|depth IH]; intros self name st e st' H Hne.
  - inversion H; subst. contradiction Hne. reflexivity.
  - destruct (split1 dot name) as [[head tail]|] eqn:Hs.
    + destruct (dict_get (_modules (heap st self)) head) as [child|] eqn:Hg.
      * rewrite (get_module_output_dotted depth _ _ _ _ _ _ Hs Hg) in H.
        destruct (IH _ _ _ _ _ H Hne) as (name' & -> & [Hsuf | ->]).
        -- exists name'. split; [reflexivity|]. left.
           eapply is_suffix_trans; [eassumption|]. eapply split1_suffix; eassumption.
        -- exists "default". auto.
      * rewrite (get_module_output_dotted_miss depth _ _ _ _ _ Hs Hg) in H.
        inversion H; subst. exists name. split; [reflexivity|left; apply is_suffix_refl].
    + destruct (dict_get (outputs (heap st self)) name) as [port|] eqn:Hi.
      { rewrite (get_module_output_own depth _ _ _ _ Hs Hi) in H. discriminate. }
      destruct (dict_get (_modules (heap st self)) name) as [child|] eqn:Hm.
      { rewrite (get_module_output_child depth _ _ _ _ Hs Hi Hm) in H.
        destruct (get_module_output_error_atomic depth child "default" st e st'
                    eq_refl eq_refl H Hne) as [-> | ->]; exists "default"; auto. }
      destruct (rsplit1 underscore name) as [[head tail]|] eqn:Hr.
      * destruct (dict_get (_modules (heap st self)) head) as [child|] eqn:Hg.
        -- rewrite (get_module_output_underscore depth _ _ _ _ _ _ Hs Hi Hm Hr Hg) in H.
           apply then_warn_Raise in H.
           destruct (underscore_tail_atomic _ _ _ Hs Hr) as [Hd Hu].
           destruct (get_module_output_error_atomic depth child tail st e st'
                       Hd Hu H Hne) as [-> | ->].
           ++ exists tail. split; [reflexivity|]. left.
              eapply rsplit1_suffix; eassumption.
           ++ exists "default". auto.
        -- rewrite get_module_output_miss in H; try assumption.
           ++ inversion H; subst. exists name.
              split; [reflexivity|left; apply is_suffix_refl].
           ++ rewrite Hr. assumption.
      * rewrite get_module_output_miss in H; try assumption.
        -- inversion H; subst. exists name.
           split; [reflexivity|left; apply is_suffix_refl].
        -- rewrite Hr. exact I.
Qed.

(** A failing resolution of a module has come, call by call, to the call in
    which the lookup missed; the error is the one that call builds from its
    own path, and the state is untouched. *)
Lemma get_module_error_call depth :
  forall self name strip st e st',
    get_module depth self name strip st = (Raise e, st') ->
    e <> RecursionError ->
    exists k Q name',
      k < depth /\ asks_module st k self name Q name' /\
      misses_module st Q name' strip /\
      e = SpaModuleError (NoModule name') /\ st' = st.
Proof.
  induction depth as [|depth IH]; intros self name strip st e st' H Hne.
  - inversion H; subst. contradiction Hne. reflexivity.
  - destruct (split1 dot name) as [[head tail]|] eqn:Hs.
    + destruct (dict_get (_modules (heap st self)) head) as [child|] eqn:Hg.
      * rewrite (get_module_dotted depth _ _ _ _ _ _ _ Hs Hg) in H.
        destruct (IH _ _ _ _ _ _ H Hne)
          as (k & Q & name' & Hk & Hasks & Hmiss & He & Hst).
        exists (S k), Q, name'. repeat split; try assumption; [lia|].
        eapply asks_module_dotted; eassumption.
      * rewrite (get_module_dotted_miss depth _ _ _ _ _ _ Hs Hg) in H.
        inversion H; subst. exists 0, self, name.
        repeat split; [lia|constructor|]. left. exists head, tail. auto.
    + rewrite (get_module_leaf depth _ _ _ _ Hs) in H.
      destruct (dict_get (_modules (heap st self)) name) eqn:Hm; [discriminate|].
      destruct (strip && _) eqn:Hp; [discriminate|].
      inversion H; subst. exists 0, self, name.
      repeat split; [lia|constructor|]. right. auto.
Qed.

Lemma get_module_misses st k P name Q name' strip :
  asks_module st k P name Q name' ->
  misses_module st Q name' strip ->
  forall depth,
    get_module (S (k + depth)) P name strip st
    = (Raise (SpaModuleError (NoModule name')), st).
Proof.
  intros Hasks Hmiss depth.
  induction Hasks as [P name|k P name head tail child Q name' Hs Hg Hasks IH].
  - destruct Hmiss as [(head & tail & Hs & Hg) | (Hs & Hm & Hp)].
    + eapply get_module_dotted_miss; eassumption.
    + rewrite get_module_leaf by assumption. rewrite Hm, Hp. reflexivity.
  - cbn [Nat.add]. rewrite (get_module_dotted _ _ _ _ _ _ _ _ Hs Hg).
    apply IH. assumption.
Qed.

(** A failing resolution of a port has come, call by call, to the call in
    which the lookup missed; the error is the one that call builds from its
    own path, and the state is untouched. *)
Lemma get_module_input_error_call depth :
  forall self name st e st',
    get_module_input depth self name st = (Raise e, st') ->
    e <> RecursionError ->
    exists k Q name',
      k < depth /\ asks_port inputs st k self name Q name' /\
      misses_port inputs st Q name' /\
      e = SpaModuleError (NoModuleInput name') /\ st' = st.
Proof.
  induction depth as [|depth IH]; intros self name st e st' H Hne.
  - inversion H; subst. contradiction Hne. reflexivity.
  - destruct (split1 dot name) as [[head tail]|] eqn:Hs.
    + destruct (dict_get (_modules (heap st self)) head) as [child|] eqn:Hg.
      * rewrite (get_module_input_dotted depth _ _ _ _ _ _ Hs Hg) in H.
        destruct (IH _ _ _ _ _ H Hne) as (k & Q & name' & Hk & Hasks & Hmiss & He & Hst).
        exists (S k), Q, name'. repeat split; try assumption; [lia|].
        eapply asks_port_dotted; eassumption.
      * rewrite (get_module_input_dotted_miss depth _ _ _ _ _ Hs Hg) in H.
        inversion H; subst. exists 0, self, name.
        repeat split; [lia|constructor|]. left. exists head, tail. auto.
    + destruct (dict_get (inputs (heap st self)) name) as [port|] eqn:Hi.
      { rewrite (get_module_input_own depth _ _ _ _ Hs Hi) in H. discriminate. }
      destruct (dict_get (_modules (heap st self)) name) as [child|] eqn:Hm.
      { rewrite (get_module_input_child depth _ _ _ _ Hs Hi Hm) in H.
        destruct (IH _ _ _ _ _ H Hne) as (k & Q & name' & Hk & Hasks & Hmiss & He & Hst).
        exists (S k), Q, name'. repeat split; try assumption; [lia|].
        eapply asks_port_default; eassumption. }
      destruct (rsplit1 underscore name) as [[head tail]|] eqn:Hr.
      * destruct (dict_get (_modules (heap st self)) head) as [child|] eqn:Hg.
        -- rewrite (get_module_input_underscore depth _ _ _ _ _ _ Hs Hi Hm Hr Hg) in H.
           apply then_warn_Raise in H.
           destruct (IH _ _ _ _ _ H Hne)
             as (k & Q & name' & Hk & Hasks & Hmiss & He & Hst).
           exists (S k), Q, name'. repeat split; try assumption; [lia|].
           eapply asks_port_underscore; eassumption.
        -- rewrite get_module_input_miss in H; try assumption.
           ++ inversion H; subst. exists 0, self, name.
              repeat split; [lia|constructor|]. right. repeat split; try assumption.
              intros head' tail' Hr'. rewrite Hr in Hr'. inversion Hr'; subst.
              assumption.
           ++ rewrite Hr. assumption.
      * rewrite get_module_input_miss in H; try assumption.
        -- inversion H; subst. exists 0, self, name.
           repeat split; [lia|constructor|]. right. repeat split; try assumption.
           intros head' tail' Hr'. rewrite Hr in Hr'. discriminate.
        -- rewrite Hr. exact I.
Qed.

(** And the other way round: the calls and the miss fix the outcome. *)
Lemma get_module_input_misses st k P name Q name' :
  asks_port inputs st k P name Q name' ->
  misses_port inputs st Q name' ->
  forall depth,
    get_module_input (S (k + depth)) P name st
    = (Raise (SpaModuleError (NoModuleInput name')), st).
Proof.
  intros Hasks Hmiss depth.
  induction Hasks as [P name
                     |k P name head tail child Q name' Hs Hg Hasks IH
                     |k P name child Q name' Hs Hi Hm Hasks IH
                     |k P name head tail child Q name' Hs Hi Hm Hr Hg Hasks IH].
  - destruct Hmiss as [(head & tail & Hs & Hg) | (Hs & Hi & Hm & Hr)].
    + eapply get_module_input_dotted_miss; eassumption.
    + apply get_module_input_miss; try assumption.
      destruct (rsplit1 underscore name) as [[head tail]|] eqn:E; [|exact I].
      eapply Hr. reflexivity.
  - cbn [Nat.add]. rewrite (get_module_input_dotted _ _ _ _ _ _ _ Hs Hg).
    apply IH. assumption.
  - cbn [Nat.add]. rewrite (get_module_input_child _ _ _ _ _ Hs Hi Hm).
    apply IH. assumption.
  - cbn [Nat.add].
    rewrite (get_module_input_underscore _ _ _ _ _ _ _ Hs Hi Hm Hr Hg).
    rewrite (IH Hmiss). reflexivity.
Qed.

(** A failing resolution of a port has come, call by call, to the call in
    which the lookup missed; the error is the one that call builds from its
    own path, and the state is untouched. *)
Lemma get_module_output_error_call depth :
  forall self name st e st',
    get_module_output depth self name st = (Raise e, st') ->
    e <> RecursionError ->
    exists k Q name',
      k < depth /\ asks_port outputs st k self name Q name' /\
      misses_port outputs st Q name' /\
      e = SpaModuleError (NoModuleOutput name') /\ st' = st.
Proof.
  induction depth as [|depth IH]; intros self name st e st' H Hne.
  - inversion H; subst. contradiction Hne. reflexivity.
  - destruct (split1 dot name) as [[head tail]|] eqn:Hs.
    + destruct (dict_get (_modules (heap st self)) head) as [child|] eqn:Hg.
      * rewrite (get_module_output_dotted depth _ _ _ _ _ _ Hs Hg) in H.
        destruct (IH _ _ _ _ _ H Hne) as (k & Q & name' & Hk & Hasks & Hmiss & He & Hst).
        exists (S k), Q, name'. repeat split; try assumption; [lia|].
        eapply asks_port_dotted; eassumption.
      * rewrite (get_module_output_dotted_miss depth _ _ _ _ _ Hs Hg) in H.
        inversion H; subst. exists 0, self, name.
        repeat split; [lia|constructor|]. left. exists head, tail. auto.
    + destruct (dict_get (outputs (heap st self)) name) as [port|] eqn:Hi.
      { rewrite (get_module_output_own depth _ _ _ _ Hs Hi) in H. discriminate. }
      destruct (dict_get (_modules (heap st self)) name) as [child|] eqn:Hm.
      { rewrite (get_module_output_child depth _ _ _ _ Hs Hi Hm) in H.
        destruct (IH _ _ _ _ _ H Hne) as (k & Q & name' & Hk & Hasks & Hmiss & He & Hst).
        exists (S k), Q, name'. repeat split; try assumption; [lia|].
        eapply asks_port_default; eassumption. }
      destruct (rsplit1 underscore name) as [[head tail]|] eqn:Hr.
      * destruct (dict_get (_modules (heap st self)) head) as [child|] eqn:Hg.
        -- rewrite (get_module_output_underscore depth _ _ _ _ _ _ Hs Hi Hm Hr Hg) in H.
           apply then_warn_Raise in H.
           destruct (IH _ _ _ _ _ H Hne)
             as (k & Q & name' & Hk & Hasks & Hmiss & He & Hst).
           exists (S k), Q, name'. repeat split; try assumption; [lia|].
           eapply asks_port_underscore; eassumption.
        -- rewrite get_module_output_miss in H; try assumption.
           ++ inversion H; subst. exists 0, self, name.
              repeat split; [lia|constructor|]. right. repeat split; try assumption.
              intros head' tail' Hr'. rewrite Hr in Hr'. inversion Hr'; subst.
              assumption.
           ++ rewrite Hr. assumption.
      * rewrite get_module_output_miss in H; try assumption.
        -- inversion H; subst. exists 0, self, name.
           repeat split; [lia|constructor|]. right. repeat split; try assumption.
           intros head' tail' Hr'. rewrite Hr in Hr'. discriminate.
        -- rewrite Hr. exact I.
Qed.

(** And the other way round: the calls and the miss fix the outcome. *)
Lemma get_module_output_misses st k P name Q name' :
  asks_port outputs st k P name Q name' ->
  misses_port outputs st Q name' ->
  forall depth,
    get_module_output (S (k + depth)) P name st
    = (Raise (SpaModuleError (NoModuleOutput name')), st).
Proof.
  intros Hasks Hmiss depth.
  induction Hasks as [P name
                     |k P name head tail child Q name' Hs Hg Hasks IH
                     |k P name child Q name' Hs Hi Hm Hasks IH
                     |k P name head tail child Q name' Hs Hi Hm Hr Hg Hasks IH].
  - destruct Hmiss as [(head & tail & Hs & Hg) | (Hs & Hi & Hm & Hr)].
    + eapply get_module_output_dotted_miss; eassumption.
    + apply get_module_output_miss; try assumption.
      destruct (rsplit1 underscore name) as [[head tail]|] eqn:E; [|exact I].
      eapply Hr. reflexivity.
  - cbn [Nat.add]. rewrite (get_module_output_dotted _ _ _ _ _ _ _ Hs Hg).
    apply IH. assumption.
  - cbn [Nat.add]. rewrite (get_module_output_child _ _ _ _ _ Hs Hi Hm).
    apply IH. assumption.
  - cbn [Nat.add].
    rewrite (get_module_output_underscore _ _ _ _ _ _ _ Hs Hi Hm Hr Hg).
    rewrite (IH Hmiss). reflexivity.
Qed.

(** Resolving ["B.nope"] on [A], where [B] is a child without a port
    [nope], fails in the call on [B]: the error names ["nope"], the path
    that call was given, and not ["B.nope"]. *)
Lemma child_error_names_remainder :
  dict_get (_modules (heap sample_AB 0)) "B" = Some 1 /\
  get_module_input 2 0 "B.nope" sample_AB
  = (Raise (SpaModuleError (NoModuleInput "nope")), sample_AB) /\
  fst (get_module_input 2 0 "B.nope" sample_AB)
  <> Raise (SpaModuleError (NoModuleInput "B.nope")).
Proof.
  repeat split; try reflexivity. discriminate.
Qed.

(** C6, amended. When a resolution on [P] fails, other than by running out
    of call depth, the error is the [SpaModuleError] of the operation
    (missing module, missing input, missing output) and names the path
    given to the call in which the lookup missed, with the state as it
    was.  The resolution has come to that call on [Q] with the path
    [name'] by the nested calls the method makes: on the child under the
    head of a dotted path with the rest of the path and, for a port, on
    the child of that name with ["default"] or on the child under the head
    of the underscore form with its tail.  So [name'] is the requested
    path when the miss is in the call on [P] itself, and otherwise what
    the child was asked for: a suffix of the requested path, or
    ["default"].  The calls and the miss in turn fix the outcome: at any
    depth that allows them, the resolution raises exactly the error that
    names [name'], the error of the child going up unchanged. *)
Theorem resolution_error_names_missed_path depth st (P : loc) (name : string) :
  (forall strip e st',
      get_module depth P name strip st = (Raise e, st') ->
      e <> RecursionError ->
      exists k Q name',
        k < depth /\ asks_module st k P name Q name' /\
        misses_module st Q name' strip /\
        e = SpaModuleError (NoModule name') /\ st' = st /\
        is_suffix name' name) /\
  (forall e st',
      get_module_input depth P name st = (Raise e, st') ->
      e <> RecursionError ->
      exists k Q name',
        k < depth /\ asks_port inputs st k P name Q name' /\
        misses_port inputs st Q name' /\
        e = SpaModuleError (NoModuleInput name') /\ st' = st /\
        (is_suffix name' name \/ name' = "default")) /\
  (forall e st',
      get_module_output depth P name st = (Raise e, st') ->
      e <> RecursionError ->
      exists k Q name',
        k < depth /\ asks_port outputs st k P name Q name' /\
        misses_port outputs st Q name' /\
        e = SpaModuleError (NoModuleOutput name') /\ st' = st /\
        (is_suffix name' name \/ name' = "default")) /\
  (forall k Q name' strip,
      asks_module st k P name Q name' -> misses_module st Q name' strip ->
      get_module (S (k + depth)) P name strip st
      = (Raise (SpaModuleError (NoModule name')), st)) /\
  (forall k Q name',
      asks_port inputs st k P name Q name' -> misses_port inputs st Q name' ->
      get_module_input (S (k + depth)) P name st
      = (Raise (SpaModuleError (NoModuleInput name')), st)) /\
  (forall k Q name',
      asks_port outputs st k P name Q name' -> misses_port outputs st Q name' ->
      get_module_output (S (k + depth)) P name st
      = (Raise (SpaModuleError (NoModuleOutput name')), st)) /\
  (misses_module st P name false ->
   get_module (S depth) P name false st
   = (Raise (SpaModuleError (NoModule name)), st)) /\
  (misses_port inputs st P name ->
   get_module_input (S depth) P name st
   = (Raise (SpaModuleError (NoModuleInput name)), st)) /\
  (misses_port outputs st P name ->
   get_module_output (S depth) P name st
   = (Raise (SpaModuleError (NoModuleOutput name)), st)).
Proof.
  split; [|split; [|split; [|split; [|split; [|split; [|split; [|split]]]]]]].
  - intros strip e st' H Hne.
    destruct (get_module_error_call _ _ _ _ _ _ _ H Hne)
      as (k & Q & name' & Hk & Hasks & Hmiss & He & Hst).
    destruct (get_module_error _ _ _ _ _ _ _ H Hne) as (name'' & He' & Hsuf).
    exists k, Q, name'. repeat split; try assumption.
    rewrite He in He'. inversion He'; subst. assumption.
  - intros e st' H Hne.
    destruct (get_module_input_error_call _ _ _ _ _ _ H Hne)
      as (k & Q & name' & Hk & Hasks & Hmiss & He & Hst).
    destruct (get_module_input_error _ _ _ _ _ _ H Hne) as (name'' & He' & Hsuf).
    exists k, Q, name'. repeat split; try assumption.
    rewrite He in He'. inversion He'; subst. assumption.
  - intros e st' H Hne.
    destruct (get_module_output_error_call _ _ _ _ _ _ H Hne)
      as (k & Q & name' & Hk & Hasks & Hmiss & He & Hst).
    destruct (get_module_output_error _ _ _ _ _ _ H Hne) as (name'' & He' & Hsuf).
    exists k, Q, name'. repeat split; try assumption.
    rewrite He in He'. inversion He'; subst. assumption.
  - intros k Q name' strip Hasks Hmiss. apply (get_module_misses st k P name Q name'); assumption.
  - intros k Q name' Hasks Hmiss. apply (get_module_input_misses st k P name Q name'); assumption.
  - intros k Q name' Hasks Hmiss. apply (get_module_output_misses st k P name Q name'); assumption.
  - intros Hmiss.
    apply (get_module_misses st 0 P name P name false (asks_module_here _ _ _) Hmiss).
  - intros Hmiss.
    apply (get_module_input_misses st 0 P name P name (asks_port_here _ _ _ _) Hmiss).
  - intros Hmiss.
    apply (get_module_output_misses st 0 P name P name (asks_port_here _ _ _ _) Hmiss).
Qed.

Lemma resolution_error_names_missed_path_witness :
  (exists k Q name',
      k < 2 /\ asks_port inputs sample_AB k 0 "B.nope" Q name' /\
      misses_port inputs sample_AB Q name' /\
      SpaModuleError (NoModuleInput "nope") = SpaModuleError (NoModuleInput name') /\
      sample_AB = sample_AB /\
      (is_suffix name' "B.nope" \/ name' = "default")) /\
  get_module_input 2 0 "B.nope" sample_AB
  = (Raise (SpaModuleError (NoModuleInput "nope")), sample_AB) /\
  get_module_input 1 0 "C.nope" sample_AB
  = (Raise (SpaModuleError (NoModuleInput "C.nope")), sample_AB) /\
  get_module 1 0 "nope" false sample_AB
  = (Raise (SpaModuleError (NoModule "nope")), sample_AB).
Proof.
  destruct (resolution_error_names_missed_path 2 sample_AB 0 "B.nope")
    as (_ & Hin & _).
  destruct (resolution_error_names_missed_path 0 sample_AB 0 "B.nope")
    as (_ & _ & _ & _ & Hcalls & _).
  destruct (resolution_error_names_missed_path 0 sample_AB 0 "C.nope")
    as (_ & _ & _ & _ & _ & _ & _ & Hhere & _).
  destruct (resolution_error_names_missed_path 0 sample_AB 0 "nope")
    as (_ & _ & _ & _ & _ & _ & Hmod & _).
  split; [|split; [|split]].
  - apply (Hin (SpaModuleError (NoModuleInput "nope")) sample_AB eq_refl).
    discriminate.
  - apply (Hcalls 1 1 "nope").
    + apply (asks_port_dotted inputs sample_AB 0 0 "B.nope" "B" "nope" 1 1 "nope");
        [reflexivity|reflexivity|constructor].
    + right. repeat split; reflexivity.
  - apply Hhere. left. exists "C", "nope". split; reflexivity.
  - apply Hmod. right. repeat split; reflexivity.
Defined.

(** ** Listing the inputs of the children *)

Lemma get_module_inputs_elements st self x :
  In x (get_module_inputs st self) <->
  exists name child port,
    In (name, child) (_modules (heap st self)) /\
    In port (dict_keys (inputs (heap st child))) /\
    x = listed_name name port.
Proof.
  unfold get_module_inputs. rewrite in_flat_map. split.
  - intros ([name child] & Hin & Hx). apply in_map_iff in Hx as (port & <- & Hp).
    exists name, child, port. auto.
  - intros (name & child & port & Hin & Hp & ->).
    exists (name, child). split; [assumption|]. apply in_map. assumption.
Qed.

(** C7. For a module [P] whose child registry is, in order, [m1] with the
    input port [default] and [m2] with the input ports [a] and [b]:
    [P.get_module_inputs()] yields exactly [m1], [m2_a], [m2_b] in that
    order.  Every name it yields comes from a registered child and one of
    that child's input ports: the child's name as it is when the port is
    [default], and otherwise the child's name, an underscore and the port's
    name; never the two joined by a dot. *)
Theorem get_module_inputs_lists_children st (P c1 c2 : loc) (p1 pa pb : Port) :
  _modules (heap st P) = [("m1", c1); ("m2", c2)] ->
  inputs (heap st c1) = [("default", p1)] ->
  inputs (heap st c2) = [("a", pa); ("b", pb)] ->
  get_module_inputs st P = ["m1"; "m2_a"; "m2_b"] /\
  forall x, In x (get_module_inputs st P) ->
    exists name child port,
      In (name, child) (_modules (heap st P)) /\
      In port (dict_keys (inputs (heap st child))) /\
      x = (if String.eqb port "default" then name
           else String.append name (String.append "_" port)).
Proof.
  intros Hm H1 H2. split.
  - unfold get_module_inputs. rewrite Hm. cbn [flat_map]. rewrite H1, H2. reflexivity.
  - intros x Hx. apply get_module_inputs_elements in Hx. exact Hx.
Qed.

Lemma get_module_inputs_lists_children_witness :
  get_module_inputs sample_listing 0 = ["m1"; "m2_a"; "m2_b"] /\
  forall x, In x (get_module_inputs sample_listing 0) ->
    exists name child port,
      In (name, child) (_modules (heap sample_listing 0)) /\
      In port (dict_keys (inputs (heap sample_listing child))) /\
      x = (if String.eqb port "default" then name
           else String.append name (String.append "_" port)).
Proof.
  apply (get_module_inputs_lists_children sample_listing 0 1 2
           (10, BVocab 0) (11, BVocab 0) (12, BVocab 0)); reflexivity.
Defined.

(** ** Leaving the scope of a module *)

Lemma registered_in_In module_list net :
  registered_in module_list net = true <-> In net module_list.
Proof.
  unfold registered_in. rewrite existsb_exists. split.
  - intros (x & Hx & E). apply Nat.eqb_eq in E. subst. assumption.
  - intros H. exists net. split; [assumption|apply Nat.eqb_refl].
Qed.

Lemma check_networks_raises module_list nets st q0 :
  In (NetModule q0) nets -> ~ In q0 module_list ->
  exists q,
    check_networks module_list nets st
    = (Raise (SpaModuleError (NotSetAsAttribute q)), st) /\
    In (NetModule q) nets /\ ~ In q module_list.
Proof.
  intros Hin Hnot. induction nets as [|[net|n] nets IH]; [contradiction| |].
  - cbn [check_networks]. destruct (registered_in module_list net) eqn:E.
    + destruct Hin as [Heq|Hin].
      * inversion Heq; subst. apply registered_in_In in E. contradiction.
      * destruct (IH Hin) as (q & Hq & Hq1 & Hq2). exists q. cbn [negb].
        split; [assumption|]. split; [right; assumption|assumption].
    + exists net. cbn [negb]. split; [reflexivity|]. split; [left; reflexivity|].
      intros H. apply registered_in_In in H. congruence.
  - cbn [check_networks]. destruct Hin as [Heq|Hin]; [discriminate|].
    destruct (IH Hin) as (q & Hq & Hq1 & Hq2). exists q.
    split; [assumption|]. split; [right; assumption|assumption].
Qed.

Lemma check_networks_passes module_list nets st :
  (forall q, In (NetModule q) nets -> In q module_list) ->
  check_networks module_list nets st = (Ok None, st).
Proof.
  induction nets as [|[net|n] nets IH]; intros H; cbn [check_networks].
  - reflexivity.
  - assert (E : registered_in module_list net = true)
      by (apply registered_in_In, H; left; reflexivity).
    rewrite E. cbn [negb]. apply IH. intros q Hq. apply H. right. assumption.
  - apply IH. intros q Hq. apply H. right. assumption.
Qed.

(** C3. Once the exit of the base network has returned: if the scope of [P]
    closes with no exception in flight and some [Module] among
    [P.networks] is not, by identity, among the registered children of [P],
    a [SpaModuleError] naming such a module is raised; if the scope closes
    because an exception [e] is in flight, [__exit__] returns [False]
    without looking at [P.networks] or the registry, and [e] goes on
    unchanged. *)
Theorem scope_close_checks_registration
    (network_exit : loc -> option Exn -> M unit) st (P : loc) :
  (forall st1 q0,
      network_exit P None st = (Ok tt, st1) ->
      In (NetModule q0) (networks (heap st1 P)) ->
      ~ In q0 (dict_values (_modules (heap st1 P))) ->
      exists q,
        close_scope network_exit P None st
        = (Raise (SpaModuleError (NotSetAsAttribute q)), st1) /\
        In (NetModule q) (networks (heap st1 P)) /\
        ~ In q (dict_values (_modules (heap st1 P)))) /\
  (forall st1 e,
      network_exit P (Some e) st = (Ok tt, st1) ->
      __exit__ network_exit P (Some e) st = (Ok (Some false), st1) /\
      close_scope network_exit P (Some e) st = (Raise e, st1)).
Proof.
  split.
  - intros st1 q0 Hexit Hin Hnot.
    destruct (check_networks_raises _ _ st1 q0 Hin Hnot) as (q & Hq & Hq1 & Hq2).
    exists q. split; [|split; assumption].
    unfold close_scope, __exit__, bind, deref. rewrite Hexit, Hq. reflexivity.
  - intros st1 e Hexit. unfold close_scope, __exit__, bind, ret, raise.
    rewrite Hexit. split; reflexivity.
Qed.

Lemma scope_close_checks_registration_witness :
  (exists q,
      close_scope network_exit_plain 0 None sample_unregistered
      = (Raise (SpaModuleError (NotSetAsAttribute q)), sample_unregistered)) /\
  close_scope network_exit_plain 0 (Some (OtherError 1)) sample_unregistered
  = (Raise (OtherError 1), sample_unregistered).
Proof.
  destruct (scope_close_checks_registration network_exit_plain sample_unregistered 0)
    as [Hclean Hexc].
  split.
  - destruct (Hclean sample_unregistered 2 eq_refl) as (q & Hq & _).
    + cbn. auto.
    + cbn. intros [H|[]]. discriminate H.
    + exists q. exact Hq.
  - apply (Hexc sample_unregistered (OtherError 1) eq_refl).
Defined.

(** ** Registration *)

Lemma inputs_field_lawful : lawful inputs_field.
Proof. split; try reflexivity. intros [] ; reflexivity. Qed.

Lemma outputs_field_lawful : lawful outputs_field.
Proof. split; try reflexivity. intros []; reflexivity. Qed.

Lemma get_or_create_spec V d st :
  (0 < d)%Z ->
  exists voc st1,
    get_or_create V d st = (Ok voc, st1) /\
    heap st1 = heap st /\
    vmaps st1 V !! d = Some voc /\
    (forall d' h', vmaps st V !! d' = Some h' -> vmaps st1 V !! d' = Some h') /\
    (forall V', V' <> V -> vmaps st1 V' = vmaps st V').
Proof.
  intros Hd. unfold get_or_create.
  destruct (d <=? 0)%Z eqn:E; [apply Z.leb_le in E; lia|].
  destruct (vmaps st V !! d) as [voc|] eqn:Hl.
  - exists voc, st. repeat split; auto.
  - eexists _, _. split; [reflexivity|]. cbn [heap vmaps].
    rewrite Nat.eqb_refl. repeat split.
    + apply lookup_insert_eq.
    + intros d' h' H'. rewrite lookup_insert_ne; [assumption|]. congruence.
    + intros V' HV. apply Nat.eqb_neq in HV. rewrite HV. reflexivity.
Qed.

Lemma get_or_create_heap V d st : heap (snd (get_or_create V d st)) = heap st.
Proof.
  unfold get_or_create. destruct (d <=? 0)%Z; [reflexivity|].
  destruct (vmaps st V !! d); reflexivity.
Qed.

Lemma get_or_create_hit V d voc st :
  (0 < d)%Z -> vmaps st V !! d = Some voc -> get_or_create V d st = (Ok voc, st).
Proof.
  intros Hd Hl. unfold get_or_create.
  destruct (d <=? 0)%Z eqn:E; [apply Z.leb_le in E; lia|]. rewrite Hl. reflexivity.
Qed.

Lemma dict_set_middle {V} (done rest : dict V) k v v' :
  ~ In k (dict_keys done) ->
  dict_set (done ++ (k, v) :: rest) k v' = done ++ (k, v') :: rest.
Proof.
  induction done as [|[k0 v0] done IH]; cbn; intros H.
  - rewrite String.eqb_refl. reflexivity.
  - destruct (String.eqb k0 k) eqn:E.
    + apply String.eqb_eq in E. subst. contradiction H. left. reflexivity.
    + rewrite IH; [reflexivity|]. intros Hin. apply H. right. assumption.
Qed.

Lemma NoDup_keys_middle {V} (done rest : dict V) k v :
  List.NoDup (dict_keys (done ++ (k, v) :: rest)) -> ~ In k (dict_keys done).
Proof.
  unfold dict_keys. rewrite map_app. cbn [map fst]. intros H Hin.
  apply NoDup_remove_2 in H. apply H. apply in_or_app. left. assumption.
Qed.

Lemma upgrade_stable vm vm' item :
  (forall d h, vm !! d = Some h -> vm' !! d = Some h) ->
  (forall k obj d, item = (k, (obj, BInt d)) -> is_Some (vm !! d)) ->
  upgrade vm' item = upgrade vm item.
Proof.
  intros Hext Hdom. destruct item as [k [obj [d|h|]]]; cbn; try reflexivity.
  destruct (Hdom k obj d eq_refl) as [h Hh]. rewrite Hh, (Hext _ _ Hh). reflexivity.
Qed.

Lemma map_upgrade_stable vm vm' (items : dict Port) :
  (forall d h, vm !! d = Some h -> vm' !! d = Some h) ->
  (forall k obj d, In (k, (obj, BInt d)) items -> is_Some (vm !! d)) ->
  map (upgrade vm') items = map (upgrade vm) items.
Proof.
  intros Hext Hdom. apply map_ext_in. intros item Hin.
  apply upgrade_stable; [assumption|]. intros k obj d ->. eapply Hdom. eassumption.
Qed.

(** The loop over the ports of one field: it ends, every integer dimension
    is replaced by the vocabulary the map of [self] has for it, the order
    and everything else is kept. *)
Lemma resolve_ports_spec f (Hf : lawful f) self module :
  forall items done st,
    rd f (heap st module) = done ++ items ->
    dict_wf (done ++ items) ->
    positive_dims items ->
    let V := vocabs (heap st self) in
    exists st',
      resolve_ports f self module items st = (Ok tt, st') /\
      rd f (heap st' module) = done ++ map (upgrade (vmaps st' V)) items /\
      (forall k obj d, In (k, (obj, BInt d)) items -> is_Some (vmaps st' V !! d)) /\
      (forall d h, vmaps st V !! d = Some h -> vmaps st' V !! d = Some h) /\
      (forall V', V' <> V -> vmaps st' V' = vmaps st V') /\
      (forall l, l <> module -> heap st' l = heap st l) /\
      heap st' module = wr f (rd f (heap st' module)) (heap st module).
Proof.
  induction items as [|[k [obj b]] rest IH]; intros done st Hrd Hwf Hpos V.
  - exists st. cbn [resolve_ports map]. repeat split; auto.
    + intros k obj d [].
    + symmetry. apply (wr_rd f Hf).
  - assert (Hk : ~ In k (dict_keys done)) by (eapply NoDup_keys_middle; exact Hwf).
    assert (Hpos' : positive_dims rest)
      by (intros k' obj' d' H'; eapply Hpos; right; exact H').
    assert (Hwf' : forall b', dict_wf ((done ++ [(k, (obj, b'))]) ++ rest)).
    { intros b'. unfold dict_wf, dict_keys in *.
      rewrite <- app_assoc. cbn [app]. rewrite map_app in *. exact Hwf. }
    destruct b as [d|h|].
    + destruct (get_or_create_spec V d st) as (voc & st1 & Hgc & Hheap & Hvoc & Hext & Hoth).
      { eapply Hpos. left. reflexivity. }
      set (st2 := snd (update module
                         (fun m => wr f (dict_set (rd f m) k (obj, BVocab voc)) m) st1)).
      assert (Hmod2 : heap st2 module
                      = wr f (done ++ (k, (obj, BVocab voc)) :: rest) (heap st module)).
      { subst st2. cbn. rewrite Nat.eqb_refl, Hheap, Hrd.
        rewrite dict_set_middle by assumption. reflexivity. }
      assert (Hoth2 : forall l, l <> module -> heap st2 l = heap st l).
      { intros l Hl. subst st2. cbn. apply Nat.eqb_neq in Hl. rewrite Hl, Hheap.
        reflexivity. }
      assert (HV2 : vocabs (heap st2 self) = V).
      { destruct (Nat.eq_dec self module) as [->|Hne].
        - rewrite Hmod2, (wr_vocabs f Hf). reflexivity.
        - rewrite Hoth2 by assumption. reflexivity. }
      destruct (IH (done ++ [(k, (obj, BVocab voc))]) st2)
        as (st' & Hrun & Hrd' & Hdom' & Hext' & Hoth' & Hframe' & Hmod').
      { rewrite Hmod2, (rd_wr f Hf), <- app_assoc. reflexivity. }
      { apply Hwf'. }
      { assumption. }
      rewrite HV2 in *.
      assert (Hvm2 : vmaps st2 = vmaps st1) by reflexivity.
      exists st'. split; [|split; [|split; [|split; [|split; [|split]]]]].
      * cbn [resolve_ports]. unfold bind, deref. fold V. rewrite Hgc.
        cbn beta iota. fold st2.
        change (update module
                  (fun m => wr f (dict_set (rd f m) k (obj, BVocab voc)) m) st1)
          with (Ok tt, st2). exact Hrun.
      * rewrite Hrd', <- app_assoc. cbn [app map upgrade].
        rewrite (Hext' d voc); [reflexivity|]. rewrite Hvm2. assumption.
      * intros k' obj' d' [Heq|Hin].
        -- inversion Heq; subst. exists voc. apply Hext'. rewrite Hvm2. assumption.
        -- eapply Hdom'. eassumption.
      * intros d' h' H'. apply Hext'. rewrite Hvm2. apply Hext. assumption.
      * intros V' HV'. rewrite Hoth' by assumption. rewrite Hvm2. apply Hoth.
        assumption.
      * intros l Hl. rewrite Hframe' by assumption. apply Hoth2. assumption.
      * etransitivity; [exact Hmod'|]. rewrite Hmod2, (wr_wr f Hf). reflexivity.
    + destruct (IH (done ++ [(k, (obj, BVocab h))]) st)
        as (st' & Hrun & Hrd' & Hdom' & Hext' & Hoth' & Hframe' & Hmod').
      { rewrite Hrd, <- app_assoc. reflexivity. }
      { apply Hwf'. }
      { assumption. }
      exists st'. split; [|split; [|split; [|split; [|split; [|split]]]]].
      * exact Hrun.
      * rewrite Hrd', <- app_assoc. reflexivity.
      * intros k' obj' d' [Heq|Hin]; [discriminate|]. eapply Hdom'. eassumption.
      * exact Hext'.
      * exact Hoth'.
      * exact Hframe'.
      * exact Hmod'.
    + destruct (IH (done ++ [(k, (obj, BNone))]) st)
        as (st' & Hrun & Hrd' & Hdom' & Hext' & Hoth' & Hframe' & Hmod').
      { rewrite Hrd, <- app_assoc. reflexivity. }
      { apply Hwf'. }
      { assumption. }
      exists st'. split; [|split; [|split; [|split; [|split; [|split]]]]].
      * exact Hrun.
      * rewrite Hrd', <- app_assoc. reflexivity.
      * intros k' obj' d' [Heq|Hin]; [discriminate|]. eapply Hdom'. eassumption.
      * exact Hext'.
      * exact Hoth'.
      * exact Hframe'.
      * exact Hmod'.
Qed.

Lemma update_heap_eq l g st : heap (snd (update l g st)) l = g (heap st l).
Proof. cbn. rewrite Nat.eqb_refl. reflexivity. Qed.

Lemma update_heap_ne l l' g st : l' <> l -> heap (snd (update l g st)) l' = heap st l'.
Proof. intros H. cbn. apply Nat.eqb_neq in H. rewrite H. reflexivity. Qed.

(** The two statements of [__set_module] before its loops: the label, then
    the registry. *)
Lemma label_step_spec key module st :
  exists st_a,
    (match label (heap st module) with
     | None => update module (with_label (Some key))
     | Some _ => ret tt
     end) st = (Ok tt, st_a) /\
    vmaps st_a = vmaps st /\
    forall l, attrs (heap st_a l) = attrs (heap st l) /\
              _modules (heap st_a l) = _modules (heap st l) /\
              inputs (heap st_a l) = inputs (heap st l) /\
              outputs (heap st_a l) = outputs (heap st l) /\
              vocabs (heap st_a l) = vocabs (heap st l).
Proof.
  destruct (label (heap st module)) as [lbl|].
  - exists st. repeat split.
  - exists (snd (update module (with_label (Some key)) st)).
    split; [reflexivity|]. split; [reflexivity|]. intros l.
    destruct (Nat.eq_dec l module) as [->|Hne].
    + rewrite update_heap_eq. repeat split.
    + rewrite update_heap_ne by assumption. repeat split.
Qed.

Lemma registry_step_spec self key module st :
  let st_b := snd (update self
                     (fun me => with_modules (dict_set (_modules me) key module) me) st) in
  dict_get (_modules (heap st_b self)) key = Some module /\
  vmaps st_b = vmaps st /\
  (forall l, attrs (heap st_b l) = attrs (heap st l) /\
             inputs (heap st_b l) = inputs (heap st l) /\
             outputs (heap st_b l) = outputs (heap st l) /\
             vocabs (heap st_b l) = vocabs (heap st l)) /\
  (forall l, l <> self -> _modules (heap st_b l) = _modules (heap st l)) /\
  (forall k, k <> key ->
     dict_get (_modules (heap st_b self)) k = dict_get (_modules (heap st self)) k).
Proof.
  intros st_b. subst st_b. split; [|split; [|split; [|split]]].
  - rewrite update_heap_eq. cbn. apply dict_get_set_eq.
  - reflexivity.
  - intros l. destruct (Nat.eq_dec l self) as [->|Hne].
    + rewrite update_heap_eq. repeat split.
    + rewrite update_heap_ne by assumption. repeat split.
  - intros l Hne. rewrite update_heap_ne by assumption. reflexivity.
  - intros k Hk. rewrite update_heap_eq. cbn. apply dict_get_set_ne. congruence.
Qed.

(** What a loop of [__set_module] leaves alone on a module [l]. *)
Lemma resolve_ports_others f (Hf : lawful f) module st st' l :
  (forall l, l <> module -> heap st' l = heap st l) ->
  heap st' module = wr f (rd f (heap st' module)) (heap st module) ->
  attrs (heap st' l) = attrs (heap st l) /\
  _modules (heap st' l) = _modules (heap st l) /\
  vocabs (heap st' l) = vocabs (heap st l).
Proof.
  intros Hoth Hmod. destruct (Nat.eq_dec l module) as [->|Hne].
  - rewrite Hmod, (wr_attrs f Hf), (wr_modules f Hf), (wr_vocabs f Hf). repeat split.
  - rewrite Hoth by assumption. repeat split.
Qed.

(** C2. When a module [v], whose ports carry positive dimensions under
    distinct names, is registered on [P] under [key]: [v.on_add(P)] is called, as the last
    step, on a store in which [v] is the child [key] of [P] and every port
    in [v.inputs] and [v.outputs] that carried an integer dimension [d]
    carries the vocabulary that [P.vocabs.get_or_create(d)] returns, the
    one the vocabulary map of [P] holds for [d]; the ports that carried
    something else, and the names and the order of all ports, are as they
    were.  What the map of [P] already held is kept, and no other
    vocabulary map, the child's own included, is changed. *)
Theorem registration_resolves_ports_then_calls_on_add
    (on_add : loc -> loc -> M unit) st (P v : loc) (key : string) :
  dict_wf (inputs (heap st v)) ->
  dict_wf (outputs (heap st v)) ->
  positive_dims (inputs (heap st v)) ->
  positive_dims (outputs (heap st v)) ->
  exists st',
    __set_module on_add P key v st = on_add v P st' /\
    dict_get (_modules (heap st' P)) key = Some v /\
    vocabs (heap st' P) = vocabs (heap st P) /\
    let vm := vmaps st' (vocabs (heap st P)) in
    inputs (heap st' v) = map (upgrade vm) (inputs (heap st v)) /\
    outputs (heap st' v) = map (upgrade vm) (outputs (heap st v)) /\
    (forall k obj d,
        In (k, (obj, BInt d)) (inputs (heap st v) ++ outputs (heap st v)) ->
        exists voc,
          vm !! d = Some voc /\
          get_or_create (vocabs (heap st P)) d st' = (Ok voc, st')) /\
    (forall d voc, vmaps st (vocabs (heap st P)) !! d = Some voc -> vm !! d = Some voc) /\
    (forall V, V <> vocabs (heap st P) -> vmaps st' V = vmaps st V).
Proof.
  intros Hwfi Hwfo Hposi Hposo.
  destruct (label_step_spec key v st) as (st_a & Ha & Hvm_a & Hfa).
  pose proof (registry_step_spec P key v st_a) as Hb.
  set (st_b := snd (update P
                      (fun me => with_modules (dict_set (_modules me) key v) me) st_a))
    in Hb.
  cbv zeta in Hb. destruct Hb as (Hreg_b & Hvm_b & Hfb & _ & _).
  assert (Hin_b : inputs (heap st_b v) = inputs (heap st v)).
  { destruct (Hfb v) as (_ & -> & _). destruct (Hfa v) as (_ & _ & -> & _). reflexivity. }
  assert (Hout_b : outputs (heap st_b v) = outputs (heap st v)).
  { destruct (Hfb v) as (_ & _ & -> & _). destruct (Hfa v) as (_ & _ & _ & -> & _).
    reflexivity. }
  assert (HV_b : vocabs (heap st_b P) = vocabs (heap st P)).
  { destruct (Hfb P) as (_ & _ & _ & ->). destruct (Hfa P) as (_ & _ & _ & _ & ->).
    reflexivity. }
  destruct (resolve_ports_spec inputs_field inputs_field_lawful P v
              (inputs (heap st_b v)) [] st_b)
    as (st_c & Hrun_c & Hrd_c & Hdom_c & Hext_c & Hoth_c & Hframe_c & Hmod_c).
  { reflexivity. }
  { cbn [app]. rewrite Hin_b. assumption. }
  { rewrite Hin_b. assumption. }
  rewrite HV_b in *. cbn [app rd wr inputs_field] in Hrd_c, Hmod_c.
  assert (Hout_c : outputs (heap st_c v) = outputs (heap st v)).
  { rewrite Hmod_c. cbn. assumption. }
  assert (HV_c : vocabs (heap st_c P) = vocabs (heap st P)).
  { destruct (resolve_ports_others inputs_field inputs_field_lawful v st_b st_c P
                Hframe_c Hmod_c) as (_ & _ & ->). assumption. }
  destruct (resolve_ports_spec outputs_field outputs_field_lawful P v
              (outputs (heap st_c v)) [] st_c)
    as (st_d & Hrun_d & Hrd_d & Hdom_d & Hext_d & Hoth_d & Hframe_d & Hmod_d).
  { reflexivity. }
  { cbn [app]. rewrite Hout_c. assumption. }
  { rewrite Hout_c. assumption. }
  rewrite HV_c in *. cbn [app rd wr outputs_field] in Hrd_d, Hmod_d.
  exists st_d.
  split; [|split; [|split; [|split; [|split; [|split; [|split]]]]]].
  - unfold __set_module, bind, deref. rewrite Ha.
    change (update P (fun me => with_modules (dict_set (_modules me) key v) me) st_a)
      with (Ok tt, st_b).
    cbn beta iota. rewrite Hrun_c. cbn beta iota. rewrite Hrun_d. reflexivity.
  - destruct (resolve_ports_others outputs_field outputs_field_lawful v st_c st_d P
                Hframe_d Hmod_d) as (_ & -> & _).
    destruct (resolve_ports_others inputs_field inputs_field_lawful v st_b st_c P
                Hframe_c Hmod_c) as (_ & -> & _).
    assumption.
  - destruct (resolve_ports_others outputs_field outputs_field_lawful v st_c st_d P
                Hframe_d Hmod_d) as (_ & _ & ->).
    assumption.
  - rewrite Hmod_d. cbn [inputs with_outputs]. rewrite Hrd_c, Hin_b.
    symmetry. apply map_upgrade_stable; [assumption|].
    intros k obj d Hin. eapply Hdom_c. rewrite Hin_b. eassumption.
  - rewrite Hrd_d, Hout_c. reflexivity.
  - intros k obj d Hin.
    assert (Hd : (0 < d)%Z).
    { apply in_app_or in Hin as [Hin|Hin]; [eapply Hposi|eapply Hposo]; eassumption. }
    assert (Hsome : is_Some (vmaps st_d (vocabs (heap st P)) !! d)).
    { apply in_app_or in Hin as [Hin|Hin].
      - destruct (Hdom_c k obj d) as [voc Hvoc]; [rewrite Hin_b; assumption|].
        exists voc. apply Hext_d. assumption.
      - eapply Hdom_d. rewrite Hout_c. eassumption. }
    destruct Hsome as [voc Hvoc]. exists voc. split; [assumption|].
    apply get_or_create_hit; assumption.
  - intros d voc H. apply Hext_d, Hext_c. rewrite Hvm_b, Hvm_a. assumption.
  - intros V HV. rewrite Hoth_d, Hoth_c by assumption. rewrite Hvm_b, Hvm_a.
    reflexivity.
Qed.

Ltac solve_wf :=
  unfold dict_wf; cbn;
  repeat (apply List.NoDup_cons;
          [ cbn; let H := fresh in intros H;
            repeat (destruct H as [H|H]; [discriminate H|]); exact H |]);
  apply List.NoDup_nil.

Ltac solve_positive :=
  let H := fresh in
  intros ? ? ? H; cbn in H;
  repeat (destruct H as [H|H]; [inversion H; subst; reflexivity|]);
  destruct H.

Lemma registration_resolves_ports_then_calls_on_add_witness :
  exists st',
    __set_module on_add_base 0 "vision" 1 sample_unresolved = on_add_base 1 0 st' /\
    dict_get (_modules (heap st' 0)) "vision" = Some 1 /\
    vocabs (heap st' 0) = 1 /\
    inputs (heap st' 1)
    = map (upgrade (vmaps st' 1)) [("default", (10, BInt 16)); ("aux", (11, BNone))] /\
    outputs (heap st' 1)
    = map (upgrade (vmaps st' 1)) [("default", (12, BInt 32)); ("raw", (13, BVocab 7))] /\
    (forall k obj d,
        In (k, (obj, BInt d))
           (inputs (heap sample_unresolved 1) ++ outputs (heap sample_unresolved 1)) ->
        exists voc,
          vmaps st' 1 !! d = Some voc /\ get_or_create 1 d st' = (Ok voc, st')) /\
    (forall d voc, vmaps sample_unresolved 1 !! d = Some voc ->
                   vmaps st' 1 !! d = Some voc) /\
    (forall V, V <> 1 -> vmaps st' V = vmaps sample_unresolved V).
Proof.
  apply (registration_resolves_ports_then_calls_on_add
           on_add_base sample_unresolved 0 1 "vision").
  - solve_wf.
  - solve_wf.
  - solve_positive.
  - solve_positive.
Defined.

(** The same registration, run: the dimension 16 becomes the vocabulary the
    map of [P] already had, the dimension 32 a new one in the map of [P];
    the map of the child stays empty. *)
Example registration_on_sample :
  let st' := snd (__set_module on_add_base 0 "vision" 1 sample_unresolved) in
  fst (__set_module on_add_base 0 "vision" 1 sample_unresolved) = Ok tt /\
  label (heap st' 1) = Some "vision" /\
  _modules (heap st' 0) = [("vision", 1)] /\
  inputs (heap st' 1) = [("default", (10, BVocab 100)); ("aux", (11, BNone))] /\
  outputs (heap st' 1) = [("default", (12, BVocab 101)); ("raw", (13, BVocab 7))] /\
  vmaps st' 1 !! 32%Z = Some 101 /\
  vmaps st' 2 = ∅.
Proof. vm_compute. repeat split. Qed.

(** ** A module attribute is assigned once *)

Lemma keeps_ret {A} I (a : A) : keeps I (ret a).
Proof. intros st H. exact H. Qed.

Lemma keeps_raise {A} I e : keeps I (@raise A e).
Proof. intros st H. exact H. Qed.

Lemma keeps_deref I l : keeps I (deref l).
Proof. intros st H. exact H. Qed.

Lemma keeps_pure {A} I (r : Outcome A) : keeps I (fun st => (r, st)).
Proof. intros st H. exact H. Qed.

Lemma keeps_bind {A B} I (m : M A) (k : A -> M B) :
  keeps I m -> (forall a, keeps I (k a)) -> keeps I (bind m k).
Proof.
  intros Hm Hk st H. unfold bind. specialize (Hm st H).
  destruct (m st) as [[a|e] st1]; cbn in *; [apply Hk|]; assumption.
Qed.

Lemma keeps_except_ValidationError {A} I (body : M A) handler :
  keeps I body -> (forall tb, keeps I (handler tb)) ->
  keeps I (except_ValidationError body handler).
Proof.
  intros Hb Hh st H. unfold except_ValidationError. specialize (Hb st H).
  destruct (body st) as [[a|e] st1]; cbn in *; [assumption|].
  destruct e; cbn; try assumption. apply Hh. assumption.
Qed.

Lemma field_write_attrs key value write :
  field_write key value = Some write -> forall m, attrs (write m) = attrs m.
Proof.
  unfold field_write.
  repeat match goal with
         | |- context [String.eqb ?a ?b] => destruct (String.eqb a b)
         end;
    intros H rec; destruct value; inversion H; reflexivity.
Qed.

Lemma field_write_modules key value write :
  field_write key value = Some write -> key <> "_modules" ->
  forall m, _modules (write m) = _modules m.
Proof.
  unfold field_write. intros H Hkey.
  destruct (String.eqb key "label");
    [intros rec; destruct value; inversion H; reflexivity|].
  destruct (String.eqb key "_modules") eqn:E;
    [apply String.eqb_eq in E; contradiction|].
  repeat match type of H with
         | context [String.eqb ?a ?b] => destruct (String.eqb a b)
         end;
    intros rec; destruct value; inversion H; reflexivity.
Qed.

Lemma field_write_module key m : field_write key (VModule m) = None.
Proof.
  unfold field_write.
  repeat match goal with
         | |- context [String.eqb ?a ?b] => destruct (String.eqb a b)
         end; reflexivity.
Qed.

Lemma field_write_field key value write :
  field_write key value = Some write -> is_field key = true.
Proof.
  unfold field_write, is_field. cbn [existsb].
  repeat match goal with
         | |- context [String.eqb ?a ?b] => destruct (String.eqb a b)
         end; cbn; first [reflexivity | discriminate].
Qed.

Lemma field_write_plain key value :
  is_field key = false -> field_write key value = None.
Proof.
  intros H. destruct (field_write key value) as [write|] eqn:E; [|reflexivity].
  apply field_write_field in E. congruence.
Qed.

Section Reassignment.

Variable on_add : loc -> loc -> M unit.
Variable config_default : string -> Outcome Value.
Variable validate : string -> Value -> bool.
Variable simplified : bool.

Variables (P : loc) (n : string) (m1 : loc).

(** The hook leaves the attribute [n] of [P] and its registry entry
    alone.  The hook of the base class does; so does any hook that goes
    through [__setattr__]. *)
Hypothesis on_add_keeps :
  forall module spa, keeps (fun st => registered st P n m1) (on_add module spa).

Let I := fun st => registered st P n m1.

Lemma keeps_update_registry l g :
  (forall m0, attrs (g m0) = attrs m0 /\ _modules (g m0) = _modules m0) ->
  keeps I (update l g).
Proof.
  intros Hg st [Ha Hm]. unfold I, registered.
  destruct (Nat.eq_dec P l) as [->|Hne].
  - rewrite update_heap_eq. destruct (Hg (heap st l)) as [-> ->]. auto.
  - rewrite update_heap_ne by assumption. auto.
Qed.

Lemma keeps_get_or_create V d : keeps I (get_or_create V d).
Proof.
  intros st H. unfold I, registered. rewrite get_or_create_heap. exact H.
Qed.

Lemma keeps_resolve_ports f (Hf : lawful f) self module items :
  keeps I (resolve_ports f self module items).
Proof.
  induction items as [|[k [obj b]] rest IH]; cbn [resolve_ports].
  - apply keeps_ret.
  - apply keeps_bind; [|intros _; exact IH].
    destruct b; try apply keeps_ret.
    apply keeps_bind; [apply keeps_deref|intros me].
    apply keeps_bind; [apply keeps_get_or_create|intros voc].
    apply keeps_update_registry. intros m0.
    rewrite (wr_attrs f Hf), (wr_modules f Hf). auto.
Qed.

Lemma keeps_set_module self key module :
  self <> P \/ key <> n -> keeps I (__set_module on_add self key module).
Proof.
  intros Hfresh. unfold __set_module.
  apply keeps_bind; [apply keeps_deref|intros m].
  apply keeps_bind.
  { destruct (label m); [apply keeps_ret|].
    apply keeps_update_registry. intros m0. auto. }
  intros _. apply keeps_bind.
  { intros st [Ha Hm]. unfold I, registered.
    destruct (Nat.eq_dec P self) as [<-|Hne].
    - rewrite update_heap_eq. cbn. split; [assumption|].
      rewrite dict_get_set_ne; [assumption|]. destruct Hfresh; congruence.
    - rewrite update_heap_ne by assumption. auto. }
  intros _. apply keeps_bind; [apply keeps_deref|intros m'].
  apply keeps_bind; [apply keeps_resolve_ports, inputs_field_lawful|intros _].
  apply keeps_bind; [apply keeps_deref|intros m''].
  apply keeps_bind; [apply keeps_resolve_ports, outputs_field_lawful|intros _].
  apply on_add_keeps.
Qed.

Lemma keeps_object_setattr self key value :
  self <> P \/ key <> n -> key <> "_modules" ->
  keeps I (object_setattr validate self key value).
Proof.
  intros Hfresh Hkey. unfold object_setattr.
  destruct (validate key value); [|apply keeps_raise].
  destruct (field_write key value) as [write|] eqn:E.
  - apply keeps_update_registry. intros m0. split.
    + apply (field_write_attrs _ _ _ E).
    + apply (field_write_modules _ _ _ E Hkey).
  - destruct (is_field key || is_special key); [apply keeps_raise|].
    intros st [Ha Hm]. unfold I, registered.
    destruct (Nat.eq_dec P self) as [<-|Hne].
    + rewrite update_heap_eq. cbn. split; [|assumption].
      rewrite lookup_insert_ne; [assumption|]. destruct Hfresh; congruence.
    + rewrite update_heap_ne by assumption. auto.
Qed.

(** Whatever is assigned, wherever, and however the assignment ends, a
    registered module stays registered, as long as it is not a registry
    that is assigned. *)
Lemma keeps_setattr self key value :
  key <> "_modules" ->
  keeps I (__setattr__ on_add config_default validate simplified self key value).
Proof.
  intros Hkey st HI. unfold __setattr__, bind at 1, deref.
  assert (Htail : forall (k : M unit),
             (self <> P \/ key <> n -> keeps I k) ->
             attrs (heap st self) !! key <> Some (VModule m1) ->
             I (snd (k st))).
  { intros k Hk Hattr. apply Hk; [|assumption].
    destruct (Nat.eq_dec self P) as [->|Hne]; [|left; assumption].
    right. intros ->. destruct HI as [Ha _]. contradiction. }
  assert (Hrest : self <> P \/ key <> n ->
            keeps I
              (bind match value with
                    | VDefault => fun st0 => (config_default key, st0)
                    | _ => ret value
                    end
                 (fun value0 =>
                    bind (if simplified
                          then except_ValidationError
                                 (object_setattr validate self key value0)
                                 (fun _ => raise (ValidationError false))
                          else object_setattr validate self key value0)
                      (fun _ => match value0 with
                                | VModule module => __set_module on_add self key module
                                | _ => ret tt
                                end)))).
  { intros Hfresh. apply keeps_bind.
    { destruct value; first [apply keeps_ret | apply keeps_pure]. }
    intros value0. apply keeps_bind.
    { destruct simplified.
      - apply keeps_except_ValidationError;
          [apply keeps_object_setattr; assumption|intros; apply keeps_raise].
      - apply keeps_object_setattr; assumption. }
    intros _. destruct value0; try apply keeps_ret.
    apply keeps_set_module. assumption. }
  destruct (attrs (heap st self) !! key) as [[]|] eqn:Hattr;
    first [exact HI | apply Htail; [assumption|discriminate]].
Qed.

Lemma keeps_run_assignments later :
  Forall leaves_registries later ->
  forall st, I st ->
    I (run_assignments on_add config_default validate simplified later st).
Proof.
  induction later as [|[[self key] value] later IH]; intros Hall st HI; [exact HI|].
  apply Forall_cons_iff in Hall as [[Hkey _] Hall].
  cbn [run_assignments fold_left]. apply IH; [assumption|].
  apply keeps_setattr; assumption.
Qed.

(** Once registered, the name is refused and nothing is touched. *)
Lemma setattr_refused st value :
  I st ->
  __setattr__ on_add config_default validate simplified P n value st
  = (Raise (SpaModuleError (CannotReassign n value)), st).
Proof.
  intros [Ha _]. unfold __setattr__, bind, deref. rewrite Ha. reflexivity.
Qed.

Lemma ensures_bind {A B} (J K Q : State -> Prop) (m : M A) (k : A -> M B) :
  ensures J m K -> (forall a, ensures K (k a) Q) -> ensures J (bind m k) Q.
Proof.
  intros Hm Hk st HJ b st' H. unfold bind in H.
  destruct (m st) as [[a|e] st1] eqn:E; [|discriminate].
  eapply Hk; [|exact H]. eapply Hm; eassumption.
Qed.

Lemma ensures_of_keeps {A} (K : State -> Prop) (m : M A) : keeps K m -> ensures K m K.
Proof.
  intros Hk st HK a st' H. specialize (Hk st HK). rewrite H in Hk. exact Hk.
Qed.

(** From the attribute set to the module registered: what [__set_module]
    adds when it returns. *)
Lemma set_module_registers :
  ensures (fun st => attrs (heap st P) !! n = Some (VModule m1))
          (__set_module on_add P n m1) I.
Proof.
  set (J := fun st => attrs (heap st P) !! n = Some (VModule m1)).
  unfold __set_module.
  apply (ensures_bind J J); [apply ensures_of_keeps, keeps_deref|intros m].
  apply (ensures_bind J J).
  { apply ensures_of_keeps. destruct (label m); [apply keeps_ret|].
    intros st HJ. unfold J in *. destruct (Nat.eq_dec P m1) as [->|Hne].
    - rewrite update_heap_eq. exact HJ.
    - rewrite update_heap_ne by assumption. exact HJ. }
  intros _. apply (ensures_bind J I).
  { intros st HJ a st' H.
    assert (Hst : snd (update P (fun me => with_modules (dict_set (_modules me) n m1) me)
                         st) = st') by (rewrite H; reflexivity).
    subst st'. unfold I, registered.
    rewrite update_heap_eq. cbn. split; [exact HJ|apply dict_get_set_eq]. }
  intros _. apply ensures_of_keeps.
  apply keeps_bind; [apply keeps_deref|intros m'].
  apply keeps_bind; [apply keeps_resolve_ports, inputs_field_lawful|intros _].
  apply keeps_bind; [apply keeps_deref|intros m''].
  apply keeps_bind; [apply keeps_resolve_ports, outputs_field_lawful|intros _].
  apply on_add_keeps.
Qed.

Lemma setattr_registers st :
  fst (__setattr__ on_add config_default validate simplified P n (VModule m1) st)
  = Ok tt ->
  I (snd (__setattr__ on_add config_default validate simplified P n (VModule m1) st)).
Proof.
  intros H.
  destruct (__setattr__ on_add config_default validate simplified P n (VModule m1) st)
    as [r st'] eqn:E. cbn in H |- *. subst r.
  unfold __setattr__, bind at 1, deref in E.
  assert (Htail :
            bind (ret (VModule m1))
              (fun value0 =>
                 bind (if simplified
                       then except_ValidationError
                              (object_setattr validate P n value0)
                              (fun _ => raise (ValidationError false))
                       else object_setattr validate P n value0)
                   (fun _ => match value0 with
                             | VModule module => __set_module on_add P n module
                             | _ => ret tt
                             end)) st = (Ok tt, st') -> I st').
  { clear E. unfold bind at 1, ret. unfold bind, object_setattr.
    rewrite field_write_module.
    destruct (validate n (VModule m1));
      [destruct (is_field n || is_special n)|].
    - destruct simplified; discriminate.
    - intros E.
      assert (E' : __set_module on_add P n m1
                     (snd (update P (fun me => with_attrs (<[n:=VModule m1]> (attrs me)) me)
                             st)) = (Ok tt, st'))
        by (destruct simplified; exact E).
      eapply set_module_registers; [|exact E'].
      rewrite update_heap_eq. cbn. apply lookup_insert_eq.
    - destruct simplified; discriminate. }
  destruct (attrs (heap st P) !! n) as [[]|];
    first [discriminate | apply Htail; exact E].
Qed.

(** C1. After a module [m1] has been registered on [P] under the name [n]
    by an attribute assignment that returned, and after any series of
    further attribute assignments on any modules, none of which replaces
    a child registry as a whole (the attribute [_modules]) or the
    instance dictionary or class of a module: assigning the attribute [n]
    of [P] again, whatever the new value, raises the [SpaModuleError]
    that refuses the re-assignment, leaves the store as it was, and the
    child registry of [P] still maps [n] to [m1].  The [on_add] hooks are
    those of the section: they leave the attribute and the registry entry
    of a registered module alone. *)
Theorem module_attribute_is_assigned_once st later (value : Value) :
  fst (__setattr__ on_add config_default validate simplified P n (VModule m1) st)
  = Ok tt ->
  Forall leaves_registries later ->
  let st1 :=
    snd (__setattr__ on_add config_default validate simplified P n (VModule m1) st) in
  let st2 := run_assignments on_add config_default validate simplified later st1 in
  __setattr__ on_add config_default validate simplified P n value st2
  = (Raise (SpaModuleError (CannotReassign n value)), st2) /\
  dict_get (_modules (heap st2 P)) n = Some m1.
Proof.
  intros Hok Hlater st1 st2.
  assert (H2 : I st2)
    by (apply keeps_run_assignments; [exact Hlater|apply setattr_registers; exact Hok]).
  split; [apply setattr_refused; exact H2|]. destruct H2 as [_ Hm]. exact Hm.
Qed.

End Reassignment.

Lemma module_attribute_is_assigned_once_witness :
  let st1 :=
    snd (__setattr__ on_add_base config_default_none validate_all true
           0 "vision" (VModule 1) sample_unresolved) in
  let st2 :=
    run_assignments on_add_base config_default_none validate_all true
      [(0, "gain", VOther 3); (1, "inner", VModule 0); (0, "vision", VModule 0)] st1 in
  __setattr__ on_add_base config_default_none validate_all true
    0 "vision" (VOther 9) st2
  = (Raise (SpaModuleError (CannotReassign "vision" (VOther 9))), st2) /\
  dict_get (_modules (heap st2 0)) "vision" = Some 1.
Proof.
  apply (module_attribute_is_assigned_once
           on_add_base config_default_none validate_all true 0 "vision" 1).
  - intros module spa st H. exact H.
  - reflexivity.
  - repeat constructor; discriminate.
Defined.

(** The registry is an attribute like any other: assigning [_modules] as a
    whole drops what was registered, while the attribute of the child
    stays and its re-assignment is still refused. *)
Example registry_replaced_as_a_whole :
  let sa := __setattr__ on_add_base config_default_none validate_all true in
  let st1 := snd (sa 0 "vision" (VModule 1) sample_unresolved) in
  let st2 := snd (sa 0 "_modules" (VRegistry []) st1) in
  dict_get (_modules (heap st1 0)) "vision" = Some 1 /\
  fst (sa 0 "_modules" (VRegistry []) st1) = Ok tt /\
  dict_get (_modules (heap st2 0)) "vision" = None /\
  sa 0 "vision" (VOther 9) st2
  = (Raise (SpaModuleError (CannotReassign "vision" (VOther 9))), st2).
Proof. repeat split; reflexivity. Qed.

(** * Further properties *)

(** ** Paths of several segments *)

Lemma split1_dotted n rest :
  contains dot n = false ->
  split1 dot (String.append n (String.append "." rest)) = Some (n, rest).
Proof. intros H. apply (split1_app dot n rest H). Qed.

Lemma then_warn_Ok {A} (r : Outcome A * State) a st' :
  then_warn r = (Ok a, st') -> exists st0, r = (Ok a, st0).
Proof.
  destruct r as [[a0|e] st0]; cbn; intros H; inversion H; subst.
  exists st0. reflexivity.
Qed.

(** X1. A dotted path that names, segment by segment, children registered
    under dot-free names resolves to the module registered under its last
    segment, with or without [strip_output], and leaves the state as it
    was; one level of call depth per segment is enough. *)
Theorem get_module_follows_registry depth st (P Q R : loc)
    (names : list string) (last : string) (strip : bool) :
  follows st P names Q ->
  contains dot last = false ->
  dict_get (_modules (heap st Q)) last = Some R ->
  get_module (length names + S depth) P (dotted names last) strip st = (Ok R, st).
Proof.
  intros Hf Hlast HR. revert P Hf.
  induction names as [|n rest IH]; intros P Hf; cbn in Hf.
  - subst Q. cbn [length dotted Nat.add].
    rewrite get_module_leaf by (apply split1_None; assumption).
    rewrite HR. reflexivity.
  - destruct Hf as (Hn & c & Hc & Hrest). cbn [length dotted Nat.add].
    rewrite (get_module_dotted _ P _ n (dotted rest last) c strip st).
    + apply IH. assumption.
    + apply split1_dotted. assumption.
    + assumption.
Qed.

Lemma get_module_follows_registry_witness :
  get_module 3 0 "a.b" false sample_deep = (Ok 2, sample_deep).
Proof.
  apply (get_module_follows_registry 1 sample_deep 0 1 2 ["a"] "b" false).
  - cbn. split; [reflexivity|]. exists 1. split; reflexivity.
  - reflexivity.
  - reflexivity.
Defined.

(** X2. A dotted path that follows registered children and ends in the
    name of a port of the module it arrives at resolves to that port:
    [get_module_input] to the input port, [get_module_output] to the
    output port.  No warning is emitted and the state is as it was. *)
Theorem port_path_follows_registry depth st (P Q : loc)
    (names : list string) (last : string) :
  follows st P names Q ->
  contains dot last = false ->
  (forall port, dict_get (inputs (heap st Q)) last = Some port ->
     get_module_input (length names + S depth) P (dotted names last) st
     = (Ok port, st)) /\
  (forall port, dict_get (outputs (heap st Q)) last = Some port ->
     get_module_output (length names + S depth) P (dotted names last) st
     = (Ok port, st)).
Proof.
  intros Hf Hlast. revert P Hf.
  induction names as [|n rest IH]; intros P Hf; cbn in Hf.
  - subst Q. cbn [length dotted Nat.add]. split; intros port Hp.
    + apply get_module_input_own; [apply split1_None|]; assumption.
    + apply get_module_output_own; [apply split1_None|]; assumption.
  - destruct Hf as (Hn & c & Hc & Hrest). cbn [length dotted Nat.add].
    destruct (IH c Hrest) as [IHi IHo]. split; intros port Hp.
    + rewrite (get_module_input_dotted _ P _ n (dotted rest last) c st);
        [apply IHi|apply split1_dotted|]; assumption.
    + rewrite (get_module_output_dotted _ P _ n (dotted rest last) c st);
        [apply IHo|apply split1_dotted|]; assumption.
Qed.

Lemma port_path_follows_registry_witness :
  get_module_input 3 0 "a.b.x" sample_deep = (Ok (10, BVocab 0), sample_deep) /\
  get_module_output 3 0 "a.b.x" sample_deep = (Ok (11, BVocab 0), sample_deep).
Proof.
  destruct (port_path_follows_registry 0 sample_deep 0 2 ["a"; "b"] "x") as [Hi Ho].
  - cbn. split; [reflexivity|]. exists 1. split; [reflexivity|].
    split; [reflexivity|]. exists 2. split; reflexivity.
  - reflexivity.
  - split; [apply Hi|apply Ho]; reflexivity.
Defined.

(** ** What resolution can return *)

Lemma descends_step st P n c :
  dict_get (_modules (heap st P)) n = Some c -> descends st P c.
Proof. intros H. eapply descends_child; [eassumption|apply descends_here]. Qed.

(** X3. The module [get_module] returns lies in the registry tree under the
    module it is called on: it is that module itself, which can only happen
    with [strip_output], or it is registered as a child of that module or
    of a module below it. *)
Theorem get_module_returns_descendant depth :
  forall st (P Q : loc) (name : string) (strip : bool) st',
    get_module depth P name strip st = (Ok Q, st') ->
    descends st P Q /\
    (strip = false ->
     exists parent n,
       descends st P parent /\ dict_get (_modules (heap st parent)) n = Some Q).
Proof.
  induction depth as [|depth IH]; intros st P Q name strip st' H; [discriminate|].
  destruct (split1 dot name) as [[head tail]|] eqn:Hs.
  - destruct (dict_get (_modules (heap st P)) head) as [child|] eqn:Hg.
    + rewrite (get_module_dotted depth _ _ _ _ _ _ _ Hs Hg) in H.
      destruct (IH _ _ _ _ _ _ H) as [Hd Hp]. split.
      * eapply descends_child; eassumption.
      * intros Hstrip. destruct (Hp Hstrip) as (parent & n & Hdp & Hn).
        exists parent, n. split; [|assumption].
        eapply descends_child; eassumption.
    + rewrite (get_module_dotted_miss depth _ _ _ _ _ _ Hs Hg) in H. discriminate.
  - rewrite (get_module_leaf depth _ _ _ _ Hs) in H.
    destruct (dict_get (_modules (heap st P)) name) as [child|] eqn:Hg.
    + inversion H; subst. split.
      * eapply descends_step. eassumption.
      * intros _. exists P, name. split; [apply descends_here|assumption].
    + destruct strip; cbn [andb] in H.
      * destruct (dict_mem (inputs (heap st P)) name
                  || dict_mem (outputs (heap st P)) name); [|discriminate].
        inversion H; subst. split; [apply descends_here|discriminate].
      * discriminate.
Qed.

Lemma get_module_returns_descendant_witness :
  descends sample_deep 0 2 /\
  (false = false ->
   exists parent n,
     descends sample_deep 0 parent /\
     dict_get (_modules (heap sample_deep parent)) n = Some 2).
Proof.
  apply (get_module_returns_descendant 3 sample_deep 0 2 "a.b" false sample_deep).
  reflexivity.
Defined.

(** X4. The pair [get_module_input] returns is an entry of the [inputs] of
    the module it is called on or of a module below it in the registry
    tree; likewise [get_module_output] and [outputs]. *)
Theorem resolved_port_belongs_to_descendant depth :
  forall st (P : loc) (name : string) (port : Port) st',
    (get_module_input depth P name st = (Ok port, st') ->
     exists Q k, descends st P Q /\ dict_get (inputs (heap st Q)) k = Some port) /\
    (get_module_output depth P name st = (Ok port, st') ->
     exists Q k, descends st P Q /\ dict_get (outputs (heap st Q)) k = Some port).
Proof.
  induction depth as [|depth IH]; intros st P name port st';
    [split; discriminate|].
  assert (Hup : forall c n (F : loc -> string -> Prop),
             dict_get (_modules (heap st P)) n = Some c ->
             (exists Q k, descends st c Q /\ F Q k) ->
             exists Q k, descends st P Q /\ F Q k).
  { intros c n F Hc (Q & k & Hd & HF). exists Q, k. split; [|assumption].
    eapply descends_child; eassumption. }
  split; intros H.
  - destruct (split1 dot name) as [[head tail]|] eqn:Hs.
    + destruct (dict_get (_modules (heap st P)) head) as [child|] eqn:Hg.
      * rewrite (get_module_input_dotted depth _ _ _ _ _ _ Hs Hg) in H.
        apply (Hup child head
                 (fun Q k => dict_get (inputs (heap st Q)) k = Some port) Hg).
        apply (proj1 (IH _ _ _ _ _) H).
      * rewrite (get_module_input_dotted_miss depth _ _ _ _ _ Hs Hg) in H.
        discriminate.
    + destruct (dict_get (inputs (heap st P)) name) as [own|] eqn:Hi.
      { rewrite (get_module_input_own depth _ _ _ _ Hs Hi) in H.
        inversion H; subst. exists P, name. split; [apply descends_here|assumption]. }
      destruct (dict_get (_modules (heap st P)) name) as [child|] eqn:Hm.
      { rewrite (get_module_input_child depth _ _ _ _ Hs Hi Hm) in H.
        apply (Hup child name
                 (fun Q k => dict_get (inputs (heap st Q)) k = Some port) Hm).
        apply (proj1 (IH _ _ _ _ _) H). }
      destruct (rsplit1 underscore name) as [[head tail]|] eqn:Hr.
      * destruct (dict_get (_modules (heap st P)) head) as [child|] eqn:Hg.
        -- rewrite (get_module_input_underscore depth _ _ _ _ _ _ Hs Hi Hm Hr Hg) in H.
           apply then_warn_Ok in H as [st0 H].
           apply (Hup child head
                 (fun Q k => dict_get (inputs (heap st Q)) k = Some port) Hg).
        apply (proj1 (IH _ _ _ _ _) H).
        -- rewrite get_module_input_miss in H; try assumption; [discriminate|].
           rewrite Hr. assumption.
      * rewrite get_module_input_miss in H; try assumption; [discriminate|].
        rewrite Hr. exact I.
  - destruct (split1 dot name) as [[head tail]|] eqn:Hs.
    + destruct (dict_get (_modules (heap st P)) head) as [child|] eqn:Hg.
      * rewrite (get_module_output_dotted depth _ _ _ _ _ _ Hs Hg) in H.
        apply (Hup child head
                 (fun Q k => dict_get (outputs (heap st Q)) k = Some port) Hg).
        apply (proj2 (IH _ _ _ _ _) H).
      * rewrite (get_module_output_dotted_miss depth _ _ _ _ _ Hs Hg) in H.
        discriminate.
    + destruct (dict_get (outputs (heap st P)) name) as [own|] eqn:Hi.
      { rewrite (get_module_output_own depth _ _ _ _ Hs Hi) in H.
        inversion H; subst. exists P, name. split; [apply descends_here|assumption]. }
      destruct (dict_get (_modules (heap st P)) name) as [child|] eqn:Hm.
      { rewrite (get_module_output_child depth _ _ _ _ Hs Hi Hm) in H.
        apply (Hup child name
                 (fun Q k => dict_get (outputs (heap st Q)) k = Some port) Hm).
        apply (proj2 (IH _ _ _ _ _) H). }
      destruct (rsplit1 underscore name) as [[head tail]|] eqn:Hr.
      * destruct (dict_get (_modules (heap st P)) head) as [child|] eqn:Hg.
        -- rewrite (get_module_output_underscore depth _ _ _ _ _ _ Hs Hi Hm Hr Hg) in H.
           apply then_warn_Ok in H as [st0 H].
           apply (Hup child head
                 (fun Q k => dict_get (outputs (heap st Q)) k = Some port) Hg).
        apply (proj2 (IH _ _ _ _ _) H).
        -- rewrite get_module_output_miss in H; try assumption; [discriminate|].
           rewrite Hr. assumption.
      * rewrite get_module_output_miss in H; try assumption; [discriminate|].
        rewrite Hr. exact I.
Qed.

(** X5. With [strip_output], a path that leads to a child and ends in the
    name of one of that child's ports, a name no child of it is registered
    under, resolves to the child itself; without [strip_output] the same
    path fails, and the error names the port. *)
Theorem strip_output_returns_owner depth st (A B : loc) (b X : string) :
  contains dot b = false ->
  contains dot X = false ->
  dict_get (_modules (heap st A)) b = Some B ->
  dict_get (_modules (heap st B)) X = None ->
  dict_mem (inputs (heap st B)) X || dict_mem (outputs (heap st B)) X = true ->
  let path := String.append b (String.append "." X) in
  get_module (S (S depth)) A path true st = (Ok B, st) /\
  get_module (S (S depth)) A path false st
  = (Raise (SpaModuleError (NoModule X)), st).
Proof.
  intros Hb HX Hc Hn Hport path.
  assert (Hs : split1 dot path = Some (b, X)) by (apply split1_dotted; assumption).
  apply split1_None in HX.
  split; rewrite (get_module_dotted _ A _ b X B _ st Hs Hc), (get_module_leaf _ _ _ _ _ HX),
           Hn.
  - rewrite Hport. reflexivity.
  - reflexivity.
Qed.

Lemma strip_output_returns_owner_witness :
  get_module 2 0 "B.X" true sample_AB = (Ok 1, sample_AB) /\
  get_module 2 0 "B.X" false sample_AB
  = (Raise (SpaModuleError (NoModule "X")), sample_AB).
Proof.
  apply (strip_output_returns_owner 0 sample_AB 0 1 "B" "X"); reflexivity.
Defined.

Lemma resolved_port_belongs_to_descendant_witness :
  exists Q k,
    descends sample_deep 0 Q /\
    dict_get (inputs (heap sample_deep Q)) k = Some (10, BVocab 0).
Proof.
  apply (proj1 (resolved_port_belongs_to_descendant 3 sample_deep 0 "a.b_x"
                  (10, BVocab 0) (snd (warn DeprecationWarning sample_deep)))).
  reflexivity.
Defined.

(** ** Warnings and the state *)

Lemma split1_tail_no_underscore name head tail :
  split1 dot name = Some (head, tail) ->
  contains underscore name = false -> contains underscore tail = false.
Proof.
  intros Hs Hu. apply split1_Some in Hs as [-> _].
  rewrite contains_app in Hu. apply orb_false_iff in Hu as [_ Hu].
  cbn [contains] in Hu. apply orb_false_iff in Hu as [_ Hu]. assumption.
Qed.

Lemma get_module_input_quiet depth :
  forall P name st,
    contains underscore name = false ->
    snd (get_module_input depth P name st) = st.
Proof.
  induction depth as [|depth IH]; intros P name st Hu; [reflexivity|].
  destruct (split1 dot name) as [[head tail]|] eqn:Hs.
  - destruct (dict_get (_modules (heap st P)) head) as [child|] eqn:Hg.
    + rewrite (get_module_input_dotted depth _ _ _ _ _ _ Hs Hg).
      apply IH. eapply split1_tail_no_underscore; eassumption.
    + rewrite (get_module_input_dotted_miss depth _ _ _ _ _ Hs Hg). reflexivity.
  - destruct (dict_get (inputs (heap st P)) name) as [own|] eqn:Hi.
    { rewrite (get_module_input_own depth _ _ _ _ Hs Hi). reflexivity. }
    destruct (dict_get (_modules (heap st P)) name) as [child|] eqn:Hm.
    { rewrite (get_module_input_child depth _ _ _ _ Hs Hi Hm). apply IH. reflexivity. }
    rewrite get_module_input_miss; try assumption; [reflexivity|].
    apply rsplit1_None in Hu. rewrite Hu. exact I.
Qed.

Lemma get_module_output_quiet depth :
  forall P name st,
    contains underscore name = false ->
    snd (get_module_output depth P name st) = st.
Proof.
  induction depth as [|depth IH]; intros P name st Hu; [reflexivity|].
  destruct (split1 dot name) as [[head tail]|] eqn:Hs.
  - destruct (dict_get (_modules (heap st P)) head) as [child|] eqn:Hg.
    + rewrite (get_module_output_dotted depth _ _ _ _ _ _ Hs Hg).
      apply IH. eapply split1_tail_no_underscore; eassumption.
    + rewrite (get_module_output_dotted_miss depth _ _ _ _ _ Hs Hg). reflexivity.
  - destruct (dict_get (outputs (heap st P)) name) as [own|] eqn:Hi.
    { rewrite (get_module_output_own depth _ _ _ _ Hs Hi). reflexivity. }
    destruct (dict_get (_modules (heap st P)) name) as [child|] eqn:Hm.
    { rewrite (get_module_output_child depth _ _ _ _ Hs Hi Hm). apply IH. reflexivity. }
    rewrite get_module_output_miss; try assumption; [reflexivity|].
    apply rsplit1_None in Hu. rewrite Hu. exact I.
Qed.

(** X6. Resolving a port by a path that has no underscore in it emits no
    deprecation warning: whether [get_module_input], [get_module_output],
    [get_input_vocab] or [get_output_vocab] returns or raises, the state,
    warnings included, is what it was. *)
Theorem path_without_underscore_is_quiet depth st (P : loc) (name : string) :
  contains underscore name = false ->
  snd (get_module_input depth P name st) = st /\
  snd (get_module_output depth P name st) = st /\
  snd (get_input_vocab depth P name st) = st /\
  snd (get_output_vocab depth P name st) = st.
Proof.
  intros Hu. split; [|split; [|split]].
  - apply get_module_input_quiet. assumption.
  - apply get_module_output_quiet. assumption.
  - destruct depth as [|depth]; [reflexivity|]. cbn [get_input_vocab]. unfold bind.
    pose proof (get_module_input_quiet depth P name st Hu) as H.
    destruct (get_module_input depth P name st) as [[port|e] st']; exact H.
  - destruct depth as [|depth]; [reflexivity|]. cbn [get_output_vocab]. unfold bind.
    pose proof (get_module_output_quiet depth P name st Hu) as H.
    destruct (get_module_output depth P name st) as [[port|e] st']; exact H.
Qed.

Lemma path_without_underscore_is_quiet_witness :
  snd (get_module_input 3 0 "B.X" sample_AB) = sample_AB /\
  snd (get_module_output 3 0 "B.X" sample_AB) = sample_AB /\
  snd (get_input_vocab 3 0 "B.X" sample_AB) = sample_AB /\
  snd (get_output_vocab 3 0 "B.X" sample_AB) = sample_AB.
Proof.
  apply (path_without_underscore_is_quiet 3 sample_AB 0 "B.X"). reflexivity.
Defined.

Lemma get_module_input_one_warning depth :
  forall P name st,
    snd (get_module_input depth P name st) = st \/
    exists port,
      get_module_input depth P name st
      = (Ok port, snd (warn DeprecationWarning st)).
Proof.
  induction depth as [|depth IH]; intros P name st; [left; reflexivity|].
  destruct (split1 dot name) as [[head tail]|] eqn:Hs.
  - destruct (dict_get (_modules (heap st P)) head) as [child|] eqn:Hg.
    + rewrite (get_module_input_dotted depth _ _ _ _ _ _ Hs Hg). apply IH.
    + rewrite (get_module_input_dotted_miss depth _ _ _ _ _ Hs Hg). left. reflexivity.
  - destruct (dict_get (inputs (heap st P)) name) as [own|] eqn:Hi.
    { rewrite (get_module_input_own depth _ _ _ _ Hs Hi). left. reflexivity. }
    destruct (dict_get (_modules (heap st P)) name) as [child|] eqn:Hm.
    { rewrite (get_module_input_child depth _ _ _ _ Hs Hi Hm). apply IH. }
    destruct (rsplit1 underscore name) as [[head tail]|] eqn:Hr.
    + destruct (dict_get (_modules (heap st P)) head) as [child|] eqn:Hg.
      * rewrite (get_module_input_underscore depth _ _ _ _ _ _ Hs Hi Hm Hr Hg).
        destruct (underscore_tail_atomic _ _ _ Hs Hr) as [_ Hu].
        pose proof (get_module_input_quiet depth child tail st Hu) as Hq.
        destruct (get_module_input depth child tail st) as [[port|e] st0];
          cbn in Hq; subst st0; cbn [then_warn].
        -- right. exists port. reflexivity.
        -- left. reflexivity.
      * rewrite get_module_input_miss; try assumption; [left; reflexivity|].
        rewrite Hr. assumption.
    + rewrite get_module_input_miss; try assumption; [left; reflexivity|].
      rewrite Hr. exact I.
Qed.

Lemma get_module_output_one_warning depth :
  forall P name st,
    snd (get_module_output depth P name st) = st \/
    exists port,
      get_module_output depth P name st
      = (Ok port, snd (warn DeprecationWarning st)).
Proof.
  induction depth as [|depth IH]; intros P name st; [left; reflexivity|].
  destruct (split1 dot name) as [[head tail]|] eqn:Hs.
  - destruct (dict_get (_modules (heap st P)) head) as [child|] eqn:Hg.
    + rewrite (get_module_output_dotted depth _ _ _ _ _ _ Hs Hg). apply IH.
    + rewrite (get_module_output_dotted_miss depth _ _ _ _ _ Hs Hg). left. reflexivity.
  - destruct (dict_get (outputs (heap st P)) name) as [own|] eqn:Hi.
    { rewrite (get_module_output_own depth _ _ _ _ Hs Hi). left. reflexivity. }
    destruct (dict_get (_modules (heap st P)) name) as [child|] eqn:Hm.
    { rewrite (get_module_output_child depth _ _ _ _ Hs Hi Hm). apply IH. }
    destruct (rsplit1 underscore name) as [[head tail]|] eqn:Hr.
    + destruct (dict_get (_modules (heap st P)) head) as [child|] eqn:Hg.
      * rewrite (get_module_output_underscore depth _ _ _ _ _ _ Hs Hi Hm Hr Hg).
        destruct (underscore_tail_atomic _ _ _ Hs Hr) as [_ Hu].
        pose proof (get_module_output_quiet depth child tail st Hu) as Hq.
        destruct (get_module_output depth child tail st) as [[port|e] st0];
          cbn in Hq; subst st0; cbn [then_warn].
        -- right. exists port. reflexivity.
        -- left. reflexivity.
      * rewrite get_module_output_miss; try assumption; [left; reflexivity|].
        rewrite Hr. assumption.
    + rewrite get_module_output_miss; try assumption; [left; reflexivity|].
      rewrite Hr. exact I.
Qed.

(** X7. A resolution of a port that fails leaves the state, warnings
    included, exactly as it was; one that returns has emitted at most one
    deprecation warning and changed nothing else. *)
Theorem resolution_warns_at_most_once depth st (P : loc) (name : string) :
  (forall e st',
      get_module_input depth P name st = (Raise e, st') -> st' = st) /\
  (forall port st',
      get_module_input depth P name st = (Ok port, st') ->
      st' = st \/ st' = snd (warn DeprecationWarning st)) /\
  (forall e st',
      get_module_output depth P name st = (Raise e, st') -> st' = st) /\
  (forall port st',
      get_module_output depth P name st = (Ok port, st') ->
      st' = st \/ st' = snd (warn DeprecationWarning st)).
Proof.
  split; [|split; [|split]].
  - intros e st' H.
    destruct (get_module_input_one_warning depth P name st) as [Hq|[port Hw]].
    + rewrite H in Hq. exact Hq.
    + rewrite H in Hw. discriminate.
  - intros port st' H.
    destruct (get_module_input_one_warning depth P name st) as [Hq|[port' Hw]].
    + rewrite H in Hq. left. exact Hq.
    + rewrite H in Hw. inversion Hw. right. reflexivity.
  - intros e st' H.
    destruct (get_module_output_one_warning depth P name st) as [Hq|[port Hw]].
    + rewrite H in Hq. exact Hq.
    + rewrite H in Hw. discriminate.
  - intros port st' H.
    destruct (get_module_output_one_warning depth P name st) as [Hq|[port' Hw]].
    + rewrite H in Hq. left. exact Hq.
    + rewrite H in Hw. inversion Hw. right. reflexivity.
Qed.

Lemma resolution_warns_at_most_once_witness :
  snd (warn DeprecationWarning sample_AB) = sample_AB \/
  snd (warn DeprecationWarning sample_AB) = snd (warn DeprecationWarning sample_AB).
Proof.
  apply (proj1 (proj2 (resolution_warns_at_most_once 2 sample_AB 0 "B_X"))
           (11, BVocab 1)).
  reflexivity.
Defined.

(** X8. [get_module] changes nothing and warns of nothing: whatever the
    path and the flag, and whether it returns or raises, the state after
    the call is the state before it. *)
Theorem get_module_leaves_state depth :
  forall st (P : loc) (name : string) (strip : bool),
    snd (get_module depth P name strip st) = st.
Proof.
  induction depth as [|depth IH]; intros st P name strip; [reflexivity|].
  destruct (split1 dot name) as [[head tail]|] eqn:Hs.
  - destruct (dict_get (_modules (heap st P)) head) as [child|] eqn:Hg.
    + rewrite (get_module_dotted depth _ _ _ _ _ _ _ Hs Hg). apply IH.
    + rewrite (get_module_dotted_miss depth _ _ _ _ _ _ Hs Hg). reflexivity.
  - rewrite (get_module_leaf depth _ _ _ _ Hs).
    destruct (dict_get (_modules (heap st P)) name); [reflexivity|].
    destruct (strip && _); reflexivity.
Qed.

(** ** How much call depth resolution needs *)

Lemma count_app sep a b :
  count sep (String.append a b) = count sep a + count sep b.
Proof.
  induction a as [|c a IH]; [reflexivity|].
  change (String.append (String c a) b) with (String c (String.append a b)).
  cbn [count]. rewrite IH. lia.
Qed.

Lemma count_absent sep s : contains sep s = false -> count sep s = 0.
Proof.
  induction s as [|c s IH]; cbn; [reflexivity|]. intros H.
  apply orb_false_iff in H as [Hc Hs]. rewrite Hc, (IH Hs). reflexivity.
Qed.

Lemma split1_count sep s h t :
  split1 sep s = Some (h, t) -> count sep s = S (count sep t).
Proof.
  intros H. apply split1_Some in H as [-> Hh].
  rewrite count_app, (count_absent _ _ Hh). cbn [count].
  rewrite Ascii.eqb_refl. reflexivity.
Qed.

Lemma then_warn_not_RecursionError {A} (r : Outcome A * State) :
  fst r <> Raise RecursionError -> fst (then_warn r) <> Raise RecursionError.
Proof. destruct r as [[a|e] st]; cbn; [discriminate|auto]. Qed.

(** X9. [get_module] ends within one call per segment: with more call
    depth left than the path has dots it never raises [RecursionError],
    whatever the registries look like. *)
Theorem get_module_depth_bound depth :
  forall st (P : loc) (name : string) (strip : bool),
    count dot name < depth ->
    fst (get_module depth P name strip st) <> Raise RecursionError.
Proof.
  induction depth as [|depth IH]; intros st P name strip Hlt; [lia|].
  destruct (split1 dot name) as [[head tail]|] eqn:Hs.
  - destruct (dict_get (_modules (heap st P)) head) as [child|] eqn:Hg.
    + rewrite (get_module_dotted depth _ _ _ _ _ _ _ Hs Hg). apply IH.
      apply split1_count in Hs. lia.
    + rewrite (get_module_dotted_miss depth _ _ _ _ _ _ Hs Hg). discriminate.
  - rewrite (get_module_leaf depth _ _ _ _ Hs).
    destruct (dict_get (_modules (heap st P)) name); [discriminate|].
    destruct (strip && _); discriminate.
Qed.

Lemma get_module_depth_bound_witness :
  fst (get_module 2 0 "a.nowhere" true sample_deep) <> Raise RecursionError.
Proof.
  apply (get_module_depth_bound 2 sample_deep 0 "a.nowhere" true). cbn. lia.
Defined.

Section DepthOfPorts.

Variable st : State.
Hypothesis Hnd : no_default_child st.

Lemma default_input_ends depth c :
  fst (get_module_input (S depth) c "default" st) <> Raise RecursionError.
Proof.
  destruct (dict_get (inputs (heap st c)) "default") as [own|] eqn:Hi.
  - rewrite (get_module_input_own depth c "default" own st eq_refl Hi). discriminate.
  - rewrite (get_module_input_miss depth c "default" st eq_refl Hi (Hnd c) I).
    discriminate.
Qed.

Lemma default_output_ends depth c :
  fst (get_module_output (S depth) c "default" st) <> Raise RecursionError.
Proof.
  destruct (dict_get (outputs (heap st c)) "default") as [own|] eqn:Hi.
  - rewrite (get_module_output_own depth c "default" own st eq_refl Hi). discriminate.
  - rewrite (get_module_output_miss depth c "default" st eq_refl Hi (Hnd c) I).
    discriminate.
Qed.

Lemma atomic_input_ends depth P name :
  contains dot name = false -> contains underscore name = false ->
  fst (get_module_input (S (S depth)) P name st) <> Raise RecursionError.
Proof.
  intros Hd Hu. apply split1_None in Hd. apply rsplit1_None in Hu.
  destruct (dict_get (inputs (heap st P)) name) as [own|] eqn:Hi.
  { rewrite (get_module_input_own _ _ _ _ _ Hd Hi). discriminate. }
  destruct (dict_get (_modules (heap st P)) name) as [child|] eqn:Hm.
  { rewrite (get_module_input_child _ _ _ _ _ Hd Hi Hm). apply default_input_ends. }
  rewrite get_module_input_miss; try assumption; [discriminate|].
  rewrite Hu. exact I.
Qed.

Lemma atomic_output_ends depth P name :
  contains dot name = false -> contains underscore name = false ->
  fst (get_module_output (S (S depth)) P name st) <> Raise RecursionError.
Proof.
  intros Hd Hu. apply split1_None in Hd. apply rsplit1_None in Hu.
  destruct (dict_get (outputs (heap st P)) name) as [own|] eqn:Hi.
  { rewrite (get_module_output_own _ _ _ _ _ Hd Hi). discriminate. }
  destruct (dict_get (_modules (heap st P)) name) as [child|] eqn:Hm.
  { rewrite (get_module_output_child _ _ _ _ _ Hd Hi Hm). apply default_output_ends. }
  rewrite get_module_output_miss; try assumption; [discriminate|].
  rewrite Hu. exact I.
Qed.

Lemma leaf_input_ends depth P name :
  split1 dot name = None ->
  fst (get_module_input (S (S (S depth))) P name st) <> Raise RecursionError.
Proof.
  intros Hs.
  destruct (dict_get (inputs (heap st P)) name) as [own|] eqn:Hi.
  { rewrite (get_module_input_own _ _ _ _ _ Hs Hi). discriminate. }
  destruct (dict_get (_modules (heap st P)) name) as [child|] eqn:Hm.
  { rewrite (get_module_input_child _ _ _ _ _ Hs Hi Hm). apply default_input_ends. }
  destruct (rsplit1 underscore name) as [[head tail]|] eqn:Hr.
  - destruct (dict_get (_modules (heap st P)) head) as [child|] eqn:Hg.
    + rewrite (get_module_input_underscore _ _ _ _ _ _ _ Hs Hi Hm Hr Hg).
      apply then_warn_not_RecursionError.
      destruct (underscore_tail_atomic _ _ _ Hs Hr) as [Hd Hu].
      apply atomic_input_ends; assumption.
    + rewrite get_module_input_miss; try assumption; [discriminate|].
      rewrite Hr. assumption.
  - rewrite get_module_input_miss; try assumption; [discriminate|].
    rewrite Hr. exact I.
Qed.

Lemma leaf_output_ends depth P name :
  split1 dot name = None ->
  fst (get_module_output (S (S (S depth))) P name st) <> Raise RecursionError.
Proof.
  intros Hs.
  destruct (dict_get (outputs (heap st P)) name) as [own|] eqn:Hi.
  { rewrite (get_module_output_own _ _ _ _ _ Hs Hi). discriminate. }
  destruct (dict_get (_modules (heap st P)) name) as [child|] eqn:Hm.
  { rewrite (get_module_output_child _ _ _ _ _ Hs Hi Hm). apply default_output_ends. }
  destruct (rsplit1 underscore name) as [[head tail]|] eqn:Hr.
  - destruct (dict_get (_modules (heap st P)) head) as [child|] eqn:Hg.
    + rewrite (get_module_output_underscore _ _ _ _ _ _ _ Hs Hi Hm Hr Hg).
      apply then_warn_not_RecursionError.
      destruct (underscore_tail_atomic _ _ _ Hs Hr) as [Hd Hu].
      apply atomic_output_ends; assumption.
    + rewrite get_module_output_miss; try assumption; [discriminate|].
      rewrite Hr. assumption.
  - rewrite get_module_output_miss; try assumption; [discriminate|].
    rewrite Hr. exact I.
Qed.

Lemma input_ends depth :
  forall P name,
    count dot name + 3 <= depth ->
    fst (get_module_input depth P name st) <> Raise RecursionError.
Proof.
  induction depth as [|depth IH]; intros P name Hle; [lia|].
  destruct (split1 dot name) as [[head tail]|] eqn:Hs.
  - destruct (dict_get (_modules (heap st P)) head) as [child|] eqn:Hg.
    + rewrite (get_module_input_dotted depth _ _ _ _ _ _ Hs Hg). apply IH.
      apply split1_count in Hs. lia.
    + rewrite (get_module_input_dotted_miss depth _ _ _ _ _ Hs Hg). discriminate.
  - destruct depth as [|[|depth]]; try lia. apply leaf_input_ends. assumption.
Qed.

Lemma output_ends depth :
  forall P name,
    count dot name + 3 <= depth ->
    fst (get_module_output depth P name st) <> Raise RecursionError.
Proof.
  induction depth as [|depth IH]; intros P name Hle; [lia|].
  destruct (split1 dot name) as [[head tail]|] eqn:Hs.
  - destruct (dict_get (_modules (heap st P)) head) as [child|] eqn:Hg.
    + rewrite (get_module_output_dotted depth _ _ _ _ _ _ Hs Hg). apply IH.
      apply split1_count in Hs. lia.
    + rewrite (get_module_output_dotted_miss depth _ _ _ _ _ Hs Hg). discriminate.
  - destruct depth as [|[|depth]]; try lia. apply leaf_output_ends. assumption.
Qed.

(** X10. Where no module has a child registered under the name [default],
    [get_module_input] and [get_module_output] end within one call per dot
    of the path and three more: with that much call depth left they return
    a port or raise [SpaModuleError], never [RecursionError]. *)
Theorem port_resolution_depth_bound depth (P : loc) (name : string) :
  count dot name + 3 <= depth ->
  fst (get_module_input depth P name st) <> Raise RecursionError /\
  fst (get_module_output depth P name st) <> Raise RecursionError.
Proof.
  intros Hle. split; [apply input_ends|apply output_ends]; assumption.
Qed.

End DepthOfPorts.

Lemma port_resolution_depth_bound_witness :
  fst (get_module_input 4 0 "a.b_x" sample_deep) <> Raise RecursionError /\
  fst (get_module_output 4 0 "a.b_x" sample_deep) <> Raise RecursionError.
Proof.
  apply (port_resolution_depth_bound sample_deep).
  - intros [|[|[|[|l]]]]; reflexivity.
  - cbn. lia.
Defined.

(** X11. A module registered under the name [default] on a module that has
    no port [default], in a cycle (as a module registered under that name
    on itself), makes the lookup of [default] call itself without end: at
    every call depth [get_module_input] and [get_module_output] raise
    [RecursionError]. *)
Theorem default_cycle_exhausts_depth (cyc : loc -> Prop) st :
  (forall l, cyc l ->
     dict_get (inputs (heap st l)) "default" = None /\
     dict_get (outputs (heap st l)) "default" = None /\
     exists c, dict_get (_modules (heap st l)) "default" = Some c /\ cyc c) ->
  forall depth (P : loc),
    cyc P ->
    get_module_input depth P "default" st = (Raise RecursionError, st) /\
    get_module_output depth P "default" st = (Raise RecursionError, st).
Proof.
  intros Hcyc. induction depth as [|depth IH]; intros P HP; [split; reflexivity|].
  destruct (Hcyc P HP) as (Hi & Ho & c & Hc & Hcc).
  destruct (IH c Hcc) as [IHi IHo]. split.
  - rewrite (get_module_input_child depth P "default" c st eq_refl Hi Hc). exact IHi.
  - rewrite (get_module_output_child depth P "default" c st eq_refl Ho Hc). exact IHo.
Qed.

Lemma default_cycle_exhausts_depth_witness :
  get_module_input 50 0 "default" sample_cycle = (Raise RecursionError, sample_cycle) /\
  get_module_output 50 0 "default" sample_cycle = (Raise RecursionError, sample_cycle).
Proof.
  apply (default_cycle_exhausts_depth (fun l => l = 0) sample_cycle).
  - intros l ->. split; [reflexivity|]. split; [reflexivity|].
    exists 0. split; reflexivity.
  - reflexivity.
Defined.

(** ** The listed names resolve *)

Lemma dict_get_In {V} (d : dict V) k v : dict_get d k = Some v -> In (k, v) d.
Proof.
  induction d as [|[k0 v0] d IH]; cbn; [discriminate|].
  destruct (String.eqb k0 k) eqn:E.
  - apply String.eqb_eq in E. intros [= ->]. left. congruence.
  - intros H. right. auto.
Qed.

Lemma dict_get_In_keys {V} (d : dict V) k v : dict_get d k = Some v -> In k (dict_keys d).
Proof.
  intros H. apply dict_get_In in H. unfold dict_keys.
  change k with (fst (k, v)). apply in_map. assumption.
Qed.

Lemma listed_name_no_dot name port :
  contains dot name = false -> contains dot port = false ->
  split1 dot (listed_name name port) = None.
Proof.
  intros Hn Hp. apply split1_None. unfold listed_name.
  destruct (String.eqb port "default"); [assumption|].
  rewrite !contains_app, Hn, Hp. reflexivity.
Qed.

(** X12. The names [get_module_inputs] lists can be given back to
    [get_module_input]: for a child registered under a dot-free name and
    one of its input ports whose name has neither dot nor underscore, the
    listed name is in the listing and, unless [P] has an input port of its
    own or (for a port other than [default]) another child under that very
    name, resolves to that port of that child, with a deprecation warning
    exactly when the port is not [default].  The same holds of
    [get_module_outputs] and [get_module_output]. *)
Theorem listed_names_resolve depth st (P c : loc) (name port : string) :
  dict_get (_modules (heap st P)) name = Some c ->
  contains dot name = false ->
  contains dot port = false ->
  contains underscore port = false ->
  (port <> "default" ->
   dict_get (_modules (heap st P)) (listed_name name port) = None) ->
  let after := if String.eqb port "default" then st
               else snd (warn DeprecationWarning st) in
  (forall p,
      dict_get (inputs (heap st c)) port = Some p ->
      dict_get (inputs (heap st P)) (listed_name name port) = None ->
      In (listed_name name port) (get_module_inputs st P) /\
      get_module_input (S (S depth)) P (listed_name name port) st = (Ok p, after)) /\
  (forall p,
      dict_get (outputs (heap st c)) port = Some p ->
      dict_get (outputs (heap st P)) (listed_name name port) = None ->
      In (listed_name name port) (get_module_outputs st P) /\
      get_module_output (S (S depth)) P (listed_name name port) st = (Ok p, after)).
Proof.
  intros Hc Hn Hpd Hpu Hfree after.
  pose proof (listed_name_no_dot name port Hn Hpd) as Hs.
  assert (Hps : split1 dot port = None) by (apply split1_None; assumption).
  split; intros p Hp Hown; split.
  - unfold get_module_inputs. apply in_flat_map. exists (name, c).
    split; [apply dict_get_In; assumption|].
    apply in_map. eapply dict_get_In_keys. eassumption.
  - subst after. unfold listed_name in *.
    destruct (String.eqb port "default") eqn:E.
    + apply String.eqb_eq in E. subst port.
      rewrite (get_module_input_child (S depth) P name c st Hs Hown Hc).
      apply get_module_input_own; assumption.
    + apply String.eqb_neq in E.
      rewrite (get_module_input_underscore (S depth) P _ name port c st
                 Hs Hown (Hfree E) (rsplit1_app underscore name port Hpu) Hc).
      rewrite (get_module_input_own depth c port p st Hps Hp). reflexivity.
  - unfold get_module_outputs. apply in_flat_map. exists (name, c).
    split; [apply dict_get_In; assumption|].
    apply in_map. eapply dict_get_In_keys. eassumption.
  - subst after. unfold listed_name in *.
    destruct (String.eqb port "default") eqn:E.
    + apply String.eqb_eq in E. subst port.
      rewrite (get_module_output_child (S depth) P name c st Hs Hown Hc).
      apply get_module_output_own; assumption.
    + apply String.eqb_neq in E.
      rewrite (get_module_output_underscore (S depth) P _ name port c st
                 Hs Hown (Hfree E) (rsplit1_app underscore name port Hpu) Hc).
      rewrite (get_module_output_own depth c port p st Hps Hp). reflexivity.
Qed.

Lemma listed_names_resolve_witness :
  In "m2_a" (get_module_inputs sample_listing 0) /\
  get_module_input 2 0 "m2_a" sample_listing
  = (Ok (11, BVocab 0), snd (warn DeprecationWarning sample_listing)).
Proof.
  destruct (listed_names_resolve 0 sample_listing 0 2 "m2" "a") as [Hin _];
    try reflexivity.
  apply (Hin (11, BVocab 0)); reflexivity.
Defined.

(** ** What registration changes and what it leaves alone *)

Lemma snd_bind {A B} (m : M A) (k : A -> M B) st :
  snd (bind m k st)
  = match m st with
    | (Ok a, st1) => snd (k a st1)
    | (Raise _, st1) => st1
    end.
Proof. unfold bind. destruct (m st) as [[a|e] st1]; reflexivity. Qed.

Lemma only_ports_of_refl v V st : only_ports_of v V st st.
Proof. split; auto. Qed.

Lemma only_ports_of_trans v V st1 st2 st3 :
  only_ports_of v V st1 st2 -> only_ports_of v V st2 st3 -> only_ports_of v V st1 st3.
Proof.
  intros [] []. split; intros; try congruence.
  - rewrite op_others1, op_others0; auto.
  - rewrite op_vmaps1, op_vmaps0; auto.
  - auto.
Qed.

Lemma only_ports_of_vocabs v V st st' l :
  only_ports_of v V st st' -> vocabs (heap st' l) = vocabs (heap st l).
Proof.
  intros H. destruct (Nat.eq_dec l v) as [->|Hne].
  - apply (op_vocabs _ _ _ _ H).
  - rewrite (op_others _ _ _ _ H) by assumption. reflexivity.
Qed.

Lemma get_or_create_only_ports v V d st :
  only_ports_of v V st (snd (get_or_create V d st)).
Proof.
  unfold get_or_create. destruct (d <=? 0)%Z; [apply only_ports_of_refl|].
  destruct (vmaps st V !! d) as [voc|] eqn:Hl; [apply only_ports_of_refl|].
  split; cbn [snd heap vmaps warnings]; auto.
  - intros V' HV. apply Nat.eqb_neq in HV. rewrite HV. reflexivity.
  - intros d' voc' H'. rewrite Nat.eqb_refl. rewrite lookup_insert_ne; [assumption|].
    congruence.
Qed.

Lemma update_port_only_ports f (Hf : lawful f) v V g st :
  only_ports_of v V st (snd (update v (fun m => wr f (g m) m) st)).
Proof.
  split; try reflexivity.
  - intros l Hl. apply update_heap_ne. assumption.
  - rewrite update_heap_eq. apply (wr_label f Hf).
  - rewrite update_heap_eq. apply (wr_attrs f Hf).
  - rewrite update_heap_eq. apply (wr_modules f Hf).
  - rewrite update_heap_eq. apply (wr_vocabs f Hf).
  - rewrite update_heap_eq. apply (wr_networks f Hf).
  - auto.
Qed.

(** A loop of [__set_module], however it ends. *)
Lemma resolve_ports_only_ports f (Hf : lawful f) self module items :
  forall st,
    only_ports_of module (vocabs (heap st self)) st
                  (snd (resolve_ports f self module items st)).
Proof.
  induction items as [|[k [obj b]] rest IH]; intros st; cbn [resolve_ports].
  - apply only_ports_of_refl.
  - set (V := vocabs (heap st self)).
    assert (Hnext : forall st1,
               only_ports_of module V st st1 ->
               only_ports_of module V st
                             (snd (resolve_ports f self module rest st1))).
    { intros st1 H1. eapply only_ports_of_trans; [exact H1|].
      pose proof (IH st1) as H2.
      rewrite (only_ports_of_vocabs _ _ _ _ self H1) in H2. exact H2. }
    rewrite snd_bind. destruct b as [d|h|].
    + unfold bind, deref. cbn beta iota. fold V.
      pose proof (get_or_create_only_ports module V d st) as Hgc.
      destruct (get_or_create V d st) as [[voc|e] st1]; cbn [snd] in Hgc.
      * pose proof (update_port_only_ports f Hf module V
                      (fun m => dict_set (rd f m) k (obj, BVocab voc)) st1) as Hup.
        destruct (update module
                    (fun m => wr f (dict_set (rd f m) k (obj, BVocab voc)) m) st1)
          as [[[]|e] st2] eqn:E; cbn [snd] in Hup.
        -- apply Hnext. eapply only_ports_of_trans; eassumption.
        -- discriminate E.
      * exact Hgc.
    + apply Hnext, only_ports_of_refl.
    + apply Hnext, only_ports_of_refl.
Qed.

Lemma entered_spec self key module st :
  let st_b := entered self key module st in
  dict_get (_modules (heap st_b self)) key = Some module /\
  (forall k, k <> key ->
     dict_get (_modules (heap st_b self)) k = dict_get (_modules (heap st self)) k) /\
  (forall l, l <> self -> _modules (heap st_b l) = _modules (heap st l)) /\
  (forall l, attrs (heap st_b l) = attrs (heap st l) /\
             vocabs (heap st_b l) = vocabs (heap st l) /\
             networks (heap st_b l) = networks (heap st l) /\
             inputs (heap st_b l) = inputs (heap st l) /\
             outputs (heap st_b l) = outputs (heap st l)) /\
  (forall l, l <> module -> label (heap st_b l) = label (heap st l)) /\
  label (heap st_b module)
  = Some (match label (heap st module) with Some lbl => lbl | None => key end) /\
  vmaps st_b = vmaps st /\ next_vocab st_b = next_vocab st /\
  warnings st_b = warnings st.
Proof.
  intros st_b. subst st_b. unfold entered.
  set (st_a := match label (heap st module) with
               | None => snd (update module (with_label (Some key)) st)
               | Some _ => st
               end).
  assert (Ha : forall l,
             attrs (heap st_a l) = attrs (heap st l) /\
             _modules (heap st_a l) = _modules (heap st l) /\
             vocabs (heap st_a l) = vocabs (heap st l) /\
             networks (heap st_a l) = networks (heap st l) /\
             inputs (heap st_a l) = inputs (heap st l) /\
             outputs (heap st_a l) = outputs (heap st l) /\
             (l <> module -> label (heap st_a l) = label (heap st l))).
  { intros l. subst st_a. destruct (label (heap st module)); [repeat split|].
    destruct (Nat.eq_dec l module) as [->|Hne].
    - rewrite update_heap_eq. repeat split. intros H. contradiction.
    - rewrite update_heap_ne by assumption. repeat split. }
  assert (Hla : label (heap st_a module)
                = Some (match label (heap st module) with
                        | Some lbl => lbl | None => key end)).
  { subst st_a. destruct (label (heap st module)) eqn:E; [exact E|].
    rewrite update_heap_eq. reflexivity. }
  assert (Hva : vmaps st_a = vmaps st /\ next_vocab st_a = next_vocab st
                /\ warnings st_a = warnings st).
  { subst st_a. destruct (label (heap st module)); repeat split. }
  assert (Hb : forall l,
             attrs (heap (snd (update self
                (fun me => with_modules (dict_set (_modules me) key module) me) st_a)) l)
             = attrs (heap st_a l) /\
             vocabs (heap (snd (update self
                (fun me => with_modules (dict_set (_modules me) key module) me) st_a)) l)
             = vocabs (heap st_a l) /\
             networks (heap (snd (update self
                (fun me => with_modules (dict_set (_modules me) key module) me) st_a)) l)
             = networks (heap st_a l) /\
             inputs (heap (snd (update self
                (fun me => with_modules (dict_set (_modules me) key module) me) st_a)) l)
             = inputs (heap st_a l) /\
             outputs (heap (snd (update self
                (fun me => with_modules (dict_set (_modules me) key module) me) st_a)) l)
             = outputs (heap st_a l) /\
             label (heap (snd (update self
                (fun me => with_modules (dict_set (_modules me) key module) me) st_a)) l)
             = label (heap st_a l)).
  { intros l. destruct (Nat.eq_dec l self) as [->|Hne].
    - rewrite update_heap_eq. repeat split.
    - rewrite update_heap_ne by assumption. repeat split. }
  split; [|split; [|split; [|split; [|split; [|split]]]]].
  - rewrite update_heap_eq. cbn. apply dict_get_set_eq.
  - intros k Hk. rewrite update_heap_eq. cbn [_modules with_modules].
    rewrite dict_get_set_ne by congruence.
    destruct (Ha self) as (_ & -> & _). reflexivity.
  - intros l Hl. rewrite update_heap_ne by assumption.
    destruct (Ha l) as (_ & -> & _). reflexivity.
  - intros l. destruct (Hb l) as (-> & -> & -> & -> & -> & _).
    destruct (Ha l) as (-> & _ & -> & -> & -> & -> & _). repeat split.
  - intros l Hl. destruct (Hb l) as (_ & _ & _ & _ & _ & ->).
    destruct (Ha l) as (_ & _ & _ & _ & _ & _ & Hlab). auto.
  - destruct (Hb module) as (_ & _ & _ & _ & _ & ->). exact Hla.
  - exact Hva.
Qed.

(** [__set_module] with the hook of the base class, as the two loops run
    on the store [entered] leaves. *)
Lemma set_module_base_unfold self key module st :
  __set_module on_add_base self key module st
  = let st_b := entered self key module st in
    match resolve_ports inputs_field self module (inputs (heap st_b module)) st_b with
    | (Ok _, st_c) =>
        match resolve_ports outputs_field self module
                (outputs (heap st_c module)) st_c with
        | (Ok _, st_d) => (Ok tt, st_d)
        | (Raise e, st_d) => (Raise e, st_d)
        end
    | (Raise e, st_c) => (Raise e, st_c)
    end.
Proof.
  unfold __set_module, entered, on_add_base, bind, deref, ret.
  destruct (label (heap st module)); unfold update; cbn beta iota zeta;
    (destruct (resolve_ports inputs_field _ _ _ _) as [[[]|e] st_c]; [|reflexivity];
     destruct (resolve_ports outputs_field _ _ _ _) as [[[]|e] st_d]; reflexivity).
Qed.

Lemma set_module_base_only_ports self key module st :
  only_ports_of module (vocabs (heap st self)) (entered self key module st)
                (snd (__set_module on_add_base self key module st)).
Proof.
  rewrite set_module_base_unfold. cbv zeta.
  assert (HV : vocabs (heap (entered self key module st) self)
               = vocabs (heap st self)).
  { destruct (entered_spec self key module st) as (_ & _ & _ & H & _).
    destruct (H self) as (_ & Hv & _). exact Hv. }
  set (st_b := entered self key module st) in *.
  pose proof (resolve_ports_only_ports inputs_field inputs_field_lawful self module
                (inputs (heap st_b module)) st_b) as Hc.
  rewrite HV in Hc.
  destruct (resolve_ports inputs_field self module (inputs (heap st_b module)) st_b)
    as [[[]|e] st_c]; cbn [snd] in Hc |- *; [|exact Hc].
  pose proof (resolve_ports_only_ports outputs_field outputs_field_lawful self module
                (outputs (heap st_c module)) st_c) as Hd.
  rewrite (only_ports_of_vocabs _ _ _ _ self Hc), HV in Hd.
  destruct (resolve_ports outputs_field self module (outputs (heap st_c module)) st_c)
    as [[[]|e] st_d]; cbn [snd] in Hd |- *;
    eapply only_ports_of_trans; eassumption.
Qed.

Lemma set_module_base_frame self key module st :
  registration_frame self key module st
                     (snd (__set_module on_add_base self key module st)).
Proof.
  pose proof (set_module_base_only_ports self key module st) as Hop.
  destruct (entered_spec self key module st)
    as (Hentry & Hentries & Hregs & Hall & Hlab & _ & Hvm & _ & Hw).
  set (st_b := entered self key module st) in *.
  set (st' := snd (__set_module on_add_base self key module st)) in *.
  assert (Hmods : forall l, _modules (heap st' l) = _modules (heap st_b l)).
  { intros l. destruct (Nat.eq_dec l module) as [->|Hne].
    - apply (op_modules _ _ _ _ Hop).
    - rewrite (op_others _ _ _ _ Hop) by assumption. reflexivity. }
  split.
  - rewrite Hmods. exact Hentry.
  - intros k Hk. rewrite Hmods. apply Hentries. assumption.
  - intros l Hl. rewrite Hmods. apply Hregs. assumption.
  - intros l. destruct (Hall l) as (<- & _). destruct (Nat.eq_dec l module) as [->|Hne].
    + apply (op_attrs _ _ _ _ Hop).
    + rewrite (op_others _ _ _ _ Hop) by assumption. reflexivity.
  - intros l. destruct (Hall l) as (_ & <- & _).
    apply (only_ports_of_vocabs _ _ _ _ l Hop).
  - intros l. destruct (Hall l) as (_ & _ & <- & _).
    destruct (Nat.eq_dec l module) as [->|Hne].
    + apply (op_networks _ _ _ _ Hop).
    + rewrite (op_others _ _ _ _ Hop) by assumption. reflexivity.
  - intros l Hl. rewrite (op_others _ _ _ _ Hop) by assumption. apply Hlab. assumption.
  - intros l Hl. rewrite (op_others _ _ _ _ Hop) by assumption.
    destruct (Hall l) as (_ & _ & _ & -> & _). reflexivity.
  - intros l Hl. rewrite (op_others _ _ _ _ Hop) by assumption.
    destruct (Hall l) as (_ & _ & _ & _ & ->). reflexivity.
  - intros V HV. rewrite (op_vmaps _ _ _ _ Hop) by assumption. rewrite Hvm. reflexivity.
  - intros d voc H. apply (op_kept _ _ _ _ Hop). rewrite Hvm. assumption.
  - rewrite (op_warnings _ _ _ _ Hop). exact Hw.
Qed.

(** X13. Registering a module [v] on [P] under [key], with the hook of the
    base class and however the registration ends, changes nothing but the
    registry entry [key] of [P], which now holds [v], the label and the
    ports of [v], and the vocabulary map of [P], which keeps every
    vocabulary it held: all other registry entries, all attributes, the
    ports and labels of all other modules, all other vocabulary maps and
    the warnings are as before. *)
Theorem registration_changes_only_its_own st (P v : loc) (key : string) :
  registration_frame P key v st (snd (__set_module on_add_base P key v st)).
Proof. apply set_module_base_frame. Qed.

(** X14. Registration gives a module without label its key as label and
    never changes a label that is set, also when the registration fails
    later on a port. *)
Theorem registration_labels_once st (P v : loc) (key : string) :
  label (heap (snd (__set_module on_add_base P key v st)) v)
  = Some (match label (heap st v) with Some lbl => lbl | None => key end).
Proof.
  rewrite (op_label _ _ _ _ (set_module_base_only_ports P key v st)).
  destruct (entered_spec P key v st) as (_ & _ & _ & _ & _ & H & _). exact H.
Qed.

(** ** Registration and the vocabularies *)

Lemma resolve_ports_nothing_to_do f self module items st :
  all_resolved items -> resolve_ports f self module items st = (Ok tt, st).
Proof.
  induction items as [|[k [obj b]] rest IH]; intros Hres; [reflexivity|].
  cbn [resolve_ports]. unfold bind.
  assert (Hrest : all_resolved rest)
    by (intros k' obj' d' H; apply (Hres k' obj' d'); right; exact H).
  destruct b as [d|h|].
  - contradiction (Hres k obj d). left. reflexivity.
  - cbn. apply IH. assumption.
  - cbn. apply IH. assumption.
Qed.

(** X15. Registering a module none of whose ports carries an integer
    dimension asks no vocabulary map for anything: [on_add] is called on a
    store in which only the label of the module, set to the key if there
    was none, and the registry of the parent, where the key now maps to
    the module, are new.  Every other registry and label, every attribute,
    port, vocabulary map and network list of every module, the
    vocabularies, and the warnings are what they were. *)
Theorem registration_of_resolved_module
    (on_add : loc -> loc -> M unit) st (P v : loc) (key : string) :
  all_resolved (inputs (heap st v)) ->
  all_resolved (outputs (heap st v)) ->
  exists st',
    __set_module on_add P key v st = on_add v P st' /\
    dict_get (_modules (heap st' P)) key = Some v /\
    vmaps st' = vmaps st /\
    next_vocab st' = next_vocab st /\
    (forall l, inputs (heap st' l) = inputs (heap st l) /\
               outputs (heap st' l) = outputs (heap st l)) /\
    _modules (heap st' P) = dict_set (_modules (heap st P)) key v /\
    (forall l, l <> P -> _modules (heap st' l) = _modules (heap st l)) /\
    label (heap st' v)
    = Some (match label (heap st v) with Some lbl => lbl | None => key end) /\
    (forall l, l <> v -> label (heap st' l) = label (heap st l)) /\
    (forall l, attrs (heap st' l) = attrs (heap st l) /\
               vocabs (heap st' l) = vocabs (heap st l) /\
               networks (heap st' l) = networks (heap st l)) /\
    warnings st' = warnings st.
Proof.
  intros Hi Ho. exists (entered P key v st).
  destruct (entered_spec P key v st)
    as (Hentry & _ & Hothers & Hall & Hlabels & Hlabel & Hvm & Hnv & Hw).
  assert (Hreg : _modules (heap (entered P key v st) P)
                 = dict_set (_modules (heap st P)) key v).
  { unfold entered. rewrite update_heap_eq. cbn [_modules with_modules].
    destruct (label (heap st v)); [reflexivity|].
    destruct (Nat.eq_dec P v) as [->|Hne].
    - rewrite update_heap_eq. reflexivity.
    - rewrite update_heap_ne by congruence. reflexivity. }
  split; [|repeat split; try assumption].
  - assert (Hin : inputs (heap (entered P key v st) v) = inputs (heap st v))
      by (destruct (Hall v) as (_ & _ & _ & H & _); exact H).
    assert (Hout : outputs (heap (entered P key v st) v) = outputs (heap st v))
      by (destruct (Hall v) as (_ & _ & _ & _ & H); exact H).
    unfold __set_module, bind, deref.
    assert (Hlabel' : (match label (heap st v) with
                       | None => update v (with_label (Some key))
                       | Some _ => ret tt
                       end) st
                      = (Ok tt, match label (heap st v) with
                                | None => snd (update v (with_label (Some key)) st)
                                | Some _ => st
                                end))
      by (destruct (label (heap st v)); reflexivity).
    rewrite Hlabel'.
    change (update P (fun me => with_modules (dict_set (_modules me) key v) me)
              match label (heap st v) with
              | None => snd (update v (with_label (Some key)) st)
              | Some _ => st
              end)
      with (Ok tt, entered P key v st).
    cbn beta iota.
    rewrite (resolve_ports_nothing_to_do inputs_field P v _ (entered P key v st))
      by (rewrite Hin; assumption).
    cbn beta iota.
    rewrite (resolve_ports_nothing_to_do outputs_field P v _ (entered P key v st))
      by (rewrite Hout; assumption).
    reflexivity.
  - destruct (Hall l) as (_ & _ & _ & H1 & _). exact H1.
  - destruct (Hall l) as (_ & _ & _ & _ & H2). exact H2.
  - destruct (Hall l) as (H1 & _). exact H1.
  - destruct (Hall l) as (_ & H2 & _). exact H2.
  - destruct (Hall l) as (_ & _ & H3 & _). exact H3.
Qed.

Lemma registration_of_resolved_module_witness :
  exists st',
    __set_module on_add_base 0 "late" 1 sample_AB = on_add_base 1 0 st' /\
    dict_get (_modules (heap st' 0)) "late" = Some 1 /\
    vmaps st' = vmaps sample_AB /\
    next_vocab st' = next_vocab sample_AB /\
    (forall l, inputs (heap st' l) = inputs (heap sample_AB l) /\
               outputs (heap st' l) = outputs (heap sample_AB l)) /\
    _modules (heap st' 0) = dict_set (_modules (heap sample_AB 0)) "late" 1 /\
    (forall l, l <> 0 -> _modules (heap st' l) = _modules (heap sample_AB l)) /\
    label (heap st' 1)
    = Some (match label (heap sample_AB 1) with Some lbl => lbl | None => "late" end) /\
    (forall l, l <> 1 -> label (heap st' l) = label (heap sample_AB l)) /\
    (forall l, attrs (heap st' l) = attrs (heap sample_AB l) /\
               vocabs (heap st' l) = vocabs (heap sample_AB l) /\
               networks (heap st' l) = networks (heap sample_AB l)) /\
    warnings st' = warnings sample_AB.
Proof.
  apply (registration_of_resolved_module on_add_base sample_AB 0 1 "late").
  - intros k obj d H. cbn in H.
    repeat (destruct H as [H|H]; [discriminate H|]). exact H.
  - intros k obj d H. cbn in H.
    repeat (destruct H as [H|H]; [discriminate H|]). exact H.
Defined.

Lemma upgrade_key vm k port : upgrade vm (k, port) = (k, upgraded vm port).
Proof.
  unfold upgraded. destruct port as [obj [d|h|]]; cbn; try reflexivity.
  destruct (vm !! d); reflexivity.
Qed.

Lemma dict_get_map_upgrade vm (items : dict Port) k :
  dict_get (map (upgrade vm) items) k = option_map (upgraded vm) (dict_get items k).
Proof.
  induction items as [|[k0 port] items IH]; [reflexivity|].
  cbn [map]. rewrite upgrade_key. cbn [dict_get].
  destruct (String.eqb k0 k); [reflexivity|exact IH].
Qed.

Lemma upgraded_int vm obj d voc :
  vm !! d = Some voc -> upgraded vm (obj, BInt d) = (obj, BVocab voc).
Proof. intros H. unfold upgraded. cbn. rewrite H. reflexivity. Qed.

(** Registration with the hook of the base class, for ports with positive
    dimensions: it returns, and the ports are those that were there,
    resolved against the vocabulary map of the parent. *)
Lemma set_module_base_spec st (P v : loc) (key : string) :
  dict_wf (inputs (heap st v)) ->
  dict_wf (outputs (heap st v)) ->
  positive_dims (inputs (heap st v)) ->
  positive_dims (outputs (heap st v)) ->
  let st' := snd (__set_module on_add_base P key v st) in
  let vm := vmaps st' (vocabs (heap st P)) in
  fst (__set_module on_add_base P key v st) = Ok tt /\
  inputs (heap st' v) = map (upgrade vm) (inputs (heap st v)) /\
  outputs (heap st' v) = map (upgrade vm) (outputs (heap st v)) /\
  (forall k obj d,
      In (k, (obj, BInt d)) (inputs (heap st v) ++ outputs (heap st v)) ->
      is_Some (vm !! d)).
Proof.
  intros Hwfi Hwfo Hposi Hposo.
  rewrite set_module_base_unfold. cbv zeta.
  destruct (entered_spec P key v st) as (_ & _ & _ & Hall & _).
  assert (Hin_b : inputs (heap (entered P key v st) v) = inputs (heap st v))
    by (destruct (Hall v) as (_ & _ & _ & H & _); exact H).
  assert (Hout_b : outputs (heap (entered P key v st) v) = outputs (heap st v))
    by (destruct (Hall v) as (_ & _ & _ & _ & H); exact H).
  assert (HV_b : vocabs (heap (entered P key v st) P) = vocabs (heap st P))
    by (destruct (Hall P) as (_ & H & _); exact H).
  set (st_b := entered P key v st) in *.
  destruct (resolve_ports_spec inputs_field inputs_field_lawful P v
              (inputs (heap st_b v)) [] st_b)
    as (st_c & Hrun_c & Hrd_c & Hdom_c & Hext_c & Hoth_c & Hframe_c & Hmod_c).
  { reflexivity. }
  { cbn [app]. rewrite Hin_b. assumption. }
  { rewrite Hin_b. assumption. }
  rewrite HV_b in *. cbn [app rd wr inputs_field] in Hrd_c, Hmod_c.
  assert (Hout_c : outputs (heap st_c v) = outputs (heap st v)).
  { rewrite Hmod_c. cbn. assumption. }
  assert (HV_c : vocabs (heap st_c P) = vocabs (heap st P)).
  { destruct (resolve_ports_others inputs_field inputs_field_lawful v st_b st_c P
                Hframe_c Hmod_c) as (_ & _ & ->). assumption. }
  destruct (resolve_ports_spec outputs_field outputs_field_lawful P v
              (outputs (heap st_c v)) [] st_c)
    as (st_d & Hrun_d & Hrd_d & Hdom_d & Hext_d & Hoth_d & Hframe_d & Hmod_d).
  { reflexivity. }
  { cbn [app]. rewrite Hout_c. assumption. }
  { rewrite Hout_c. assumption. }
  rewrite HV_c in *. cbn [app rd wr outputs_field] in Hrd_d, Hmod_d.
  rewrite Hrun_c, Hrun_d. cbn [fst snd].
  split; [reflexivity|]. split; [|split].
  - rewrite Hmod_d. cbn [inputs with_outputs]. rewrite Hrd_c, Hin_b.
    symmetry. apply map_upgrade_stable; [assumption|].
    intros k obj d Hin. eapply Hdom_c. rewrite Hin_b. eassumption.
  - rewrite Hrd_d, Hout_c. reflexivity.
  - intros k obj d Hin. apply in_app_or in Hin as [Hin|Hin].
    + destruct (Hdom_c k obj d) as [voc Hvoc]; [rewrite Hin_b; assumption|].
      exists voc. apply Hext_d. assumption.
    + eapply Hdom_d. rewrite Hout_c. eassumption.
Qed.

Lemma port_after_registration st (P v : loc) (key k : string) obj d
    (ports : ModuleRec -> dict Port) :
  ports = inputs \/ ports = outputs ->
  dict_wf (inputs (heap st v)) ->
  dict_wf (outputs (heap st v)) ->
  positive_dims (inputs (heap st v)) ->
  positive_dims (outputs (heap st v)) ->
  dict_get (ports (heap st v)) k = Some (obj, BInt d) ->
  let st' := snd (__set_module on_add_base P key v st) in
  exists voc,
    vmaps st' (vocabs (heap st P)) !! d = Some voc /\
    dict_get (ports (heap st' v)) k = Some (obj, BVocab voc).
Proof.
  intros Hside Hwfi Hwfo Hposi Hposo Hk st'.
  destruct (set_module_base_spec st P v key Hwfi Hwfo Hposi Hposo)
    as (_ & Hin & Hout & Hdom).
  fold st' in Hin, Hout, Hdom.
  assert (Hmem : In (k, (obj, BInt d)) (inputs (heap st v) ++ outputs (heap st v))).
  { apply in_or_app. destruct Hside as [-> | ->];
      [left|right]; apply dict_get_In; assumption. }
  destruct (Hdom k obj d Hmem) as [voc Hvoc]. exists voc. split; [assumption|].
  destruct Hside as [-> | ->].
  - rewrite Hin, dict_get_map_upgrade, Hk. cbn [option_map].
    rewrite (upgraded_int _ _ _ _ Hvoc). reflexivity.
  - rewrite Hout, dict_get_map_upgrade, Hk. cbn [option_map].
    rewrite (upgraded_int _ _ _ _ Hvoc). reflexivity.
Qed.

(** X16. Two different modules registered one after the other on the same
    parent, each with a port declared by the same dimension, end up with
    the same vocabulary on those two ports, whichever sides the ports are
    on. *)
Theorem siblings_share_vocabulary st (P v1 v2 : loc) (key1 key2 k1 k2 : string)
    (o1 o2 : objref) (d : Z) (ports1 ports2 : ModuleRec -> dict Port) :
  v1 <> v2 ->
  ports1 = inputs \/ ports1 = outputs ->
  ports2 = inputs \/ ports2 = outputs ->
  declared_ports st v1 ->
  declared_ports st v2 ->
  dict_get (ports1 (heap st v1)) k1 = Some (o1, BInt d) ->
  dict_get (ports2 (heap st v2)) k2 = Some (o2, BInt d) ->
  let st1 := snd (__set_module on_add_base P key1 v1 st) in
  let st2 := snd (__set_module on_add_base P key2 v2 st1) in
  exists voc,
    dict_get (ports1 (heap st2 v1)) k1 = Some (o1, BVocab voc) /\
    dict_get (ports2 (heap st2 v2)) k2 = Some (o2, BVocab voc).
Proof.
  intros Hne Hs1 Hs2 (Hwfi1 & Hwfo1 & Hpi1 & Hpo1) (Hwfi2 & Hwfo2 & Hpi2 & Hpo2)
         Hk1 Hk2 st1 st2.
  destruct (port_after_registration st P v1 key1 k1 o1 d ports1
              Hs1 Hwfi1 Hwfo1 Hpi1 Hpo1 Hk1) as (voc & Hvoc1 & Hport1).
  fold st1 in Hvoc1, Hport1.
  pose proof (set_module_base_frame P key1 v1 st) as F1. fold st1 in F1.
  pose proof (set_module_base_frame P key2 v2 st1) as F2. fold st2 in F2.
  assert (Hin2 : inputs (heap st1 v2) = inputs (heap st v2))
    by (apply (rf_inputs _ _ _ _ _ F1); congruence).
  assert (Hout2 : outputs (heap st1 v2) = outputs (heap st v2))
    by (apply (rf_outputs _ _ _ _ _ F1); congruence).
  assert (HV : vocabs (heap st1 P) = vocabs (heap st P))
    by (apply (rf_vocabs _ _ _ _ _ F1)).
  assert (Hk2' : dict_get (ports2 (heap st1 v2)) k2 = Some (o2, BInt d)).
  { destruct Hs2 as [-> | ->]; [rewrite Hin2|rewrite Hout2]; assumption. }
  destruct (port_after_registration st1 P v2 key2 k2 o2 d ports2 Hs2)
    as (voc2 & Hvoc2 & Hport2); try assumption;
    try (rewrite Hin2; assumption); try (rewrite Hout2; assumption).
  fold st2 in Hvoc2, Hport2.
  assert (Hsame : voc2 = voc).
  { pose proof (rf_kept _ _ _ _ _ F2 d voc) as Hk. rewrite HV in Hk, Hvoc2.
    rewrite (Hk Hvoc1) in Hvoc2. congruence. }
  subst voc2. exists voc. split; [|assumption].
  destruct Hs1 as [-> | ->].
  - rewrite (rf_inputs _ _ _ _ _ F2 v1 Hne). assumption.
  - rewrite (rf_outputs _ _ _ _ _ F2 v1 Hne). assumption.
Qed.

Lemma siblings_share_vocabulary_witness :
  let st1 := snd (__set_module on_add_base 0 "first" 1 sample_siblings) in
  let st2 := snd (__set_module on_add_base 0 "second" 2 st1) in
  exists voc,
    dict_get (inputs (heap st2 1)) "default" = Some (10, BVocab voc) /\
    dict_get (inputs (heap st2 2)) "in" = Some (11, BVocab voc).
Proof.
  apply (siblings_share_vocabulary sample_siblings 0 1 2 "first" "second"
           "default" "in" 10 11 16%Z inputs inputs).
  - discriminate.
  - left. reflexivity.
  - left. reflexivity.
  - repeat split; try solve_wf; solve_positive.
  - repeat split; try solve_wf; solve_positive.
  - reflexivity.
  - reflexivity.
Defined.

(** X17. After a module, whose ports are declared with positive dimensions
    under distinct dot-free names, is registered under a dot-free key, the
    dotted path of key and port resolves on the parent to the port of the
    child, and [get_input_vocab] of an input port declared by a dimension
    is the vocabulary the map of the parent holds for that dimension;
    likewise [get_output_vocab] for an output port. *)
Theorem registered_port_resolves_to_parent_vocabulary
    depth st (P v : loc) (key k : string) (obj : objref) (d : Z) :
  contains dot key = false ->
  contains dot k = false ->
  declared_ports st v ->
  let st' := snd (__set_module on_add_base P key v st) in
  let path := String.append key (String.append "." k) in
  (dict_get (inputs (heap st v)) k = Some (obj, BInt d) ->
   exists voc,
     vmaps st' (vocabs (heap st' P)) !! d = Some voc /\
     get_module_input (S (S depth)) P path st' = (Ok (obj, BVocab voc), st') /\
     get_input_vocab (S (S (S depth))) P path st' = (Ok (BVocab voc), st')) /\
  (dict_get (outputs (heap st v)) k = Some (obj, BInt d) ->
   exists voc,
     vmaps st' (vocabs (heap st' P)) !! d = Some voc /\
     get_module_output (S (S depth)) P path st' = (Ok (obj, BVocab voc), st') /\
     get_output_vocab (S (S (S depth))) P path st' = (Ok (BVocab voc), st')).
Proof.
  intros Hkey Hk (Hwfi & Hwfo & Hpi & Hpo) st' path.
  pose proof (set_module_base_frame P key v st) as F. fold st' in F.
  assert (Hs : split1 dot path = Some (key, k)) by (apply split1_dotted; assumption).
  assert (Hks : split1 dot k = None) by (apply split1_None; assumption).
  rewrite (rf_vocabs _ _ _ _ _ F P).
  split; intros Hport.
  - destruct (port_after_registration st P v key k obj d inputs
                (or_introl eq_refl) Hwfi Hwfo Hpi Hpo Hport) as (voc & Hvoc & Hres).
    fold st' in Hvoc, Hres. exists voc. split; [assumption|].
    assert (Hin : get_module_input (S (S depth)) P path st'
                  = (Ok (obj, BVocab voc), st')).
    { rewrite (get_module_input_dotted _ P path key k v st' Hs (rf_entry _ _ _ _ _ F)).
      apply get_module_input_own; assumption. }
    split; [exact Hin|]. cbn [get_input_vocab]. unfold bind. rewrite Hin. reflexivity.
  - destruct (port_after_registration st P v key k obj d outputs
                (or_intror eq_refl) Hwfi Hwfo Hpi Hpo Hport) as (voc & Hvoc & Hres).
    fold st' in Hvoc, Hres. exists voc. split; [assumption|].
    assert (Hout : get_module_output (S (S depth)) P path st'
                   = (Ok (obj, BVocab voc), st')).
    { rewrite (get_module_output_dotted _ P path key k v st' Hs (rf_entry _ _ _ _ _ F)).
      apply get_module_output_own; assumption. }
    split; [exact Hout|]. cbn [get_output_vocab]. unfold bind. rewrite Hout. reflexivity.
Qed.

Lemma registered_port_resolves_to_parent_vocabulary_witness :
  let st' := snd (__set_module on_add_base 0 "vision" 1 sample_unresolved) in
  exists voc,
    vmaps st' (vocabs (heap st' 0)) !! 16%Z = Some voc /\
    get_module_input 2 0 "vision.default" st' = (Ok (10, BVocab voc), st') /\
    get_input_vocab 3 0 "vision.default" st' = (Ok (BVocab voc), st').
Proof.
  apply (registered_port_resolves_to_parent_vocabulary
           0 sample_unresolved 0 1 "vision" "default" 10 16%Z).
  - reflexivity.
  - reflexivity.
  - repeat split; try solve_wf; solve_positive.
  - reflexivity.
Defined.

(** X18. After an attribute assignment [P.key = v] of a module under a
    dot-free key has returned, [P.get_module(key)] returns [v], with or
    without [strip_output], and a port of [P] of the same name does not
    come before it.  The [on_add] hooks are taken to leave the attribute
    and the registry entry alone, as the hook of the base class does. *)
Theorem assigned_module_is_found
    (on_add : loc -> loc -> M unit) (config_default : string -> Outcome Value)
    (validate : string -> Value -> bool) (simplified : bool)
    (P v : loc) (key : string) depth (strip : bool) st :
  (forall module spa, keeps (fun st => registered st P key v) (on_add module spa)) ->
  contains dot key = false ->
  fst (__setattr__ on_add config_default validate simplified P key (VModule v) st)
  = Ok tt ->
  let st' :=
    snd (__setattr__ on_add config_default validate simplified P key (VModule v) st) in
  get_module (S depth) P key strip st' = (Ok v, st').
Proof.
  intros Hhook Hkey Hok st'.
  destruct (setattr_registers on_add config_default validate simplified P key v
              Hhook st Hok) as [_ Hreg].
  fold st' in Hreg.
  rewrite get_module_leaf by (apply split1_None; assumption).
  rewrite Hreg. reflexivity.
Qed.

Lemma assigned_module_is_found_witness :
  let st' :=
    snd (__setattr__ on_add_base config_default_none validate_all true
           0 "vision" (VModule 1) sample_unresolved) in
  get_module 1 0 "vision" false st' = (Ok 1, st').
Proof.
  apply (assigned_module_is_found on_add_base config_default_none validate_all true
           0 1 "vision" 0 false sample_unresolved).
  - intros module spa st H. exact H.
  - reflexivity.
  - reflexivity.
Defined.

(** ** Plain attribute assignments *)

Section PlainAssignment.

Variable on_add : loc -> loc -> M unit.
Variable config_default : string -> Outcome Value.
Variable validate : string -> Value -> bool.
Variable simplified : bool.

Let setattr := __setattr__ on_add config_default validate simplified.

Lemma setattr_unguarded self key value st :
  (forall m, attrs (heap st self) !! key <> Some (VModule m)) ->
  setattr self key value st
  = bind (match value with
          | VDefault => fun st0 => (config_default key, st0)
          | _ => ret value
          end)
      (fun value0 =>
         bind (if simplified
               then except_ValidationError (object_setattr validate self key value0)
                      (fun _ => raise (ValidationError false))
               else object_setattr validate self key value0)
           (fun _ => match value0 with
                     | VModule module => __set_module on_add self key module
                     | _ => ret tt
                     end)) st.
Proof.
  intros Hfree. unfold setattr, __setattr__. unfold bind at 1, deref.
  destruct (attrs (heap st self) !! key) as [[]|] eqn:E; try reflexivity.
  contradiction (Hfree _ eq_refl).
Qed.

(** X19. An assignment the descriptor of the attribute refuses stores
    nothing and registers nothing, a module included: the state is what it
    was, [on_add] is not called, and the [ValidationError] comes with its
    traceback exactly when simplified exceptions are off. *)
Theorem refused_assignment_changes_nothing self key value st :
  (forall m, attrs (heap st self) !! key <> Some (VModule m)) ->
  value <> VDefault ->
  validate key value = false ->
  setattr self key value st = (Raise (ValidationError (negb simplified)), st).
Proof.
  intros Hfree Hnd Hval. rewrite setattr_unguarded by assumption.
  assert (Hv : match value with
               | VDefault => fun st0 => (config_default key, st0)
               | _ => ret value
               end = ret value) by (destruct value; first [reflexivity|contradiction]).
  rewrite Hv. unfold bind, ret, except_ValidationError, object_setattr, raise.
  rewrite Hval. destruct simplified; reflexivity.
Qed.

(** X20. Assigning the [Default] sentinel to an attribute that holds no
    module is assigning what [Config.default] gives for the key; when
    [Config.default] raises, that exception comes out and the state is what
    it was. *)
Theorem default_assigns_configured_value self key st :
  (forall m, attrs (heap st self) !! key <> Some (VModule m)) ->
  (forall value, config_default key = Ok value ->
     setattr self key VDefault st = setattr self key value st) /\
  (forall e, config_default key = Raise e ->
     setattr self key VDefault st = (Raise e, st)).
Proof.
  intros Hfree. split.
  - intros value Hc. rewrite !setattr_unguarded by assumption.
    unfold bind at 1. unfold bind at 2. rewrite Hc.
    destruct value; unfold ret; rewrite ?Hc; reflexivity.
  - intros e Hc. rewrite setattr_unguarded by assumption.
    unfold bind at 1. rewrite Hc. reflexivity.
Qed.

(** X21. An ordinary attribute (none of the names a module keeps its own
    data under, nor its instance dictionary or class) that holds no module
    can be assigned again and again: of two accepted assignments of plain
    values one after the other both return, the attribute holds the second
    value, and nothing else has changed: no other attribute, no label, port
    dictionary, registry, vocabulary map or network list of any module, no
    vocabulary and no warning. *)
Theorem plain_attribute_can_be_reassigned self key (x y : nat) st :
  is_field key = false ->
  is_special key = false ->
  (forall m, attrs (heap st self) !! key <> Some (VModule m)) ->
  validate key (VOther x) = true ->
  validate key (VOther y) = true ->
  let st1 := snd (setattr self key (VOther x) st) in
  let st2 := snd (setattr self key (VOther y) st1) in
  fst (setattr self key (VOther x) st) = Ok tt /\
  fst (setattr self key (VOther y) st1) = Ok tt /\
  attrs (heap st2 self) !! key = Some (VOther y) /\
  (forall k, k <> key -> attrs (heap st2 self) !! k = attrs (heap st self) !! k) /\
  (forall l, l <> self -> heap st2 l = heap st l) /\
  (forall l, _modules (heap st2 l) = _modules (heap st l) /\
             inputs (heap st2 l) = inputs (heap st l) /\
             outputs (heap st2 l) = outputs (heap st l) /\
             label (heap st2 l) = label (heap st l) /\
             vocabs (heap st2 l) = vocabs (heap st l) /\
             networks (heap st2 l) = networks (heap st l)) /\
  vmaps st2 = vmaps st /\ next_vocab st2 = next_vocab st /\
  warnings st2 = warnings st.
Proof.
  intros Hfield Hspecial Hfree Hx Hy st1 st2.
  assert (Hplain : forall z s,
             (forall m, attrs (heap s self) !! key <> Some (VModule m)) ->
             validate key (VOther z) = true ->
             setattr self key (VOther z) s
             = (Ok tt, snd (update self
                              (fun me => with_attrs (<[key := VOther z]> (attrs me)) me)
                              s))).
  { intros z s Hs Hz. rewrite setattr_unguarded by assumption.
    unfold bind, ret, except_ValidationError, object_setattr.
    rewrite Hz, field_write_plain, Hfield, Hspecial by assumption.
    destruct simplified; reflexivity. }
  assert (H1 : setattr self key (VOther x) st
               = (Ok tt, snd (update self
                                (fun me => with_attrs (<[key := VOther x]> (attrs me)) me)
                                st))) by (apply Hplain; assumption).
  assert (Hfree1 : forall m, attrs (heap st1 self) !! key <> Some (VModule m)).
  { intros m. subst st1. rewrite H1. cbn [snd]. rewrite update_heap_eq.
    cbn [attrs with_attrs]. rewrite lookup_insert_eq. discriminate. }
  assert (H2 : setattr self key (VOther y) st1
               = (Ok tt, snd (update self
                                (fun me => with_attrs (<[key := VOther y]> (attrs me)) me)
                                st1))) by (apply Hplain; assumption).
  assert (Hst1 : st1 = snd (update self
                              (fun me => with_attrs (<[key := VOther x]> (attrs me)) me)
                              st)) by (subst st1; rewrite H1; reflexivity).
  assert (Hst2 : st2 = snd (update self
                              (fun me => with_attrs (<[key := VOther y]> (attrs me)) me)
                              st1)) by (subst st2; rewrite H2; reflexivity).
  split; [rewrite H1; reflexivity|]. split; [rewrite H2; reflexivity|].
  split; [|split; [|split; [|split]]].
  - rewrite Hst2, update_heap_eq. cbn [attrs with_attrs]. apply lookup_insert_eq.
  - intros k Hk. rewrite Hst2, update_heap_eq. cbn [attrs with_attrs].
    rewrite lookup_insert_ne by congruence.
    rewrite Hst1, update_heap_eq. cbn [attrs with_attrs].
    apply lookup_insert_ne. congruence.
  - intros l Hl. rewrite Hst2, update_heap_ne by assumption.
    rewrite Hst1, update_heap_ne by assumption. reflexivity.
  - intros l. rewrite Hst2, Hst1. destruct (Nat.eq_dec l self) as [->|Hne].
    + rewrite !update_heap_eq. repeat split.
    + rewrite !update_heap_ne by assumption. repeat split.
  - rewrite Hst2, Hst1. repeat split.
Qed.

End PlainAssignment.

Lemma refused_assignment_changes_nothing_witness :
  __setattr__ on_add_base config_default_none (fun _ _ => false) true
    0 "vision" (VModule 1) sample_unresolved
  = (Raise (ValidationError (negb true)), sample_unresolved).
Proof.
  apply (refused_assignment_changes_nothing
           on_add_base config_default_none (fun _ _ => false) true
           0 "vision" (VModule 1) sample_unresolved).
  - intros m H. discriminate H.
  - discriminate.
  - reflexivity.
Defined.

Lemma default_assigns_configured_value_witness :
  __setattr__ on_add_base config_default_none validate_all true
    0 "gain" VDefault sample_AB
  = __setattr__ on_add_base config_default_none validate_all true
      0 "gain" (VOther 0) sample_AB.
Proof.
  destruct (default_assigns_configured_value
              on_add_base config_default_none validate_all true 0 "gain" sample_AB)
    as [Hok _].
  - intros m H. discriminate H.
  - apply Hok. reflexivity.
Defined.

Lemma plain_attribute_can_be_reassigned_witness :
  let sa := __setattr__ on_add_base config_default_none validate_all true in
  let st1 := snd (sa 0 "gain" (VOther 1) sample_AB) in
  let st2 := snd (sa 0 "gain" (VOther 2) st1) in
  fst (sa 0 "gain" (VOther 1) sample_AB) = Ok tt /\
  fst (sa 0 "gain" (VOther 2) st1) = Ok tt /\
  attrs (heap st2 0) !! "gain" = Some (VOther 2).
Proof.
  destruct (plain_attribute_can_be_reassigned
              on_add_base config_default_none validate_all true 0 "gain" 1 2 sample_AB)
    as (H1 & H2 & H3 & _).
  - reflexivity.
  - reflexivity.
  - intros m H. discriminate H.
  - reflexivity.
  - reflexivity.
  - split; [exact H1|]. split; [exact H2|exact H3].
Defined.

(** ** Leaving the scope, again *)

(** X22. Once the exit of the base network has returned and no exception is
    in flight, leaving the scope of [P] returns normally exactly when every
    [Module] among [P.networks] is among the registered children of [P];
    networks that are no modules are never looked at. *)
Theorem scope_closes_cleanly_iff_all_registered
    (network_exit : loc -> option Exn -> M unit) st st1 (P : loc) :
  network_exit P None st = (Ok tt, st1) ->
  (close_scope network_exit P None st = (Ok tt, st1) <->
   forall q, In (NetModule q) (networks (heap st1 P)) ->
             In q (dict_values (_modules (heap st1 P)))).
Proof.
  intros Hexit.
  assert (Hrun : close_scope network_exit P None st
                 = match check_networks (dict_values (_modules (heap st1 P)))
                           (networks (heap st1 P)) st1 with
                   | (Ok _, s) => (Ok tt, s)
                   | (Raise e, s) => (Raise e, s)
                   end).
  { unfold close_scope, __exit__, bind, deref. rewrite Hexit.
    destruct (check_networks _ _ st1) as [[r|e] s]; reflexivity. }
  rewrite Hrun. split.
  - intros Hok q Hq.
    destruct (in_dec Nat.eq_dec q (dict_values (_modules (heap st1 P)))) as [Hin|Hnot];
      [assumption|].
    destruct (check_networks_raises _ _ st1 q Hq Hnot) as (q' & Hraise & _).
    rewrite Hraise in Hok. discriminate.
  - intros Hall. rewrite check_networks_passes by assumption. reflexivity.
Qed.

Lemma scope_closes_cleanly_iff_all_registered_witness :
  close_scope network_exit_plain 0 None sample_all_registered
  = (Ok tt, sample_all_registered).
Proof.
  apply (scope_closes_cleanly_iff_all_registered
           network_exit_plain sample_all_registered sample_all_registered 0 eq_refl).
  intros q Hq. cbn in Hq |- *.
  destruct Hq as [Hq|[Hq|[Hq|[]]]]; inversion Hq; subst; auto.
Defined.

(** X23. [__exit__] never returns a true value, so leaving the scope never
    swallows an exception: with an exception in flight, whatever the exit
    of the base network does, an exception comes out. *)
Theorem scope_exit_never_swallows
    (network_exit : loc -> option Exn -> M unit) st (P : loc) (ex : option Exn) :
  fst (__exit__ network_exit P ex st) <> Ok (Some true) /\
  forall e, exists e' st',
      close_scope network_exit P (Some e) st = (Raise e', st').
Proof.
  split.
  - unfold __exit__, bind, deref, ret.
    destruct (network_exit P ex st) as [[[]|e0] s]; [|discriminate].
    destruct ex as [e|]; [discriminate|].
    generalize (dict_values (_modules (heap s P))). intros module_list.
    induction (networks (heap s P)) as [|[net|n] nets IH]; cbn [check_networks].
    + discriminate.
    + destruct (negb (registered_in module_list net)); [discriminate|exact IH].
    + exact IH.
  - intros e. unfold close_scope, __exit__, bind, ret, raise.
    destruct (network_exit P (Some e) st) as [[[]|e0] s]; eauto.
Qed.

Lemma check_networks_blames_first module_list nets st e st' :
  check_networks module_list nets st = (Raise e, st') ->
  exists q before rest,
    e = SpaModuleError (NotSetAsAttribute q) /\ st' = st /\
    nets = before ++ NetModule q :: rest /\
    ~ In q module_list /\
    forall q', In (NetModule q') before -> In q' module_list.
Proof.
  induction nets as [|[net|n] nets IH]; cbn [check_networks]; intros H.
  - discriminate.
  - destruct (registered_in module_list net) eqn:E; cbn [negb] in H.
    + destruct (IH H) as (q & before & rest & He & Hst & Hn & Hnot & Hbefore).
      exists q, (NetModule net :: before), rest. subst nets.
      repeat split; try assumption.
      intros q' [Hq|Hq]; [|apply Hbefore; assumption].
      inversion Hq; subst. apply registered_in_In. assumption.
    + inversion H; subst. exists net, [], nets. repeat split.
      * intros Hin. apply registered_in_In in Hin. congruence.
      * intros q' [].
  - destruct (IH H) as (q & before & rest & He & Hst & Hn & Hnot & Hbefore).
    exists q, (NetPlain n :: before), rest. subst nets.
    repeat split; try assumption.
    intros q' [Hq|Hq]; [discriminate|apply Hbefore; assumption].
Qed.

(** X24. What leaving the scope raises on its own account, once the exit of
    the base network has returned and with no exception in flight, is the
    [SpaModuleError] that names the first [Module] in [P.networks] that is
    not among the registered children of [P]: the module named is not a
    value of the registry of [P], every module listed before it is, and the
    state is the one the exit of the base network left. *)
Theorem scope_close_names_first_unregistered
    (network_exit : loc -> option Exn -> M unit) st st1 (P : loc) e st' :
  network_exit P None st = (Ok tt, st1) ->
  close_scope network_exit P None st = (Raise e, st') ->
  exists q before rest,
    e = SpaModuleError (NotSetAsAttribute q) /\ st' = st1 /\
    networks (heap st1 P) = before ++ NetModule q :: rest /\
    (forall q', In (NetModule q') before ->
                In q' (dict_values (_modules (heap st1 P)))) /\
    ~ In q (dict_values (_modules (heap st1 P))) /\
    forall n, dict_get (_modules (heap st1 P)) n <> Some q.
Proof.
  intros Hexit H. unfold close_scope, __exit__, bind, deref in H. rewrite Hexit in H.
  destruct (check_networks (dict_values (_modules (heap st1 P)))
              (networks (heap st1 P)) st1) as [[r|e0] s] eqn:E; [discriminate|].
  inversion H; subst e0 s.
  destruct (check_networks_blames_first _ _ _ _ _ E)
    as (q & before & rest & He & Hst & Hn & Hnot & Hbefore).
  exists q, before, rest. repeat split; try assumption.
  intros n Hreg. apply Hnot. apply dict_get_In in Hreg.
  unfold dict_values. change q with (snd (n, q)). apply in_map. assumption.
Qed.

Lemma scope_close_names_first_unregistered_witness :
  exists q before rest,
    SpaModuleError (NotSetAsAttribute 2) = SpaModuleError (NotSetAsAttribute q) /\
    sample_unregistered = sample_unregistered /\
    networks (heap sample_unregistered 0) = before ++ NetModule q :: rest /\
    (forall q', In (NetModule q') before ->
                In q' (dict_values (_modules (heap sample_unregistered 0)))) /\
    ~ In q (dict_values (_modules (heap sample_unregistered 0))) /\
    forall n, dict_get (_modules (heap sample_unregistered 0)) n <> Some q.
Proof.
  apply (scope_close_names_first_unregistered network_exit_plain
           sample_unregistered sample_unregistered 0
           (SpaModuleError (NotSetAsAttribute 2)) sample_unregistered);
    reflexivity.
Defined.
